(** * log-analyzer-cli: the parsing, filtering and aggregation core of
    [src/index.js], embedded in Rocq.

    Layout of the file:
    - [JS]: the part of the host language the source relies on (strings,
      scalar values, plain objects with their property order and their
      prototype, number formatting, the regular expressions the source
      writes out);
    - the functions of [src/index.js], under their own names;
    - the vocabulary of the statements about them;
    - the steps of the command line [src/unnamed/part_000] that compute:
      the reading of the option [--status] and the CSV of the command
      export;
    - the statements and their proofs.

    Conventions of the model.
    - A string is a sequence of UTF-16 code units; the model covers the code
      units below 256, one [ascii] each.
    - A number is an integer ([Z]); the source only ever builds integers
      ([parseInt] of a digit run, counters, lengths).  Non-integral JSON
      numbers and integers beyond 2^53 are not covered: a statement that
      depends on the value [parseInt] reads or on the numeral [String]
      prints is made for safe integers ([safe_integer]).
    - A log record is a plain object whose field values are scalars; a JSON
      log line is taken to hold a record or [null]. *)

From Stdlib Require Import ZArith List Bool Ascii String Lia.
From Stdlib Require Import Permutation Sorted SpecFloat DecimalString.
From Stdlib Require Import DecimalPos DecimalZ.
Import ListNotations.

Local Open Scope string_scope.
Local Open Scope list_scope.
Local Open Scope Z_scope.

Module JS.

(** ** Strings *)

(** [WhiteSpace] and [LineTerminator] code units below 256: TAB, LF, VT,
    FF, CR, SP and NBSP.  This is the set [String.prototype.trim] strips
    and the class [\s] of regular expressions. *)
Definition is_white_space (c : ascii) : bool :=
  let n := nat_of_ascii c in
  ((9 <=? n)%nat && (n <=? 13)%nat) || (n =? 32)%nat || (n =? 160)%nat.

Definition LF : ascii := ascii_of_nat 10.
Definition CR : ascii := ascii_of_nat 13.

Fixpoint trimStart (s : string) : string :=
  match s with
  | EmptyString => EmptyString
  | String c s' => if is_white_space c then trimStart s' else s
  end.

Fixpoint trimEnd (s : string) : string :=
  match s with
  | EmptyString => EmptyString
  | String c s' =>
      match trimEnd s' with
      | EmptyString => if is_white_space c then EmptyString else String c EmptyString
      | t => String c t
      end
  end.

(** [s.trim()] *)
Definition trim (s : string) : string := trimEnd (trimStart s).

(** [s.split(sep)] for a separator of one code unit. *)
Fixpoint split (sep : ascii) (s : string) : list string :=
  match s with
  | EmptyString => [EmptyString]
  | String c s' =>
      if Ascii.eqb c sep then EmptyString :: split sep s'
      else match split sep s' with
           | h :: t => String c h :: t
           | [] => [String c EmptyString]
           end
  end.

(** [sep]-joined concatenation, [Array.prototype.join]. *)
Fixpoint join (sep : string) (l : list string) : string :=
  match l with
  | [] => EmptyString
  | [x] => x
  | x :: l' => x ++ sep ++ join sep l'
  end.

Definition is_digit (c : ascii) : bool :=
  let n := nat_of_ascii c in (48 <=? n)%nat && (n <=? 57)%nat.

Definition digit_value (c : ascii) : Z := Z.of_nat (nat_of_ascii c) - 48.

(** The value of a run of decimal digits read left to right. *)
Fixpoint digits_value (acc : Z) (s : string) : Z :=
  match s with
  | EmptyString => acc
  | String c s' => digits_value (10 * acc + digit_value c) s'
  end.

(** Every code unit of [s] is in the class. *)
Fixpoint all_in (class : ascii -> bool) (s : string) : bool :=
  match s with
  | EmptyString => true
  | String c s' => class c && all_in class s'
  end.

Definition all_digits (s : string) : bool := all_in is_digit s.

(** [parseInt(s)] on a non-empty run of decimal digits (the only use in the
    source); [None] stands for [NaN].  The result is the integer the run
    spells: the number of the source as long as that integer is at most
    2^53 - 1; beyond, the source rounds it to a double (and to [Infinity]
    from 309 digits on), which the model does not follow. *)
Definition parseInt (s : string) : option Z :=
  match s with
  | EmptyString => None
  | _ => if all_digits s then Some (digits_value 0 s) else None
  end.

(** [Number.prototype.toString] on an integer: its decimal numeral, which
    is what the source prints for an integer of magnitude below 10^21. *)
Definition string_of_Z (z : Z) : string := NilZero.string_of_int (Z.to_int z).

(** ** Values *)

(** The scalar values of a log record ([VNaN] arises from arithmetic only),
    together with the two kinds of value a property read can bring in from
    [Object.prototype]: one of its
    built-in functions ([VFun], carrying the function's own name) and the
    prototype object itself ([VObjectPrototype], what [o.__proto__]
    reads). *)
Inductive value : Type :=
| VUndef
| VNull
| VBool (b : bool)
| VNum (n : Z)
| VNaN
| VStr (s : string)
| VFun (name : string)
| VObjectPrototype.

(** [ToBoolean]: what [if (v)], [v && _] and [v || _] test. *)
Definition truthy (v : value) : bool :=
  match v with
  | VUndef | VNull | VNaN => false
  | VBool b => b
  | VNum n => negb (n =? 0)
  | VStr s => negb (String.eqb s EmptyString)
  | VFun _ | VObjectPrototype => true
  end.

(** [a || b] *)
Definition or_else (a b : value) : value := if truthy a then a else b.

(** The source text V8 prints for a built-in function. *)
Definition native_source (name : string) : string :=
  "function " ++ name ++ "() { [native code] }".

(** [String(v)], also the property key [v] denotes in [o[v]]. *)
Definition ToString (v : value) : string :=
  match v with
  | VUndef => "undefined"
  | VNull => "null"
  | VBool true => "true"
  | VBool false => "false"
  | VNum n => string_of_Z n
  | VNaN => "NaN"
  | VStr s => s
  | VFun name => native_source name
  | VObjectPrototype => "[object Object]"
  end.

(** ** Plain objects *)

(** The own properties of a plain object, in the order [Object.keys],
    [Object.entries] and [JSON.stringify] enumerate them: array-index keys
    first, by ascending numeric value, then the other keys in the order of
    their creation. *)
Definition object : Type := list (string * value).

Fixpoint own (k : string) (o : object) : option value :=
  match o with
  | [] => None
  | (k', v) :: o' => if String.eqb k k' then Some v else own k o'
  end.

(** An array index is the canonical decimal spelling of an integer between
    0 and 2^32 - 2. *)
Definition array_index (k : string) : option Z :=
  match parseInt k with
  | Some n =>
      if (n <=? 4294967294) && String.eqb (string_of_Z n) k then Some n else None
  | None => None
  end.

(** The names [Object.prototype] defines (Node.js), every one of them a
    function but the accessor [__proto__]. *)
Definition object_prototype_functions : list string :=
  ["constructor"; "__defineGetter__"; "__defineSetter__"; "hasOwnProperty";
   "__lookupGetter__"; "__lookupSetter__"; "isPrototypeOf";
   "propertyIsEnumerable"; "toString"; "valueOf"; "toLocaleString"].

Definition object_prototype_names : list string :=
  "__proto__" :: object_prototype_functions.

Definition mem (k : string) (l : list string) : bool :=
  existsb (String.eqb k) l.

(** What a read of [k] finds on [Object.prototype]. *)
Definition object_prototype_get (k : string) : value :=
  if String.eqb k "__proto__" then VObjectPrototype
  else if String.eqb k "constructor" then VFun "Object"
  else if mem k object_prototype_functions then VFun k
  else VUndef.

(** [o[k]]: the own property, else the inherited one, else [undefined]. *)
Definition get (o : object) (k : string) : value :=
  match own k o with
  | Some v => v
  | None => object_prototype_get k
  end.

Fixpoint replace (k : string) (v : value) (o : object) : object :=
  match o with
  | [] => []
  | (k', v') :: o' =>
      if String.eqb k k' then (k', v) :: o' else (k', v') :: replace k v o'
  end.

(** A new array-index key goes before the first key that is not an array
    index or is a larger one. *)
Fixpoint insert_index (i : Z) (k : string) (v : value) (o : object) : object :=
  match o with
  | [] => [(k, v)]
  | (k', v') :: o' =>
      match array_index k' with
      | Some j => if j <? i then (k', v') :: insert_index i k v o'
                  else (k, v) :: o
      | None => (k, v) :: o
      end
  end.

(** Definition of the own property [k], kept in enumeration order. *)
Definition define (k : string) (v : value) (o : object) : object :=
  match own k o with
  | Some _ => replace k v o
  | None =>
      match array_index k with
      | Some i => insert_index i k v o
      | None => o ++ [(k, v)]
      end
  end.

(** [o[k] = v] for a scalar [v].  The inherited accessor [__proto__]
    intercepts the assignment when [o] has no own property of that name, and
    its setter ignores a value that is neither an object nor [null]; every
    other inherited property is a writable data property, so the assignment
    defines an own one. *)
Definition put (k : string) (v : value) (o : object) : object :=
  match own k o with
  | Some _ => replace k v o
  | None => if String.eqb k "__proto__" then o else define k v o
  end.

(** [Object.keys(o)] *)
Definition keys (o : object) : list string := map fst o.

(** [Object.entries(o)] *)
Definition entries_of (o : object) : list (string * value) := o.

(** [v + 1]: concatenation as soon as [v] converts to a string, numeric
    addition otherwise. *)
Definition add_one (v : value) : value :=
  match v with
  | VNum n => VNum (n + 1)
  | VBool b => VNum ((if b then 1 else 0) + 1)
  | VNull => VNum 1
  | VUndef | VNaN => VNaN
  | VStr s => VStr (s ++ "1")
  | VFun _ | VObjectPrototype => VStr (ToString v ++ "1")
  end.

(** [o[k] = (o[k] || 0) + 1] *)
Definition increment (k : string) (o : object) : object :=
  put k (add_one (or_else (get o k) (VNum 0))) o.

(** ** Sorting *)

Section Sort.
Context {A : Type}.
Variable cmp : A -> A -> Z.

(** [x], which stood before every element of [l], keeps its place in front
    of the elements it does not compare greater than. *)
Fixpoint insert (x : A) (l : list A) : list A :=
  match l with
  | [] => [x]
  | y :: l' => if cmp x y <=? 0 then x :: l else y :: insert x l'
  end.

(** [l.sort(cmp)]: a stable sort (ECMAScript 2019), here by insertion.
    This is the order of the source for a consistent comparator; for one
    that answers [NaN] for some pairs and not for others the language leaves
    the order to the implementation, and the statements about order are made
    for tables whose counts are numbers. *)
Fixpoint sort (l : list A) : list A :=
  match l with
  | [] => []
  | x :: l' => insert x (sort l')
  end.
End Sort.

(** The comparator [(a, b) => key(b) - key(a)]. *)
Definition descending {A : Type} (key : A -> Z) (a b : A) : Z := key b - key a.

(** The elements of key [n]. *)
Definition keyed {A : Type} (key : A -> Z) (n : Z) (x : A) : bool := key x =? n.

(** [l.slice(0, n)] *)
Definition slice0 {A : Type} (n : nat) (l : list A) : list A := firstn n l.

(** ** Numbers as doubles: division, product and [toFixed] *)

Definition double : Type := spec_float.
Definition double_of_Z (z : Z) : double := binary_normalize 53 1024 z 0 false.
Definition double_div : double -> double -> double := SFdiv 53 1024.
Definition double_mul : double -> double -> double := SFmul 53 1024.

Fixpoint zeros (n : nat) : string :=
  match n with
  | O => EmptyString
  | S n' => String "0" (zeros n')
  end.

(** The integer [n] for which [n / 100] is nearest to [m * 2^e], the larger
    one of two. *)
Definition hundredths (m : positive) (e : Z) : Z :=
  if 0 <=? e then Z.pos m * 100 * 2 ^ e
  else (Z.pos m * 100 * 2 + 2 ^ (- e)) / 2 ^ (- e + 1).

(** The decimal digits of [n >= 0] with a point before the last two. *)
Definition two_decimals (n : Z) : string :=
  let d := string_of_Z n in
  let d := (zeros (3 - String.length d) ++ d)%string in
  let k := (String.length d - 2)%nat in
  (substring 0 k d ++ "." ++ substring k 2 d)%string.

(** [x.toFixed(2)], for [x] below 10^21 in magnitude. *)
Definition toFixed2 (x : double) : string :=
  match x with
  | S754_nan => "NaN"
  | S754_infinity s => if s then "-Infinity" else "Infinity"
  | S754_zero _ => "0.00"
  | S754_finite s m e =>
      ((if s then "-" else EmptyString) ++ two_decimals (hundredths m e))%string
  end.

(** ** [JSON.stringify] of a record *)

Definition DQUOTE : ascii := ascii_of_nat 34.
Definition BACKSLASH : ascii := ascii_of_nat 92.

Definition hex_digit (n : nat) : ascii :=
  ascii_of_nat (if (n <? 10)%nat then 48 + n else 87 + n).

(** One code unit inside a JSON string literal. *)
Definition json_escape (c : ascii) : string :=
  let n := nat_of_ascii c in
  if (n =? 34)%nat then String BACKSLASH (String DQUOTE EmptyString)
  else if (n =? 92)%nat then String BACKSLASH (String BACKSLASH EmptyString)
  else if (n =? 8)%nat then String BACKSLASH "b"
  else if (n =? 9)%nat then String BACKSLASH "t"
  else if (n =? 10)%nat then String BACKSLASH "n"
  else if (n =? 12)%nat then String BACKSLASH "f"
  else if (n =? 13)%nat then String BACKSLASH "r"
  else if (n <? 32)%nat then
    String BACKSLASH
      ("u00" ++ String (hex_digit (n / 16))
                  (String (hex_digit (n mod 16)) EmptyString))
  else String c EmptyString.

Definition json_quote (s : string) : string :=
  String DQUOTE
    (String.concat EmptyString (map json_escape (list_ascii_of_string s))
     ++ String DQUOTE EmptyString).

(** A value inside a record; [None] where [JSON.stringify] leaves the
    property out. *)
Definition json_value (v : value) : option string :=
  match v with
  | VUndef | VFun _ => None
  | VNull | VNaN => Some "null"
  | VBool _ | VNum _ => Some (ToString v)
  | VStr s => Some (json_quote s)
  | VObjectPrototype => Some "{}"
  end.

Fixpoint json_members (o : object) : list string :=
  match o with
  | [] => []
  | (k, v) :: o' =>
      match json_value v with
      | Some t => (json_quote k ++ ":" ++ t)%string :: json_members o'
      | None => json_members o'
      end
  end.

(** [JSON.stringify(o)] *)
Definition JSON_stringify (o : object) : string :=
  ("{" ++ join "," (json_members o) ++ "}")%string.

(** ** The regular expressions of the source

    Every pattern the source writes out is anchored at both ends and is a
    sequence of literal code units and of repeated character classes, some
    of them captured.  [exec] tries the alternatives in the order a
    backtracking matcher does: a greedy repetition gives up code units one at
    a time, a lazy one takes them one at a time. *)

Inductive quantifier : Type :=
| Plus                 (* c+  : one or more, greedy *)
| Exactly (n : nat)    (* c{n} *)
| LazyStar.            (* c*? : zero or more, lazy *)

Inductive node : Type :=
| Lit (c : ascii)
| Rep (captured : bool) (q : quantifier) (class : ascii -> bool).

Definition regex : Type := list node.

Definition snoc (s : string) (c : ascii) : string :=
  (s ++ String c EmptyString)%string.

Definition capture (captured : bool) (text : string)
    (rest : option (list string)) : option (list string) :=
  match rest with
  | Some groups => Some (if captured then text :: groups else groups)
  | None => None
  end.

(** The three repetitions, each followed by the rest of the pattern:
    [rest s] is the match of what follows against [s], and [seen] is what the
    repetition has taken so far. *)

(** [class+]: take one more code unit first, stop here when that fails. *)
Fixpoint greedy_plus (class : ascii -> bool) (captured : bool)
    (rest : string -> option (list string)) (s seen : string)
    : option (list string) :=
  match s with
  | String c s' =>
      if class c then
        match greedy_plus class captured rest s' (snoc seen c) with
        | Some groups => Some groups
        | None => capture captured (snoc seen c) (rest s')
        end
      else None
  | EmptyString => None
  end.

(** [class{n}] *)
Fixpoint exactly (class : ascii -> bool) (captured : bool)
    (rest : string -> option (list string)) (n : nat) (s seen : string)
    : option (list string) :=
  match n with
  | O => capture captured seen (rest s)
  | S n' =>
      match s with
      | String c s' =>
          if class c then exactly class captured rest n' s' (snoc seen c)
          else None
      | EmptyString => None
      end
  end.

(** [class*?]: stop here first, take one more code unit when that fails. *)
Fixpoint lazy_star (class : ascii -> bool) (captured : bool)
    (rest : string -> option (list string)) (s seen : string)
    : option (list string) :=
  match capture captured seen (rest s) with
  | Some groups => Some groups
  | None =>
      match s with
      | String c s' =>
          if class c then lazy_star class captured rest s' (snoc seen c)
          else None
      | EmptyString => None
      end
  end.

(** [exec r s]: the captured groups, in order, of the match of [^r$] against
    [s], or [None]. *)
Fixpoint exec (r : regex) (s : string) {struct r} : option (list string) :=
  match r with
  | [] => match s with EmptyString => Some [] | _ => None end
  | Lit c :: r' =>
      match s with
      | String c' s' => if Ascii.eqb c c' then exec r' s' else None
      | EmptyString => None
      end
  | Rep captured Plus class :: r' =>
      greedy_plus class captured (exec r') s EmptyString
  | Rep captured (Exactly n) class :: r' =>
      exactly class captured (exec r') n s EmptyString
  | Rep captured LazyStar class :: r' =>
      lazy_star class captured (exec r') s EmptyString
  end.

(** [r.test(s)] *)
Definition test (r : regex) (s : string) : bool :=
  match exec r s with Some _ => true | None => false end.

(** [\S], [\d], [[^\]]] and [.] *)
Definition non_space (c : ascii) : bool := negb (is_white_space c).
Definition not_closing_bracket (c : ascii) : bool := negb (Ascii.eqb c "]").
Definition dot (c : ascii) : bool := negb (Ascii.eqb c LF || Ascii.eqb c CR).

Definition SP : node := Lit " ".
Definition QUOTE : node := Lit DQUOTE.

End JS.

Import JS.

(** * The program: [src/index.js] *)

(** What [JSON.parse] does with one line of a log: it throws, or returns
    [null], or returns a record.  (Lines that hold another JSON value, a
    number or an array, and records with nested values are outside the
    model.) *)
Inductive json_result : Type :=
| JThrow
| JNull
| JObject (o : object).

(** The shape [parseLogFile] returns. *)
Module ParsedLog.
Record t : Type := make {
  format : string;
  entries : list object;
  totalLines : nat;
  parsedEntries : nat
}.
End ParsedLog.

(** The two tables of [calculateTimeStats]. *)
Module TimeStats.
Record t : Type := make { hour : object; minute : object }.
End TimeStats.

(** The shape [generateSummary] returns; [None] is a key the summary does
    not have. *)
Module Summary.
Record t : Type := make {
  format : string;
  totalEntries : nat;
  fieldsDetected : list string;
  statusCounts : option object;
  errorCount : option nat;
  errorRate : option string;
  clientErrors : option nat;
  serverErrors : option nat;
  topPaths : option (list (string * value));
  timeStats : option TimeStats.t
}.
End Summary.

(** The failure of [new RegExp(pattern)]. *)
Inductive result (A : Type) : Type :=
| Return (a : A)
| ThrowSyntaxError.
Arguments Return {A} a.
Arguments ThrowSyntaxError {A}.

(** [/^\S+ \S+ \S+ \[[^\]]+\] "\S+ \S+ \S+" \d{3} \d+ ".*?" ".*?"$/], the
    pattern of [detectFormat] ([captured = false]) and of [parseNginxLine]
    ([captured = true], every class in a group). *)
Definition nginx_regex (captured : bool) : regex :=
  [ Rep captured Plus non_space; SP;
    Rep captured Plus non_space; SP;
    Rep captured Plus non_space; SP;
    Lit "["; Rep captured Plus not_closing_bracket; Lit "]"; SP;
    QUOTE; Rep captured Plus non_space; SP;
           Rep captured Plus non_space; SP;
           Rep captured Plus non_space; QUOTE; SP;
    Rep captured (Exactly 3) is_digit; SP;
    Rep captured Plus is_digit; SP;
    QUOTE; Rep captured LazyStar dot; QUOTE; SP;
    QUOTE; Rep captured LazyStar dot; QUOTE ].

(** [/^\S+ \S+ \S+ \[[^\]]+\] "\S+ \S+ \S+" \d{3} \d+$/], likewise for
    [detectFormat] and [parseApacheLine]. *)
Definition apache_regex (captured : bool) : regex :=
  [ Rep captured Plus non_space; SP;
    Rep captured Plus non_space; SP;
    Rep captured Plus non_space; SP;
    Lit "["; Rep captured Plus not_closing_bracket; Lit "]"; SP;
    QUOTE; Rep captured Plus non_space; SP;
           Rep captured Plus non_space; SP;
           Rep captured Plus non_space; QUOTE; SP;
    Rep captured (Exactly 3) is_digit; SP;
    Rep captured Plus is_digit ].

Definition nginxPattern : regex := nginx_regex false.
Definition apachePattern : regex := apache_regex false.

(** [parseInt(s)] as a value: exact for a run that spells a safe integer
    (see [parseInt]). *)
Definition number (s : string) : value :=
  match parseInt s with Some n => VNum n | None => VNaN end.

(** [content.split('\n').filter(l => l.trim())] *)
Definition non_blank_lines (content : string) : list string :=
  filter (fun l => truthy (VStr (trim l))) (split LF content).

Definition parseNginxLine (line : string) : option object :=
  match exec (nginx_regex true) line with
  | Some [ip; identity; user; timestamp; method; path; protocol;
          status; size; referer; userAgent] =>
      Some [ ("ip", VStr ip);
             ("identity", VStr identity);
             ("user", VStr user);
             ("timestamp", VStr timestamp);
             ("method", VStr method);
             ("path", VStr path);
             ("protocol", VStr protocol);
             ("status", number status);
             ("size", number size);
             ("referer", or_else (VStr referer) (VStr "-"));
             ("userAgent", or_else (VStr userAgent) (VStr "-")) ]
  | _ => None
  end.

Definition parseApacheLine (line : string) : option object :=
  match exec (apache_regex true) line with
  | Some [ip; identity; user; timestamp; method; path; protocol;
          status; size] =>
      Some [ ("ip", VStr ip);
             ("identity", VStr identity);
             ("user", VStr user);
             ("timestamp", VStr timestamp);
             ("method", VStr method);
             ("path", VStr path);
             ("protocol", VStr protocol);
             ("status", number status);
             ("size", number size) ]
  | _ => None
  end.

(** [entries.filter(entry => entry !== null)], [None] being [null]. *)
Fixpoint not_null (l : list (option object)) : list object :=
  match l with
  | [] => []
  | Some o :: l' => o :: not_null l'
  | None :: l' => not_null l'
  end.

(** [statusCodes.includes(v)] for a list of integers: strict equality, so
    only a number can be a member. *)
Definition includes (statusCodes : list Z) (v : value) : bool :=
  match v with
  | VNum n => existsb (Z.eqb n) statusCodes
  | _ => false
  end.

Definition filterByStatus (entries : list object) (statusCodes : list Z)
    : list object :=
  filter (fun entry =>
            truthy (get entry "status")
            && includes statusCodes (get entry "status"))
         entries.

Definition aggregateByField (entries : list object) (field : string) : object :=
  fold_left
    (fun counts entry =>
       let value := or_else (get entry field) (VStr "unknown") in
       increment (ToString value) counts)
    entries [].

(** [b[1] - a[1]] read by [sort]: the difference of two counts, 0 when it
    is [NaN].  A count is a number, unless its key met an inherited property
    and it became a string, which spells no number. *)
Definition to_number (v : value) : option Z :=
  match v with
  | VNum n => Some n
  | VBool b => Some (if b then 1 else 0)
  | VNull => Some 0
  | _ => None
  end.

Definition by_count_descending (a b : string * value) : Z :=
  match to_number (snd b), to_number (snd a) with
  | Some y, Some x => y - x
  | _, _ => 0
  end.

(** [new Set()] with [add], as the list of its elements in insertion
    order. *)
Definition set_add (k : string) (s : list string) : list string :=
  if mem k s then s else s ++ [k].

(** [String(n).padStart(2, '0')] *)
Definition padStart2 (s : string) : string :=
  (zeros (2 - String.length s) ++ s)%string.

(** A key of the summary that is set under a condition only. *)
Definition only_if {A : Type} (condition : bool) (x : A) : option A :=
  if condition then Some x else None.

Section Host.

(** [JSON.parse] on a line. *)
Variable JSON_parse : string -> json_result.

(** [new Date(v)]: [None] when the time value is [NaN], else the local
    [getHours()] and [getMinutes()]. *)
Variable Date_local : value -> option (Z * Z).

(** [fs.readFileSync(path, 'utf8')]: [None] when it throws. *)
Variable readFileSync : string -> option string.

(** [new RegExp(pattern, 'i')], [None] when it throws [SyntaxError], and
    [regex.test(s)]. *)
Variable RegExp : Type.
Variable RegExp_i : string -> option RegExp.
Variable RegExp_test : RegExp -> string -> bool.

Definition detectFormat (content : string) : string :=
  let lines := non_blank_lines content in
  match lines with
  | [] => "text"
  | firstLine :: _ =>
      match JSON_parse firstLine with
      | JNull | JObject _ => "json"
      | JThrow =>
          if test nginxPattern firstLine then "nginx"
          else if test apachePattern firstLine then "apache"
          else "text"
      end
  end.

Definition parseJsonLine (line : string) : option object :=
  match JSON_parse line with
  | JObject o => Some o
  | JNull => None
  | JThrow => None
  end.

(** The callback of [lines.map] in [parseLogFile]. *)
Definition parse_line (detectedFormat : string) (line : string)
    : option object :=
  if String.eqb detectedFormat "nginx" then parseNginxLine line
  else if String.eqb detectedFormat "apache" then parseApacheLine line
  else if String.eqb detectedFormat "json" then parseJsonLine line
  else Some [("raw", VStr line)].

(** [parseLogFile] once the file is read. *)
Definition parse_content (content : string) (format : string) : ParsedLog.t :=
  let detectedFormat :=
    if String.eqb format "auto" then detectFormat content else format in
  let lines := non_blank_lines content in
  let entries := not_null (map (parse_line detectedFormat) lines) in
  ParsedLog.make detectedFormat entries (List.length lines) (List.length entries).

(** [None] when reading the file throws. *)
Definition parseLogFile (filePath : string) (format : string)
    : option ParsedLog.t :=
  match readFileSync filePath with
  | Some content => Some (parse_content content format)
  | None => None
  end.

Definition filterEntries (entries : list object) (pattern : string)
    (field : option string) : result (list object) :=
  match RegExp_i pattern with
  | None => ThrowSyntaxError
  | Some regex =>
      Return
        (filter
           (fun entry =>
              match field with
              | Some f =>
                  if truthy (VStr f) then
                    match get entry f with
                    | VUndef | VNull => false
                    | value => RegExp_test regex (ToString value)
                    end
                  else RegExp_test regex (JSON_stringify entry)
              | None => RegExp_test regex (JSON_stringify entry)
              end)
           entries)
  end.

Definition calculateTimeStats (entries : list object) : TimeStats.t :=
  fold_left
    (fun timeBuckets entry =>
       if truthy (get entry "timestamp") then
         match Date_local (get entry "timestamp") with
         | Some (hour, minutes) =>
             let minute :=
               (string_of_Z hour ++ ":" ++ padStart2 (string_of_Z minutes))%string in
             TimeStats.make
               (increment (string_of_Z hour) (TimeStats.hour timeBuckets))
               (increment minute (TimeStats.minute timeBuckets))
         | None => timeBuckets
         end
       else timeBuckets)
    entries (TimeStats.make [] []).

Definition is_access_log (format : string) : bool :=
  String.eqb format "nginx" || String.eqb format "apache".

(** [((errors / total) * 100).toFixed(2) + '%'] *)
Definition percentage (errors total : nat) : string :=
  (toFixed2
     (double_mul
        (double_div (double_of_Z (Z.of_nat errors))
                    (double_of_Z (Z.of_nat total)))
        (double_of_Z 100))
   ++ "%")%string.

Definition generateSummary (parsed : ParsedLog.t) : Summary.t :=
  let entries := ParsedLog.entries parsed in
  let format := ParsedLog.format parsed in
  match entries with
  | [] =>
      Summary.make format (List.length entries) []
        None None None None None None None
  | _ :: _ =>
      let fields :=
        fold_left
          (fun fields entry => fold_left (fun s key => set_add key s)
                                 (keys entry) fields)
          entries [] in
      let access := is_access_log format in
      let errorEntries :=
        filterByStatus entries [400; 401; 403; 404; 500; 502; 503; 504] in
      let status4xx :=
        List.length (filterByStatus entries [400; 401; 403; 404]) in
      let status5xx :=
        List.length (filterByStatus entries [500; 502; 503; 504]) in
      let sortedPaths :=
        slice0 10
          (sort by_count_descending
             (entries_of (aggregateByField entries "path"))) in
      Summary.make format (List.length entries) fields
        (only_if access (aggregateByField entries "status"))
        (only_if access (List.length errorEntries))
        (only_if access
           (percentage (List.length errorEntries) (List.length entries)))
        (only_if access status4xx)
        (only_if access status5xx)
        (only_if access sortedPaths)
        (Some (calculateTimeStats entries))
  end.

End Host.

(** * Vocabulary of the statements *)

(** A line made of white space only. *)
Fixpoint blank (s : string) : bool :=
  match s with
  | EmptyString => true
  | String c s' => is_white_space c && blank s'
  end.

(** The lines of a content, and the first one that is not blank. *)
Definition lines_of (content : string) : list string := split LF content.

Definition first_non_blank_line (content : string) : option string :=
  find (fun l => negb (blank l)) (lines_of content).

(** [l1] is [l2] with some elements left out, the others in place. *)
Inductive subsequence {A : Type} : list A -> list A -> Prop :=
| subsequence_nil : subsequence [] []
| subsequence_skip x l1 l2 : subsequence l1 l2 -> subsequence l1 (x :: l2)
| subsequence_keep x l1 l2 : subsequence l1 l2 -> subsequence (x :: l1) (x :: l2).

(** The record the text format makes of a line. *)
Definition raw_record (line : string) : object := [("raw", VStr line)].

(** The format selectors [parseLogFile] knows. *)
Definition known_selectors : list string :=
  ["json"; "nginx"; "apache"; "text"; "auto"].

(** The classification of a line, in the order the source tries the
    formats: JSON, nginx combined, Apache combined, text. *)
Definition classify_line (JSON_parse : string -> json_result) (line : string)
    : string :=
  match JSON_parse line with
  | JThrow =>
      if test nginxPattern line then "nginx"
      else if test apachePattern line then "apache"
      else "text"
  | _ => "json"
  end.

(** ** The logs of [src/test.js] *)

(** Log lines are written with an apostrophe where the log has a double
    quote. *)
Definition dq (s : string) : string :=
  string_of_list_ascii
    (map (fun c => if Ascii.eqb c "'" then DQUOTE else c)
       (list_ascii_of_string s)).

Definition nginxLog : string :=
  join (String LF EmptyString)
    (map dq
       [ "192.168.1.1 - - [19/Feb/2026:10:00:00 +0000] 'GET /api/v1/users HTTP/1.1' 200 1234 '-' 'Mozilla/5.0'";
         "192.168.1.2 - - [19/Feb/2026:10:00:01 +0000] 'GET /api/v1/posts HTTP/1.1' 200 567 'https://example.com' 'Mozilla/5.0'";
         "192.168.1.3 - - [19/Feb/2026:10:00:02 +0000] 'GET /api/v1/nonexistent HTTP/1.1' 404 89 '-' 'curl/7.68.0'";
         "192.168.1.1 - - [19/Feb/2026:10:00:03 +0000] 'POST /api/v1/auth/login HTTP/1.1' 500 234 '-' 'Mozilla/5.0'";
         "192.168.1.4 - - [19/Feb/2026:10:00:04 +0000] 'GET /api/v1/users HTTP/1.1' 403 45 '-' 'curl/7.68.0'" ]).

Definition textLog : string :=
  join (String LF EmptyString)
    [ "[2026-02-19 10:00:00] INFO: Server started";
      "[2026-02-19 10:00:01] INFO: Processing request";
      "[2026-02-19 10:00:02] ERROR: Connection timeout";
      "[2026-02-19 10:00:03] WARN: Slow query detected";
      "[2026-02-19 10:00:04] INFO: Request completed" ].

(** A [JSON.parse] for logs none of whose lines is JSON. *)
Definition no_json : string -> json_result := fun _ => JThrow.

(** A [Date] that parses no timestamp. *)
Definition no_date : value -> option (Z * Z) := fun _ => None.

(** [nginxLog] parsed as the test does, with the selector nginx. *)
Definition parsed_nginxLog : ParsedLog.t :=
  parse_content no_json nginxLog "nginx".

(** The status values of a list of entries. *)
Definition statuses (entries : list object) : list value :=
  map (fun entry => get entry "status") entries.

(** ** [filterByStatus] in the words of the specification *)

(** The status field is present, and a member of the set. *)
Definition status_present_in (statusCodes : list Z) (entry : object) : bool :=
  match own "status" entry with
  | Some v => includes statusCodes v
  | None => false
  end.

(** The status field is a number other than 0 in the set. *)
Definition status_nonzero_in (statusCodes : list Z) (entry : object) : bool :=
  match own "status" entry with
  | Some (VNum n) => negb (n =? 0) && existsb (Z.eqb n) statusCodes
  | _ => false
  end.

(** An Apache log whose one request was answered with the status 000. *)
Definition status000Log : string :=
  dq "10.0.0.7 - - [19/Feb/2026:10:00:05 +0000] 'GET /health HTTP/1.1' 000 0".

(** ** [aggregateByField] in the words of the specification *)

(** The key under which the source counts an entry. *)
Definition bucket (field : string) (entry : object) : string :=
  ToString (or_else (get entry field) (VStr "unknown")).

(** The key of an entry when presence decides: the stringified value of a
    field the entry has, [unknown] for an entry without the field. *)
Definition bucket_if_present (field : string) (entry : object) : string :=
  match own field entry with
  | Some v => ToString v
  | None => "unknown"
  end.

(** The key of an entry when truthiness decides: the stringified value read
    from the entry when it is truthy, [unknown] when the field is missing or
    holds 0, false, null or the empty string. *)
Definition bucket_if_truthy (field : string) (entry : object) : string :=
  let v := get entry field in
  if truthy v then ToString v else "unknown".

(** How often [key] occurs in a list of keys. *)
Definition occurrences (key : string) (l : list string) : Z :=
  Z.of_nat (List.length (filter (String.eqb key) l)).

(** The key of an entry for a field name [Object.prototype] does not
    define, where a read finds the entry's own property or nothing: the
    stringified value of the own property when it is truthy, [unknown] when
    the entry has no such property or it holds a falsy value. *)
Definition bucket_if_own_truthy (field : string) (entry : object) : string :=
  match own field entry with
  | Some v => if truthy v then ToString v else "unknown"
  | None => "unknown"
  end.

(** A count as a table holds it: no property for 0. *)
Definition tallied (n : Z) : option value :=
  if n =? 0 then None else Some (VNum n).

(** The table holds, under every key, the number of entries of that key. *)
Definition counts_by (key_of : object -> string) (entries : list object)
    (counts : object) : Prop :=
  forall key, own key counts = tallied (occurrences key (map key_of entries)).

(** A key that names a property of [Object.prototype]. *)
Definition inherited (key : string) : bool := mem key object_prototype_names.

(** The sum of the counts of a table. *)
Fixpoint sum_counts (counts : object) : Z :=
  match counts with
  | [] => 0
  | (_, VNum n) :: counts' => n + sum_counts counts'
  | _ :: counts' => sum_counts counts'
  end.

(** The keys of a list in the order of their first occurrence. *)
Definition first_seen (l : list string) : list string :=
  fold_left (fun seen k => set_add k seen) l [].

(** The table of a list of keys: one property per distinct key, in the order
    of first occurrence, holding the number of occurrences. *)
Definition tally (l : list string) : object :=
  map (fun k => (k, VNum (occurrences k l))) (first_seen l).

(** ** [topPaths] in the words of the specification *)

(** A key that is neither an array index nor the name of a property of
    [Object.prototype]. *)
Definition plain_key (key : string) : bool :=
  negb (inherited key)
  && match array_index key with Some _ => false | None => true end.

(** The count of a pair of a table. *)
Definition count_of (p : string * value) : Z :=
  match snd p with VNum n => n | _ => 0 end.

(** [sorted] is [table] in descending order of count, the pairs of equal
    count in the order they have in [table]. *)
Definition descending_stable (sorted table : list (string * value)) : Prop :=
  Permutation sorted table
  /\ StronglySorted (fun a b => count_of b <= count_of a) sorted
  /\ forall n,
       filter (fun p => count_of p =? n) sorted
       = filter (fun p => count_of p =? n) table.

(** An nginx log of one malformed request whose target is [__proto__]. *)
Definition protoPathLog : string :=
  dq "10.0.0.7 - - [19/Feb/2026:10:00:06 +0000] 'GET __proto__ HTTP/1.1' 400 150 '-' '-'".

(** An nginx log of five malformed requests whose targets are 20, 10, 20,
    10 and 7. *)
Definition numericPathsLog : string :=
  join (String LF EmptyString)
    (map dq
       [ "10.0.0.7 - - [19/Feb/2026:10:00:00 +0000] 'GET 20 HTTP/1.1' 400 150 '-' '-'";
         "10.0.0.7 - - [19/Feb/2026:10:00:01 +0000] 'GET 10 HTTP/1.1' 400 150 '-' '-'";
         "10.0.0.7 - - [19/Feb/2026:10:00:02 +0000] 'GET 20 HTTP/1.1' 400 150 '-' '-'";
         "10.0.0.7 - - [19/Feb/2026:10:00:03 +0000] 'GET 10 HTTP/1.1' 400 150 '-' '-'";
         "10.0.0.7 - - [19/Feb/2026:10:00:04 +0000] 'GET 7 HTTP/1.1' 400 150 '-' '-'" ]).

(** An nginx log whose targets are /b, /a, /b, /a and /c. *)
Definition tiedPathsLog : string :=
  join (String LF EmptyString)
    (map dq
       [ "10.0.0.7 - - [19/Feb/2026:10:00:00 +0000] 'GET /b HTTP/1.1' 200 150 '-' '-'";
         "10.0.0.7 - - [19/Feb/2026:10:00:01 +0000] 'GET /a HTTP/1.1' 200 150 '-' '-'";
         "10.0.0.7 - - [19/Feb/2026:10:00:02 +0000] 'GET /b HTTP/1.1' 200 150 '-' '-'";
         "10.0.0.7 - - [19/Feb/2026:10:00:03 +0000] 'GET /a HTTP/1.1' 200 150 '-' '-'";
         "10.0.0.7 - - [19/Feb/2026:10:00:04 +0000] 'GET /c HTTP/1.1' 200 150 '-' '-'" ]).

(** ** [filterEntries] in the words of the specification *)

(** The test of one entry against the field when one is given, against the
    serialized entry when none is; an entry whose field reads [undefined] or
    [null] fails. *)
Definition matches_field (test : string -> bool) (f : string) (entry : object)
    : bool :=
  match get entry f with
  | VUndef | VNull => false
  | v => test (ToString v)
  end.

Definition matches_as_stated (test : string -> bool) (field : option string)
    (entry : object) : bool :=
  match field with
  | Some f => matches_field test f entry
  | None => test (JSON_stringify entry)
  end.

(** The same, an empty field name counting as no field. *)
Definition matches (test : string -> bool) (field : option string)
    (entry : object) : bool :=
  match field with
  | Some EmptyString | None => test (JSON_stringify entry)
  | Some f => matches_field test f entry
  end.

(** A regular-expression engine for plain words: a pattern made of letters
    and digits matches, under the flag [i], the strings that contain it up to
    the case of the letters; an opening parenthesis alone does not compile. *)
Definition lower (c : ascii) : ascii :=
  let n := nat_of_ascii c in
  if (65 <=? n)%nat && (n <=? 90)%nat then ascii_of_nat (n + 32) else c.

Fixpoint lowercase (s : string) : string :=
  match s with
  | EmptyString => EmptyString
  | String c s' => String (lower c) (lowercase s')
  end.

Fixpoint contains (word s : string) : bool :=
  String.prefix word s
  || match s with
     | EmptyString => false
     | String _ s' => contains word s'
     end.

Definition word_compile (pattern : string) : option string :=
  if String.eqb pattern "(" then None else Some (lowercase pattern).

Definition word_test (word s : string) : bool := contains word (lowercase s).

(** The entries the JSON log of the tests parses to, level and message
    only. *)
Definition jsonEntries : list object :=
  [ [("level", VStr "info"); ("message", VStr "Server started")];
    [("level", VStr "info"); ("message", VStr "Request received")];
    [("level", VStr "error"); ("message", VStr "Database connection failed")];
    [("level", VStr "info"); ("message", VStr "Request received")];
    [("level", VStr "warn"); ("message", VStr "High memory usage")] ].

(** A table all of whose counts are positive numbers. *)
Definition positive_counts (counts : object) : Prop :=
  Forall (fun p => exists n, snd p = VNum n /\ 0 < n) counts.

(** ** The groups of a match *)

(** What a quantifier says of the length of the text it took. *)
Definition quantity (q : quantifier) (text : string) : Prop :=
  match q with
  | Plus => (0 < String.length text)%nat
  | Exactly n => String.length text = n
  | LazyStar => True
  end.

(** [groups] holds, in order, one text per captured repetition of [r], made
    of code units of the class and of a length the quantifier allows. *)
Fixpoint groups_of (r : regex) (groups : list string) : Prop :=
  match r with
  | [] => groups = []
  | Lit _ :: r' => groups_of r' groups
  | Rep false _ _ :: r' => groups_of r' groups
  | Rep true q class :: r' =>
      match groups with
      | text :: groups' =>
          all_in class text = true /\ quantity q text /\ groups_of r' groups'
      | [] => False
      end
  end.

(** What a repetition hands on: the text it took, and the groups of the rest
    of the pattern on some remainder. *)
Definition taken (class : ascii -> bool) (captured : bool)
    (rest : string -> option (list string)) (groups : list string)
    (P : string -> Prop) : Prop :=
  exists text s' groups',
    rest s' = Some groups'
    /\ groups = (if captured then text :: groups' else groups')
    /\ all_in class text = true /\ P text.


(** ** The order of the keys of a table *)

Definition is_index (key : string) : bool :=
  match array_index key with Some _ => true | None => false end.

Definition index_value (key : string) : Z :=
  match array_index key with Some i => i | None => 0 end.

(** [insert_index] on the keys alone. *)
Fixpoint insert_key (i : Z) (k : string) (ks : list string) : list string :=
  match ks with
  | [] => [k]
  | k' :: ks' =>
      match array_index k' with
      | Some j => if j <? i then k' :: insert_key i k ks' else k :: ks
      | None => k :: ks
      end
  end.

(** [ks] enumerates the distinct keys of [l] as an object does: the array
    indices first, in ascending order of their value, then the other keys in
    the order of their first occurrence in [l]. *)
Definition enumerates (ks l : list string) : Prop :=
  exists indices,
    ks = indices ++ filter (fun k => negb (is_index k)) (first_seen l)
    /\ Permutation indices (filter is_index (first_seen l))
    /\ StronglySorted (fun a b => index_value a < index_value b) indices.

(** The pair of a key of the table of [l]. *)
Definition counted (l : list string) (k : string) : string * value :=
  (k, VNum (occurrences k l)).

(** ** Lines of the two access-log formats *)

(** The text a match is made of: the literals of the pattern with the
    captured groups in between, for a pattern every repetition of which is
    captured. *)
Fixpoint assemble (r : regex) (groups : list string) : string :=
  match r with
  | [] => EmptyString
  | Lit c :: r' => String c (assemble r' groups)
  | Rep _ _ _ :: r' =>
      match groups with
      | text :: groups' => (text ++ assemble r' groups')%string
      | [] => assemble r' []
      end
  end.

Fixpoint all_captured (r : regex) : bool :=
  match r with
  | [] => true
  | Lit _ :: r' => all_captured r'
  | Rep captured _ _ :: r' => captured && all_captured r'
  end.

(** The pattern without its groups. *)
Fixpoint uncapture (r : regex) : regex :=
  match r with
  | [] => []
  | Lit c :: r' => Lit c :: uncapture r'
  | Rep _ q class :: r' => Rep false q class :: uncapture r'
  end.

Definition quoted (s : string) : string :=
  String DQUOTE (s ++ String DQUOTE EmptyString).

(** A line of the Apache format of the source, from the texts of its nine
    fields. *)
Definition apache_line
    (ip identity user timestamp method path protocol status size : string)
    : string :=
  (ip ++ " " ++ identity ++ " " ++ user ++ " [" ++ timestamp ++ "] "
   ++ quoted (method ++ " " ++ path ++ " " ++ protocol)
   ++ " " ++ status ++ " " ++ size)%string.

(** A line of the nginx format: the same with the two quoted fields. *)
Definition nginx_line
    (ip identity user timestamp method path protocol status size
     referer userAgent : string) : string :=
  (apache_line ip identity user timestamp method path protocol status size
   ++ " " ++ quoted referer ++ " " ++ quoted userAgent)%string.

(** A token: a non-empty run of code units that are no white space. *)
Definition token (s : string) : Prop :=
  all_in non_space s = true /\ s <> EmptyString.

(** A run of [n] digits, and a non-empty run of digits. *)
Definition digits (s : string) : Prop :=
  all_digits s = true /\ s <> EmptyString.

(** The text of a quoted field that the lazy group reads back whole: no
    double quote and no line terminator in it. *)
Definition unquoted (s : string) : Prop :=
  all_in (fun c => dot c && negb (Ascii.eqb c DQUOTE)) s = true.

(** The last code unit of a string. *)
Fixpoint last_unit (s : string) : option ascii :=
  match s with
  | EmptyString => None
  | String c EmptyString => Some c
  | String _ s' => last_unit s'
  end.

(** The constraints the nine fields of an accepted line meet. *)
Definition apache_fields
    (ip identity user timestamp method path protocol status size : string)
    : Prop :=
  token ip /\ token identity /\ token user
  /\ (all_in not_closing_bracket timestamp = true /\ timestamp <> EmptyString)
  /\ token method /\ token path /\ token protocol
  /\ (all_digits status = true /\ String.length status = 3%nat)
  /\ digits size.

(** The record [parseApacheLine] makes of the texts of the fields. *)
Definition apache_record
    (ip identity user timestamp method path protocol status size : string)
    : object :=
  [ ("ip", VStr ip); ("identity", VStr identity); ("user", VStr user);
    ("timestamp", VStr timestamp); ("method", VStr method);
    ("path", VStr path); ("protocol", VStr protocol);
    ("status", number status); ("size", number size) ].

(** The record [parseNginxLine] makes of the texts of the fields. *)
Definition nginx_record
    (ip identity user timestamp method path protocol status size
     referer userAgent : string) : object :=
  apache_record ip identity user timestamp method path protocol status size
  ++ [ ("referer", or_else (VStr referer) (VStr "-"));
       ("userAgent", or_else (VStr userAgent) (VStr "-")) ].

(** No repetition of [class] before [rest] can start at [s]. *)
Definition stops (class : ascii -> bool)
    (rest : string -> option (list string)) (s : string) : Prop :=
  forall seen, greedy_plus class true rest s seen = None.

(** [Some _] read as success alone. *)
Definition succeeded (r : option (list string)) : option (list string) :=
  match r with Some _ => Some [] | None => None end.

(** The four formats a parsed log can carry. *)
Definition formats : list string := ["json"; "nginx"; "apache"; "text"].

(** * The command line: [src/unnamed/part_000] *)

(** ** [parseInt] on any text *)

Definition is_hex_digit (c : ascii) : bool :=
  let n := nat_of_ascii c in
  is_digit c
  || ((97 <=? n)%nat && (n <=? 102)%nat)
  || ((65 <=? n)%nat && (n <=? 70)%nat).

Definition hex_digit_value (c : ascii) : Z :=
  let n := Z.of_nat (nat_of_ascii c) in
  if is_digit c then n - 48 else if 97 <=? n then n - 87 else n - 55.

Fixpoint hex_value (acc : Z) (s : string) : Z :=
  match s with
  | EmptyString => acc
  | String c s' => hex_value (16 * acc + hex_digit_value c) s'
  end.

(** The longest prefix of [s] made of code units of the class. *)
Fixpoint prefix_in (class : ascii -> bool) (s : string) : string :=
  match s with
  | EmptyString => EmptyString
  | String c s' => if class c then String c (prefix_in class s') else EmptyString
  end.

(** The digits [parseInt] reads and their value: [None], for [NaN], when
    there is none. *)
Definition leading_number (class : ascii -> bool) (value : Z -> string -> Z)
    (s : string) : option Z :=
  match prefix_in class s with
  | EmptyString => None
  | z => Some (value 0 z)
  end.

(** [parseInt] after the sign: radix 16 behind the prefix [0x] or [0X],
    radix 10 otherwise. *)
Definition parseInt_magnitude (s : string) : option Z :=
  match s with
  | String "0" (String x s') =>
      if Ascii.eqb x "x" || Ascii.eqb x "X"
      then leading_number is_hex_digit hex_value s'
      else leading_number is_digit digits_value s
  | _ => leading_number is_digit digits_value s
  end.

(** [parseInt(s)] with no radix: leading white space is skipped, a sign is
    read, then the longest run of digits; what follows the digits is
    ignored.  As for [parseInt] above, the result is the integer the digits
    spell, the number of the source up to 2^53 - 1 in magnitude. *)
Definition parseInt_text (s : string) : option Z :=
  match trimStart s with
  | String "-" s' => option_map Z.opp (parseInt_magnitude s')
  | String "+" s' => parseInt_magnitude s'
  | s' => parseInt_magnitude s'
  end.

(** ** The time tables of [calculateTimeStats] *)

(** The local hour and minute the source reads from an entry: none for an
    entry whose timestamp is missing or falsy, or is one [Date] cannot
    read. *)
Definition clock (Date_local : value -> option (Z * Z)) (entry : object)
    : option (Z * Z) :=
  if truthy (get entry "timestamp") then Date_local (get entry "timestamp")
  else None.

Fixpoint clocks (Date_local : value -> option (Z * Z)) (entries : list object)
    : list (Z * Z) :=
  match entries with
  | [] => []
  | entry :: entries' =>
      match clock Date_local entry with
      | Some t => t :: clocks Date_local entries'
      | None => clocks Date_local entries'
      end
  end.

(** The key of the minute table for the local time [h]:[m]. *)
Definition minute_key (h m : Z) : string :=
  (string_of_Z h ++ ":" ++ padStart2 (string_of_Z m))%string.

Definition timed (Date_local : value -> option (Z * Z)) (entry : object)
    : bool :=
  match clock Date_local entry with Some _ => true | None => false end.

Definition at_hour (Date_local : value -> option (Z * Z)) (h : Z)
    (entry : object) : bool :=
  match clock Date_local entry with
  | Some (h', _) => h' =? h
  | None => false
  end.

Definition at_minute (Date_local : value -> option (Z * Z)) (h m : Z)
    (entry : object) : bool :=
  match clock Date_local entry with
  | Some (h', m') => (h' =? h) && (m' =? m)
  | None => false
  end.

(** The number of elements of [l] that satisfy [p]. *)
Definition count {A : Type} (p : A -> bool) (l : list A) : Z :=
  Z.of_nat (List.length (filter p l)).

(** ** The status table and the status filter *)

(** The count a table holds under [key]: 0 when it has no such property. *)
Definition table_count (key : string) (counts : object) : Z :=
  match own key counts with Some (VNum n) => n | _ => 0 end.

(** The total of the counts a table holds under the numerals of the
    codes. *)
Definition total_under (statusCodes : list Z) (counts : object) : Z :=
  fold_right (fun c total => table_count (string_of_Z c) counts + total)
    0 statusCodes.

(** [Number.isSafeInteger]: the integers a number of the source holds
    exactly.  [parseInt] reads their decimal numerals without rounding, and
    [String] prints them as those numerals (exponent notation starts at
    10^21). *)
Definition safe_integer (n : Z) : bool :=
  (-9007199254740991 <=? n) && (n <=? 9007199254740991).

(** The entry has no status, or its status is a safe integer. *)
Definition status_is_safe (entry : object) : bool :=
  match get entry "status" with
  | VUndef => true
  | VNum n => safe_integer n
  | _ => false
  end.

(** ** The summary *)

(** The key is set. *)
Definition present {A : Type} (o : option A) : bool :=
  match o with Some _ => true | None => false end.

Definition is_empty {A : Type} (l : list A) : bool :=
  match l with [] => true | _ => false end.

(** The summary of a log none of whose entries has a field read by the
    status, path and time sections. *)
Definition plain_summary (format : string) (entries : nat)
    (fields : list string) : Summary.t :=
  Summary.make format entries fields None None None None None None
    (Some (TimeStats.make [] [])).

(** ** The option [--status] *)

(** [parseInt(s)] as a value. *)
Definition parsed_number (s : string) : value :=
  match parseInt_text s with Some n => VNum n | None => VNaN end.

(** [codes.split(',').map(s => parseInt(s.trim()))] *)
Definition status_option (codes : string) : list value :=
  map (fun s => parsed_number (trim s)) (split "," codes).

(** The comparison of [Array.prototype.includes]: strict equality, but
    [NaN] equal to itself. *)
Definition same_value_zero (a b : value) : bool :=
  match a, b with
  | VUndef, VUndef | VNull, VNull | VNaN, VNaN => true
  | VObjectPrototype, VObjectPrototype => true
  | VBool x, VBool y => Bool.eqb x y
  | VNum x, VNum y => x =? y
  | VStr x, VStr y => String.eqb x y
  | VFun x, VFun y => String.eqb x y
  | _, _ => false
  end.

(** [array.includes(v)] *)
Definition Array_includes (array : list value) (v : value) : bool :=
  existsb (same_value_zero v) array.

(** [filterByStatus] called with an array of any values, as the command
    line calls it. *)
Definition filterByStatus_values (entries : list object)
    (statusCodes : list value) : list object :=
  filter (fun entry =>
            truthy (get entry "status")
            && Array_includes statusCodes (get entry "status"))
         entries.

(** The step [if (options.status) { ... }] of the commands analyze and
    export; [None] is the option left out. *)
Definition status_step (status : option string) (entries : list object)
    : list object :=
  match status with
  | Some codes =>
      if truthy (VStr codes)
      then filterByStatus_values entries (status_option codes)
      else entries
  | None => entries
  end.

(** The integers of an array. *)
Definition integers (array : list value) : list Z :=
  flat_map (fun v => match v with VNum n => [n] | _ => [] end) array.

(** An item of the option as it is typed: the decimal numeral of a code
    between two runs of white space. *)
Definition item_text (item : string * Z * string) : string :=
  match item with
  | (before, code, after) => (before ++ string_of_Z code ++ after)%string
  end.

Definition item_code (item : string * Z * string) : Z := snd (fst item).

Definition item_spaced (item : string * Z * string) : bool :=
  blank (fst (fst item)) && blank (snd item).

(** ** The export to CSV *)

(** [s.includes(c)] for one code unit. *)
Fixpoint includes_unit (s : string) (c : ascii) : bool :=
  match s with
  | EmptyString => false
  | String x s' => Ascii.eqb x c || includes_unit s' c
  end.

(** The text of a cell: empty for [undefined] and [null], [String(val)]
    otherwise. *)
Definition csv_text (entry : object) (h : string) : string :=
  match get entry h with
  | VUndef | VNull => EmptyString
  | val => ToString val
  end.

Definition csv_cell (entry : object) (h : string) : string :=
  let str := csv_text entry h in
  if includes_unit str "," then quoted str else str.

Definition csv_row (headers : list string) (entry : object) : string :=
  join "," (map (csv_cell entry) headers).

(** The content the command export writes for the format csv; [None] when
    there is no entry, and nothing is written. *)
Definition csv_content (entries : list object) : option string :=
  match entries with
  | [] => None
  | first :: _ =>
      let headers := keys first in
      Some (join "," headers ++ String LF EmptyString
            ++ join (String LF EmptyString) (map (csv_row headers) entries))%string
  end.

(** A text that holds neither a comma nor a line feed. *)
Definition csv_plain (s : string) : bool :=
  all_in (fun c => negb (Ascii.eqb c ",") && negb (Ascii.eqb c LF)) s.

(** * Facts about strings and lists *)

Lemma trimStart_empty (s : string) : trimStart s = EmptyString <-> blank s = true.
Proof.
  induction s as [|c s IH]; simpl.
  - tauto.
  - destruct (is_white_space c); simpl.
    + exact IH.
    + split; discriminate.
Qed.

Lemma trimEnd_empty (s : string) : trimEnd s = EmptyString <-> blank s = true.
Proof.
  induction s as [|c s IH]; simpl.
  - tauto.
  - destruct (trimEnd s) eqn:E.
    + destruct (is_white_space c); simpl.
      * tauto.
      * split; discriminate.
    + split; [discriminate|].
      intros H. apply andb_true_iff in H. destruct H as [_ H].
      apply IH in H. discriminate.
Qed.

Lemma blank_trimStart (s : string) : blank (trimStart s) = blank s.
Proof.
  induction s as [|c s IH]; simpl; [reflexivity|].
  destruct (is_white_space c) eqn:E; simpl; [exact IH|].
  rewrite E. reflexivity.
Qed.

(** [l.trim()] is truthy exactly when [l] is not blank. *)
Lemma trim_truthy (l : string) : truthy (VStr (trim l)) = negb (blank l).
Proof.
  unfold truthy, trim. f_equal.
  destruct (blank l) eqn:B.
  - rewrite <- blank_trimStart in B. apply trimEnd_empty in B.
    rewrite B. reflexivity.
  - destruct (String.eqb_spec (trimEnd (trimStart l)) EmptyString) as [E|E];
      [|reflexivity].
    apply trimEnd_empty in E. rewrite blank_trimStart in E. congruence.
Qed.

Lemma non_blank_lines_spec (content : string) :
  non_blank_lines content = filter (fun l => negb (blank l)) (lines_of content).
Proof.
  unfold non_blank_lines, lines_of. apply filter_ext. intros l. apply trim_truthy.
Qed.

Lemma hd_filter_find {A : Type} (p : A -> bool) (l : list A) :
  hd_error (filter p l) = find p l.
Proof.
  induction l as [|x l IH]; simpl; [reflexivity|].
  destruct (p x); simpl; [reflexivity|exact IH].
Qed.

Lemma Forall_of_forallb {A : Type} (f : A -> bool) (l : list A) :
  forallb f l = true -> Forall (fun x => f x = true) l.
Proof.
  intros H. apply Forall_forall. apply forallb_forall. exact H.
Qed.

Lemma subsequence_refl {A : Type} (l : list A) : subsequence l l.
Proof. induction l; constructor; assumption. Qed.

Lemma subsequence_filter {A : Type} (p : A -> bool) (l : list A) :
  subsequence (filter p l) l.
Proof.
  induction l as [|x l IH]; simpl; [constructor|].
  destruct (p x); constructor; assumption.
Qed.

Lemma subsequence_length {A : Type} (l1 l2 : list A) :
  subsequence l1 l2 -> (List.length l1 <= List.length l2)%nat.
Proof. induction 1; simpl; lia. Qed.

Lemma not_null_length (l : list (option object)) :
  (List.length (not_null l) <= List.length l)%nat.
Proof.
  induction l as [|[o|] l IH]; simpl; lia.
Qed.

(** The entries [not_null] keeps are the results of a subsequence of the
    lines. *)
Lemma not_null_map_lines (f : string -> option object) (lines : list string) :
  exists kept,
    subsequence kept lines /\
    Forall2 (fun line entry => f line = Some entry) kept (not_null (map f lines)).
Proof.
  induction lines as [|l lines (kept & Hs & Hf)]; simpl.
  - exists []. split; constructor.
  - destruct (f l) as [o|] eqn:E.
    + exists (l :: kept). split; constructor; assumption.
    + exists kept. split; [constructor|]; assumption.
Qed.

Lemma not_null_map_Some {A : Type} (f : A -> object) (l : list A) :
  not_null (map (fun x => Some (f x)) l) = map f l.
Proof. induction l; simpl; congruence. Qed.

(** * [parseLogFile] *)

Lemma parse_content_counts
    (JSON_parse : string -> json_result) (content format : string) :
  let parsed := parse_content JSON_parse content format in
  let lines := filter (fun l => negb (blank l)) (lines_of content) in
  (ParsedLog.parsedEntries parsed <= ParsedLog.totalLines parsed)%nat
  /\ ParsedLog.totalLines parsed = List.length lines
  /\ ParsedLog.parsedEntries parsed = List.length (ParsedLog.entries parsed)
  /\ exists kept,
       subsequence kept lines
       /\ Forall2
            (fun line entry =>
               parse_line JSON_parse (ParsedLog.format parsed) line = Some entry)
            kept (ParsedLog.entries parsed).
Proof.
  unfold parse_content. cbn zeta. simpl.
  rewrite non_blank_lines_spec.
  set (fmt := if String.eqb format "auto" then _ else _).
  repeat split.
  - etransitivity; [apply not_null_length|]. rewrite length_map. reflexivity.
  - apply not_null_map_lines.
Qed.

(** C4. For every file content and every format selector, the parsed log
    [parseLogFile] returns has [parsedEntries <= totalLines]; [totalLines] is
    the number of lines of the content that are not blank; [parsedEntries] is
    the length of [entries]; and the entries are the records parsed from a
    subsequence of the non-blank lines, in the order of the lines.  Nothing
    is returned only when the file cannot be read. *)
Theorem parseLogFile_counts
    (JSON_parse : string -> json_result)
    (readFileSync : string -> option string)
    (filePath format : string) :
  match readFileSync filePath with
  | None => parseLogFile JSON_parse readFileSync filePath format = None
  | Some content =>
      exists parsed,
        parseLogFile JSON_parse readFileSync filePath format = Some parsed
        /\ (ParsedLog.parsedEntries parsed <= ParsedLog.totalLines parsed)%nat
        /\ ParsedLog.totalLines parsed
           = List.length (filter (fun l => negb (blank l)) (lines_of content))
        /\ ParsedLog.parsedEntries parsed
           = List.length (ParsedLog.entries parsed)
        /\ exists kept,
             subsequence kept
               (filter (fun l => negb (blank l)) (lines_of content))
             /\ Forall2
                  (fun line entry =>
                     parse_line JSON_parse (ParsedLog.format parsed) line
                     = Some entry)
                  kept (ParsedLog.entries parsed)
  end.
Proof.
  unfold parseLogFile. destruct (readFileSync filePath) as [content|];
    [|reflexivity].
  exists (parse_content JSON_parse content format).
  split; [reflexivity|]. apply parse_content_counts.
Qed.

(** C10. A selector that is none of json, nginx, apache, text and auto is
    handled as text is: reading the file is the only failure; every
    non-blank line becomes the record [{raw: line}], one record per non-blank
    line, so [parsedEntries = totalLines]; entries and counts are those the
    text selector gives.  (The [format] of the result is the selector as it
    was given.) *)
Theorem unknown_selector_is_text
    (JSON_parse : string -> json_result)
    (readFileSync : string -> option string)
    (filePath selector : string) :
  ~ In selector known_selectors ->
  (parseLogFile JSON_parse readFileSync filePath selector = None
   <-> readFileSync filePath = None)
  /\ forall content, readFileSync filePath = Some content ->
     exists parsed astext,
       parseLogFile JSON_parse readFileSync filePath selector = Some parsed
       /\ parseLogFile JSON_parse readFileSync filePath "text" = Some astext
       /\ ParsedLog.format parsed = selector
       /\ ParsedLog.entries parsed
          = map raw_record (filter (fun l => negb (blank l)) (lines_of content))
       /\ ParsedLog.parsedEntries parsed = ParsedLog.totalLines parsed
       /\ ParsedLog.entries parsed = ParsedLog.entries astext
       /\ ParsedLog.totalLines parsed = ParsedLog.totalLines astext
       /\ ParsedLog.parsedEntries parsed = ParsedLog.parsedEntries astext.
Proof.
  intros Hsel. unfold parseLogFile.
  assert (Hraw : forall line, parse_line JSON_parse selector line
                              = Some (raw_record line)).
  { intros line. unfold parse_line, known_selectors in *. simpl in Hsel.
    destruct (String.eqb_spec selector "nginx"); [intuition congruence|].
    destruct (String.eqb_spec selector "apache"); [intuition congruence|].
    destruct (String.eqb_spec selector "json"); [intuition congruence|].
    reflexivity. }
  assert (Hauto : String.eqb selector "auto" = false).
  { apply String.eqb_neq. intros ->. apply Hsel. simpl. tauto. }
  split.
  - destruct (readFileSync filePath); split; congruence.
  - intros content ->. eexists. eexists.
    split; [reflexivity|]. split; [reflexivity|].
    unfold parse_content. rewrite Hauto. simpl.
    rewrite non_blank_lines_spec.
    rewrite (map_ext _ _ Hraw).
    rewrite !(not_null_map_Some raw_record), !length_map.
    repeat split; reflexivity.
Qed.

(** C10 at a file of three lines, one of them blank, read with the selector
    [syslog]. *)
Lemma unknown_selector_is_text_witness :
  let fs := fun _ : string => Some (String "a" (String LF (String " " (String LF "b")))) in
  ~ In "syslog" known_selectors
  /\ exists parsed,
       parseLogFile (fun _ => JThrow) fs "app.log" "syslog" = Some parsed
       /\ ParsedLog.entries parsed = [raw_record "a"; raw_record "b"]
       /\ ParsedLog.parsedEntries parsed = ParsedLog.totalLines parsed.
Proof.
  intros fs.
  assert (H : ~ In "syslog" known_selectors).
  { simpl. intros [H|[H|[H|[H|[H|[]]]]]]; discriminate H. }
  split; [exact H|].
  destruct (unknown_selector_is_text (fun _ => JThrow) fs "app.log" "syslog" H)
    as [_ Hall].
  destruct (Hall _ eq_refl) as (parsed & astext & Hp & _ & _ & He & Hn & _).
  exists parsed. split; [exact Hp|]. split; [exact He|exact Hn].
Defined.

(** * [detectFormat] *)

Lemma detectFormat_classify (JSON_parse : string -> json_result) (content : string) :
  detectFormat JSON_parse content
  = match first_non_blank_line content with
    | Some line => classify_line JSON_parse line
    | None => "text"
    end.
Proof.
  unfold detectFormat, first_non_blank_line, classify_line.
  rewrite non_blank_lines_spec, <- hd_filter_find.
  destruct (filter _ (lines_of content)) as [|firstLine rest]; simpl;
    [reflexivity|].
  destruct (JSON_parse firstLine); reflexivity.
Qed.

(** C6. [detectFormat] is a function of the first non-blank line of the
    content: two contents with the same first non-blank line get the same
    format; a content without a non-blank line is text; otherwise the first
    non-blank line is tried as JSON, then against the nginx pattern, then
    against the Apache pattern, and is text when all three fail. *)
Theorem detectFormat_first_line (JSON_parse : string -> json_result) :
  (forall c1 c2,
     first_non_blank_line c1 = first_non_blank_line c2 ->
     detectFormat JSON_parse c1 = detectFormat JSON_parse c2)
  /\ (forall c,
        first_non_blank_line c = None -> detectFormat JSON_parse c = "text")
  /\ (forall c line,
        first_non_blank_line c = Some line ->
        detectFormat JSON_parse c
        = match JSON_parse line with
          | JThrow =>
              if test nginxPattern line then "nginx"
              else if test apachePattern line then "apache"
              else "text"
          | _ => "json"
          end).
Proof.
  repeat split.
  - intros c1 c2 H. rewrite !detectFormat_classify, H. reflexivity.
  - intros c H. rewrite detectFormat_classify, H. reflexivity.
  - intros c line H. rewrite detectFormat_classify, H. reflexivity.
Qed.

(** * [generateSummary] on an empty log *)

(** C8. On a parsed log without entries the summary holds [format],
    [totalEntries = 0] and [fieldsDetected = []] and no other key, whatever
    the format and whatever [Date] would answer. *)
Theorem generateSummary_empty
    (Date_local : value -> option (Z * Z))
    (format : string) (totalLines parsedEntries : nat) :
  generateSummary Date_local (ParsedLog.make format [] totalLines parsedEntries)
  = Summary.make format 0 [] None None None None None None None.
Proof. reflexivity. Qed.

(** C6 at the nginx log of the tests and at the same log behind two blank
    lines and with its tail cut off. *)
Lemma detectFormat_first_line_witness :
  let c1 := nginxLog in
  let c2 := (String LF (String " " (String LF
               (match lines_of nginxLog with l :: _ => l | [] => EmptyString end))))%string in
  first_non_blank_line c1 = first_non_blank_line c2
  /\ detectFormat no_json c1 = detectFormat no_json c2
  /\ detectFormat no_json c1 = "nginx"
  /\ detectFormat no_json EmptyString = "text".
Proof.
  intros c1 c2.
  destruct (detectFormat_first_line no_json) as (Hsame & Hnone & Hsome).
  assert (E : first_non_blank_line c1 = first_non_blank_line c2)
    by (vm_compute; reflexivity).
  split; [exact E|]. split; [exact (Hsame c1 c2 E)|]. split.
  - rewrite (Hsome c1 _ eq_refl). vm_compute. reflexivity.
  - apply Hnone. reflexivity.
Defined.

(** * [generateSummary] on the five statuses of the tests *)

Lemma statuses_five (entries : list object) (a b c d e : value) :
  statuses entries = [a; b; c; d; e] ->
  exists e1 e2 e3 e4 e5,
    entries = [e1; e2; e3; e4; e5]
    /\ get e1 "status" = a /\ get e2 "status" = b /\ get e3 "status" = c
    /\ get e4 "status" = d /\ get e5 "status" = e.
Proof.
  unfold statuses. intros H.
  destruct entries as [|e1 [|e2 [|e3 [|e4 [|e5 [|e6 rest]]]]]]; try discriminate H.
  injection H as H1 H2 H3 H4 H5.
  exists e1, e2, e3, e4, e5. repeat split; assumption.
Qed.

(** C1, amended. For a parsed nginx log of 5 entries whose status values
    are 200, 200, 404, 500 and 403, the summary has the status counts
    200: 2, 403: 1, 404: 1, 500: 1, three errors, two client errors, one
    server error, and the error rate 3/5, printed [60.00%]. *)
Theorem generateSummary_five_statuses
    (Date_local : value -> option (Z * Z))
    (entries : list object) (totalLines parsedEntries : nat) :
  statuses entries = [VNum 200; VNum 200; VNum 404; VNum 500; VNum 403] ->
  let summary :=
    generateSummary Date_local
      (ParsedLog.make "nginx" entries totalLines parsedEntries) in
  Summary.statusCounts summary
  = Some [("200", VNum 2); ("403", VNum 1); ("404", VNum 1); ("500", VNum 1)]
  /\ Summary.errorCount summary = Some 3%nat
  /\ Summary.clientErrors summary = Some 2%nat
  /\ Summary.serverErrors summary = Some 1%nat
  /\ Summary.errorRate summary = Some "60.00%".
Proof.
  intros H summary.
  destruct (statuses_five _ _ _ _ _ _ H)
    as (e1 & e2 & e3 & e4 & e5 & -> & H1 & H2 & H3 & H4 & H5).
  subst summary. unfold generateSummary.
  cbn [ParsedLog.entries ParsedLog.format Summary.statusCounts
       Summary.errorCount Summary.clientErrors Summary.serverErrors
       Summary.errorRate].
  unfold aggregateByField, filterByStatus.
  cbn [fold_left filter].
  rewrite H1, H2, H3, H4, H5.
  repeat split; vm_compute; reflexivity.
Qed.

(** C1, amended, at the nginx log of the tests. *)
Lemma generateSummary_five_statuses_witness :
  statuses (ParsedLog.entries parsed_nginxLog)
  = [VNum 200; VNum 200; VNum 404; VNum 500; VNum 403]
  /\ Summary.errorRate
       (generateSummary no_date
          (ParsedLog.make "nginx" (ParsedLog.entries parsed_nginxLog) 5 5))
     = Some "60.00%".
Proof.
  assert (H : statuses (ParsedLog.entries parsed_nginxLog)
              = [VNum 200; VNum 200; VNum 404; VNum 500; VNum 403])
    by (vm_compute; reflexivity).
  split; [exact H|].
  exact (proj2 (proj2 (proj2 (proj2
    (generateSummary_five_statuses no_date _ 5%nat 5%nat H))))).
Defined.

(** C1 as stated fails: the nginx log of the tests has the five statuses,
    and under no behaviour of [Date] is its error rate [80.00%]. *)
Lemma errorRate_nginxLog_not_80 :
  statuses (ParsedLog.entries parsed_nginxLog)
  = [VNum 200; VNum 200; VNum 404; VNum 500; VNum 403]
  /\ ~ exists Date_local,
         Summary.errorRate (generateSummary Date_local parsed_nginxLog)
         = Some "80.00%".
Proof.
  split; [vm_compute; reflexivity|].
  intros [Date_local H]. vm_compute in H. discriminate H.
Qed.

(** * [filterByStatus] *)

Lemma get_status (entry : object) :
  get entry "status"
  = match own "status" entry with Some v => v | None => VUndef end.
Proof. unfold get. destruct (own "status" entry); reflexivity. Qed.

Lemma filterByStatus_test (statusCodes : list Z) (entry : object) :
  truthy (get entry "status") && includes statusCodes (get entry "status")
  = status_nonzero_in statusCodes entry.
Proof.
  rewrite get_status. unfold status_nonzero_in.
  destruct (own "status" entry) as [[| |b|n| |s|name|]|]; simpl;
    try reflexivity; rewrite andb_false_r; reflexivity.
Qed.

Lemma status_nonzero_in_spec (statusCodes : list Z) (entry : object) :
  status_nonzero_in statusCodes entry = true ->
  exists n, own "status" entry = Some (VNum n) /\ n <> 0 /\ In n statusCodes.
Proof.
  unfold status_nonzero_in.
  destruct (own "status" entry) as [[| |b|n| |s|name|]|]; try discriminate.
  intros H. apply andb_true_iff in H. destruct H as [Hz Hin].
  exists n. split; [reflexivity|]. split.
  - intros ->. discriminate Hz.
  - apply existsb_exists in Hin. destruct Hin as (m & Hm & E).
    apply Z.eqb_eq in E. subst m. exact Hm.
Qed.

(** C2, amended. [filterByStatus] returns exactly the entries, in their
    order, whose status field is a number other than 0 that is a member of
    [statusCodes]: the result is a subsequence of the entries, and each of
    its members has such a status. *)
Theorem filterByStatus_nonzero (entries : list object) (statusCodes : list Z) :
  filterByStatus entries statusCodes
  = filter (status_nonzero_in statusCodes) entries
  /\ subsequence (filterByStatus entries statusCodes) entries
  /\ Forall (fun entry =>
               exists n, own "status" entry = Some (VNum n)
                         /\ n <> 0 /\ In n statusCodes)
       (filterByStatus entries statusCodes).
Proof.
  assert (E : filterByStatus entries statusCodes
              = filter (status_nonzero_in statusCodes) entries).
  { unfold filterByStatus. apply filter_ext. intros entry.
    apply filterByStatus_test. }
  split; [exact E|]. split.
  - unfold filterByStatus. apply subsequence_filter.
  - rewrite E. apply Forall_forall. intros entry H.
    apply filter_In in H. destruct H as [_ H].
    apply status_nonzero_in_spec. exact H.
Qed.

(** C2 as stated fails: the entry parsed from a line with the status 000
    has its status field present and equal to 0, a member of [[0]], and
    [filterByStatus] leaves it out. *)
Lemma filterByStatus_drops_status_zero :
  let entries := ParsedLog.entries (parse_content no_json status000Log "apache") in
  statuses entries = [VNum 0]
  /\ filter (status_present_in [0]) entries = entries
  /\ filterByStatus entries [0] = []
  /\ filterByStatus entries [0] <> filter (status_present_in [0]) entries.
Proof.
  vm_compute. repeat split; try reflexivity. discriminate.
Qed.

(** * Plain objects *)

Lemma own_replace_same (k : string) (v : value) (o : object) :
  own k o <> None -> own k (replace k v o) = Some v.
Proof.
  induction o as [|[k' v'] o IH]; simpl; [congruence|].
  destruct (String.eqb_spec k k') as [->|N]; simpl.
  - rewrite String.eqb_refl. reflexivity.
  - destruct (String.eqb_spec k k'); [contradiction|]. exact IH.
Qed.

Lemma own_replace_other (k k' : string) (v : value) (o : object) :
  k <> k' -> own k (replace k' v o) = own k o.
Proof.
  intros N. induction o as [|[k2 v2] o IH]; simpl; [reflexivity|].
  destruct (String.eqb_spec k' k2) as [->|N2]; simpl.
  - destruct (String.eqb_spec k k2); [contradiction|reflexivity].
  - rewrite IH. reflexivity.
Qed.

Lemma own_insert_index_same (i : Z) (k : string) (v : value) (o : object) :
  own k o = None -> own k (insert_index i k v o) = Some v.
Proof.
  induction o as [|[k' v'] o IH]; simpl.
  - rewrite String.eqb_refl. reflexivity.
  - destruct (String.eqb_spec k k') as [->|N]; [discriminate|]. intros H.
    destruct (array_index k') as [j|]; [destruct (j <? i)|]; simpl;
      rewrite ?String.eqb_refl; try reflexivity.
    destruct (String.eqb_spec k k'); [contradiction|]. apply IH, H.
Qed.

Lemma own_insert_index_other (i : Z) (k k' : string) (v : value) (o : object) :
  k <> k' -> own k (insert_index i k' v o) = own k o.
Proof.
  intros N. induction o as [|[k2 v2] o IH]; simpl.
  - destruct (String.eqb_spec k k'); [contradiction|reflexivity].
  - destruct (array_index k2) as [j|]; [destruct (j <? i)|]; simpl;
      try (destruct (String.eqb_spec k k'); [contradiction|reflexivity]).
    rewrite IH. reflexivity.
Qed.

Lemma own_app (k : string) (o1 o2 : object) :
  own k (o1 ++ o2) = match own k o1 with Some v => Some v | None => own k o2 end.
Proof.
  induction o1 as [|[k' v'] o1 IH]; simpl; [reflexivity|].
  destruct (String.eqb k k'); [reflexivity|exact IH].
Qed.

Lemma own_define_same (k : string) (v : value) (o : object) :
  own k (define k v o) = Some v.
Proof.
  unfold define. destruct (own k o) eqn:E.
  - apply own_replace_same. congruence.
  - destruct (array_index k).
    + apply own_insert_index_same, E.
    + rewrite own_app, E. simpl. rewrite String.eqb_refl. reflexivity.
Qed.

Lemma own_define_other (k k' : string) (v : value) (o : object) :
  k <> k' -> own k (define k' v o) = own k o.
Proof.
  intros N. unfold define. destruct (own k' o).
  - apply own_replace_other, N.
  - destruct (array_index k').
    + apply own_insert_index_other, N.
    + rewrite own_app. simpl.
      destruct (String.eqb_spec k k'); [contradiction|].
      destruct (own k o); reflexivity.
Qed.

Lemma own_put_other (k k' : string) (v : value) (o : object) :
  k <> k' -> own k (put k' v o) = own k o.
Proof.
  intros N. unfold put. destruct (own k' o) eqn:E.
  - apply own_replace_other, N.
  - destruct (String.eqb k' "__proto__"); [reflexivity|].
    apply own_define_other, N.
Qed.

Lemma own_put_same (k : string) (v : value) (o : object) :
  k <> "__proto__" -> own k (put k v o) = Some v.
Proof.
  intros N. unfold put. destruct (own k o) eqn:E.
  - apply own_replace_same. congruence.
  - destruct (String.eqb_spec k "__proto__"); [contradiction|].
    apply own_define_same.
Qed.

Lemma not_inherited (k : string) :
  inherited k = false -> object_prototype_get k = VUndef /\ k <> "__proto__".
Proof.
  unfold inherited, object_prototype_names, object_prototype_get, mem.
  cbn [existsb]. intros H. apply orb_false_iff in H. destruct H as [H1 H2].
  rewrite H1. unfold object_prototype_functions in *. cbn [existsb] in *.
  apply orb_false_iff in H2. destruct H2 as [H2 H3]. rewrite H2, H3.
  split; [reflexivity|]. apply String.eqb_neq. exact H1.
Qed.

Lemma tallied_succ (m : Z) : 0 <= m -> tallied (m + 1) = Some (VNum (m + 1)).
Proof.
  intros H. unfold tallied. destruct (Z.eqb_spec (m + 1) 0); [lia|reflexivity].
Qed.

(** One more occurrence of a key that is not inherited. *)
Lemma own_increment_same (k : string) (o : object) (m : Z) :
  inherited k = false -> 0 <= m -> own k o = tallied m ->
  own k (increment k o) = tallied (m + 1).
Proof.
  intros Hk Hm Ho. destruct (not_inherited k Hk) as [Hget Hproto].
  unfold increment. rewrite own_put_same by exact Hproto.
  rewrite tallied_succ by exact Hm. f_equal.
  unfold get. rewrite Ho. unfold tallied.
  destruct (Z.eqb_spec m 0) as [->|N].
  - rewrite Hget. reflexivity.
  - unfold or_else. simpl. destruct (Z.eqb_spec m 0); [contradiction|].
    reflexivity.
Qed.

Lemma own_increment_other (k k' : string) (o : object) :
  k <> k' -> own k (increment k' o) = own k o.
Proof. intros N. apply own_put_other, N. Qed.

Lemma occurrences_nonneg (k : string) (l : list string) : 0 <= occurrences k l.
Proof. unfold occurrences. lia. Qed.

Lemma occurrences_cons (k k' : string) (l : list string) :
  occurrences k (k' :: l)
  = (if String.eqb k k' then 1 else 0) + occurrences k l.
Proof.
  unfold occurrences. cbn [filter].
  destruct (String.eqb k k'); cbn [List.length]; lia.
Qed.

Lemma own_fold_increment (k : string) (l : list string) :
  inherited k = false ->
  forall (o : object) (m : Z),
    0 <= m -> own k o = tallied m ->
    own k (fold_left (fun counts key => increment key counts) l o)
    = tallied (m + occurrences k l).
Proof.
  intros Hk. induction l as [|k' l IH]; intros o m Hm Ho; simpl.
  - rewrite Ho. f_equal. unfold occurrences. simpl. lia.
  - rewrite occurrences_cons.
    destruct (String.eqb_spec k k') as [<-|N].
    + rewrite (IH _ (m + 1)).
      * f_equal. lia.
      * lia.
      * apply own_increment_same; assumption.
    + rewrite (IH _ m).
      * f_equal.
      * exact Hm.
      * rewrite own_increment_other by exact N. exact Ho.
Qed.

Lemma aggregateByField_fold (entries : list object) (field : string) :
  aggregateByField entries field
  = fold_left (fun counts key => increment key counts)
      (map (bucket field) entries) [].
Proof.
  unfold aggregateByField. generalize (@nil (string * value)).
  induction entries as [|e entries IH]; intros o; simpl; [reflexivity|].
  apply IH.
Qed.

Lemma bucket_truthy (field : string) (entry : object) :
  bucket field entry = bucket_if_truthy field entry.
Proof.
  unfold bucket, bucket_if_truthy, or_else.
  destruct (truthy (get entry field)); reflexivity.
Qed.

(** * [aggregateByField] *)

Lemma bucket_own_truthy (field : string) (entry : object) :
  inherited field = false ->
  bucket field entry = bucket_if_own_truthy field entry.
Proof.
  intros I. unfold bucket, bucket_if_own_truthy, or_else, get.
  destruct (own field entry) as [v|].
  - destruct (truthy v); reflexivity.
  - now rewrite (proj1 (not_inherited _ I)).
Qed.

(** C3, amended. For a field name that does not name a property of
    [Object.prototype], and under every key that does not name one, the
    table holds the number of entries of that key, where an entry is counted
    under the stringified value of its field when that value is truthy, and
    under [unknown] when the entry has no such field or the field holds a
    falsy value (0, NaN, false, null, undefined or the empty string). *)
Theorem aggregateByField_counts_truthy
    (entries : list object) (field key : string) :
  inherited field = false ->
  inherited key = false ->
  own key (aggregateByField entries field)
  = tallied (occurrences key (map (bucket_if_own_truthy field) entries)).
Proof.
  intros Hf Hk. rewrite aggregateByField_fold.
  rewrite (own_fold_increment key _ Hk [] 0); [|lia|reflexivity].
  rewrite (map_ext _ _ (fun entry => bucket_own_truthy field entry Hf)).
  reflexivity.
Qed.

(** C3, amended, on the five entries of the nginx log, under the key 200 and
    under [unknown]. *)
Lemma aggregateByField_counts_truthy_witness :
  inherited "status" = false /\ inherited "level" = false
  /\ inherited "200" = false /\ inherited "unknown" = false
  /\ own "200" (aggregateByField (ParsedLog.entries parsed_nginxLog) "status")
     = Some (VNum 2)
  /\ own "unknown" (aggregateByField (ParsedLog.entries parsed_nginxLog) "level")
     = Some (VNum 5).
Proof.
  do 4 (split; [reflexivity|]). split.
  - rewrite (aggregateByField_counts_truthy _ "status" "200" eq_refl eq_refl).
    vm_compute. reflexivity.
  - rewrite (aggregateByField_counts_truthy _ "level" "unknown" eq_refl eq_refl).
    vm_compute. reflexivity.
Defined.

(** The field names left out of C3: an entry without a field named
    [toString] reads the function of [Object.prototype], a truthy value, and
    is counted under the text of that function, not under [unknown]. *)
Lemma aggregateByField_inherited_field :
  aggregateByField [raw_record "x"] "toString"
  = [(native_source "toString", VNum 1)].
Proof. vm_compute. reflexivity. Qed.

(** C3 as stated fails: the entry of the line with the status 000 has the
    field, holding 0, and is counted under [unknown], not under [0]. *)
Lemma aggregateByField_zero_is_unknown :
  let entries := ParsedLog.entries (parse_content no_json status000Log "apache") in
  own "status" (hd [] entries) = Some (VNum 0)
  /\ aggregateByField entries "status" = [("unknown", VNum 1)]
  /\ ~ counts_by (bucket_if_present "status") entries
         (aggregateByField entries "status").
Proof.
  cbv zeta. split; [vm_compute; reflexivity|].
  split; [vm_compute; reflexivity|].
  intros H. specialize (H "0"). vm_compute in H. discriminate H.
Qed.

(** C9 at the one entry of the log whose request target is [__proto__]:
    the assignment to [counts.__proto__] is swallowed by the inherited
    setter, the table stays empty, and its counts sum to 0, not to the one
    entry. *)
Lemma aggregateByField_proto_key_lost :
  let entries := ParsedLog.entries (parse_content no_json protoPathLog "nginx") in
  map (fun entry => get entry "path") entries = [VStr "__proto__"]
  /\ aggregateByField entries "path" = []
  /\ sum_counts (aggregateByField entries "path") = 0
  /\ sum_counts (aggregateByField entries "path")
     <> Z.of_nat (List.length entries).
Proof.
  vm_compute. repeat split; try reflexivity. discriminate.
Qed.

(** * First-seen order of the keys of a table *)

Lemma mem_In (k : string) (l : list string) : mem k l = true <-> In k l.
Proof.
  unfold mem. rewrite existsb_exists. split.
  - intros (x & Hx & E). apply String.eqb_eq in E. subst x. exact Hx.
  - intros H. exists k. split; [exact H|apply String.eqb_refl].
Qed.

Lemma mem_false (k : string) (l : list string) : mem k l = false <-> ~ In k l.
Proof.
  rewrite <- mem_In. destruct (mem k l); split; congruence.
Qed.

Lemma first_seen_snoc (l : list string) (k : string) :
  first_seen (l ++ [k]) = set_add k (first_seen l).
Proof. unfold first_seen. rewrite fold_left_app. reflexivity. Qed.

Lemma In_set_add (x k : string) (s : list string) :
  In x (set_add k s) <-> x = k \/ In x s.
Proof.
  unfold set_add. destruct (mem k s) eqn:E.
  - apply mem_In in E. split; [tauto|]. intros [->|H]; assumption.
  - rewrite in_app_iff. simpl. split.
    + intros [H|[H|[]]]; [right|left]; congruence.
    + intros [->|H]; [right; left; reflexivity|left; exact H].
Qed.

Lemma In_first_seen (x : string) (l : list string) :
  In x (first_seen l) <-> In x l.
Proof.
  induction l as [|k l IH] using rev_ind.
  - reflexivity.
  - rewrite first_seen_snoc, In_set_add, in_app_iff, IH. simpl.
    split; [intros [->|H]|intros [H|[->|[]]]]; tauto.
Qed.

Lemma NoDup_first_seen (l : list string) : NoDup (first_seen l).
Proof.
  induction l as [|k l IH] using rev_ind.
  - constructor.
  - rewrite first_seen_snoc. unfold set_add.
    destruct (mem k (first_seen l)) eqn:E; [exact IH|].
    apply mem_false in E.
    apply NoDup_app; [exact IH|repeat constructor; simpl; tauto|].
    intros x H [<-|[]]. exact (E H).
Qed.

Lemma occurrences_app (k : string) (l1 l2 : list string) :
  occurrences k (l1 ++ l2) = occurrences k l1 + occurrences k l2.
Proof.
  unfold occurrences. rewrite filter_app, length_app. lia.
Qed.

Lemma occurrences_snoc (k k' : string) (l : list string) :
  occurrences k (l ++ [k'])
  = occurrences k l + (if String.eqb k k' then 1 else 0).
Proof.
  rewrite occurrences_app, occurrences_cons.
  change (occurrences k []) with 0. lia.
Qed.

Lemma occurrences_absent (k : string) (l : list string) :
  ~ In k l -> occurrences k l = 0.
Proof.
  induction l as [|k' l IH]; simpl; intros H; [reflexivity|].
  rewrite occurrences_cons, IH by tauto.
  destruct (String.eqb_spec k k'); [subst; tauto|reflexivity].
Qed.

Lemma occurrences_present (k : string) (l : list string) :
  In k l -> 0 < occurrences k l.
Proof.
  induction l as [|k' l IH]; simpl; [tauto|].
  rewrite occurrences_cons. pose proof (occurrences_nonneg k l) as Hn.
  destruct (String.eqb_spec k k'); [lia|].
  intros [E|H]; [congruence|]. apply IH in H. lia.
Qed.

Lemma own_map_keys (f : string -> value) (k : string) (ks : list string) :
  own k (map (fun x => (x, f x)) ks) = if mem k ks then Some (f k) else None.
Proof.
  induction ks as [|x ks IH]; simpl; [reflexivity|].
  destruct (String.eqb_spec k x) as [->|N]; [reflexivity|exact IH].
Qed.

Lemma replace_map_keys (f : string -> value) (k : string) (v : value)
    (ks : list string) :
  NoDup ks ->
  replace k v (map (fun x => (x, f x)) ks)
  = map (fun x => (x, if String.eqb x k then v else f x)) ks.
Proof.
  induction 1 as [|x ks Hx Hnd IH]; simpl; [reflexivity|].
  destruct (String.eqb_spec k x) as [->|N].
  - rewrite String.eqb_refl. f_equal. apply map_ext_in. intros y Hy.
    destruct (String.eqb_spec y x); [subst; contradiction|reflexivity].
  - destruct (String.eqb_spec x k); [congruence|]. rewrite IH. reflexivity.
Qed.

Lemma own_tally (k : string) (l : list string) :
  own k (tally l)
  = if mem k (first_seen l) then Some (VNum (occurrences k l)) else None.
Proof. unfold tally. apply own_map_keys. Qed.

Lemma tally_snoc (l : list string) (k : string) :
  tally (l ++ [k])
  = map (fun x => (x, VNum (occurrences x (l ++ [k])))) (set_add k (first_seen l)).
Proof. unfold tally. rewrite first_seen_snoc. reflexivity. Qed.

(** Counting one more plain key turns the table of [l] into that of
    [l ++ [k]]. *)
Lemma increment_tally (l : list string) (k : string) :
  plain_key k = true -> increment k (tally l) = tally (l ++ [k]).
Proof.
  unfold plain_key. intros H. apply andb_true_iff in H. destruct H as [Hi Ha].
  apply negb_true_iff in Hi. destruct (not_inherited k Hi) as [Hget Hproto].
  destruct (array_index k) eqn:Hidx; [discriminate|]. clear Ha.
  rewrite tally_snoc. unfold increment, get, put. rewrite own_tally.
  unfold set_add. destruct (mem k (first_seen l)) eqn:E.
  - apply mem_In in E. apply -> In_first_seen in E.
    apply occurrences_present in E. unfold or_else. simpl.
    destruct (Z.eqb_spec (occurrences k l) 0); [lia|]. simpl.
    unfold tally. rewrite replace_map_keys by apply NoDup_first_seen.
    apply map_ext. intros x. rewrite occurrences_snoc.
    destruct (String.eqb_spec x k) as [->|N]; [reflexivity|].
    do 2 f_equal. lia.
  - pose proof E as E'. apply mem_false in E'. rewrite In_first_seen in E'.
    rewrite Hget. unfold or_else. simpl.
    destruct (String.eqb_spec k "__proto__"); [congruence|].
    unfold define. rewrite own_tally, E, Hidx.
    rewrite map_app. simpl. f_equal.
    + unfold tally. apply map_ext_in. intros x Hx. rewrite occurrences_snoc.
      destruct (String.eqb_spec x k) as [->|N].
      * apply -> In_first_seen in Hx. contradiction.
      * do 2 f_equal. lia.
    + rewrite occurrences_snoc, String.eqb_refl, occurrences_absent by exact E'.
      reflexivity.
Qed.

Lemma fold_increment_tally (l : list string) :
  Forall (fun k => plain_key k = true) l ->
  fold_left (fun counts key => increment key counts) l [] = tally l.
Proof.
  induction l as [|k l IH] using rev_ind; intros H; [reflexivity|].
  apply Forall_app in H. destruct H as [Hl Hk].
  rewrite fold_left_app. simpl. rewrite IH by exact Hl.
  apply increment_tally. inversion Hk. assumption.
Qed.

(** The table of plain keys lists them in first-seen order. *)
Lemma aggregateByField_tally (entries : list object) (field : string) :
  Forall (fun entry => plain_key (bucket field entry) = true) entries ->
  aggregateByField entries field = tally (map (bucket field) entries).
Proof.
  intros H. rewrite aggregateByField_fold. apply fold_increment_tally.
  apply Forall_map. exact H.
Qed.

(** * The stable sort *)

Section SortByKey.
Context {A : Type}.
Variable key : A -> Z.

Lemma insert_permutation (cmp : A -> A -> Z) (x : A) (l : list A) :
  Permutation (insert cmp x l) (x :: l).
Proof.
  induction l as [|y l IH]; simpl; [reflexivity|].
  destruct (cmp x y <=? 0); [reflexivity|].
  rewrite IH. apply perm_swap.
Qed.

Lemma sort_permutation (cmp : A -> A -> Z) (l : list A) :
  Permutation (sort cmp l) l.
Proof.
  induction l as [|x l IH]; simpl; [reflexivity|].
  rewrite insert_permutation, IH. reflexivity.
Qed.

Lemma insert_descending (x : A) (l : list A) :
  StronglySorted (fun a b => key b <= key a) l ->
  StronglySorted (fun a b => key b <= key a) (insert (descending key) x l).
Proof.
  induction 1 as [|y l Hs IH Hy]; simpl.
  - repeat constructor.
  - unfold descending at 1. destruct (Z.leb_spec (key y - key x) 0) as [L|L].
    + constructor; [constructor; assumption|].
      constructor; [lia|].
      eapply Forall_impl; [|exact Hy]. simpl. intros z Hz. lia.
    + constructor; [exact IH|].
      rewrite (insert_permutation (descending key) x l).
      constructor; [lia|exact Hy].
Qed.

Lemma sort_descending (l : list A) :
  StronglySorted (fun a b => key b <= key a) (sort (descending key) l).
Proof.
  induction l as [|x l IH]; simpl; [constructor|].
  apply insert_descending, IH.
Qed.

(** [insert] moves [x] past elements of a larger key only. *)
Lemma insert_keyed (n : Z) (x : A) (l : list A) :
  filter (keyed key n) (insert (descending key) x l) = filter (keyed key n) (x :: l).
Proof.
  induction l as [|y l IH]; [reflexivity|].
  cbn [insert]. unfold descending at 1.
  destruct (Z.leb_spec (key y - key x) 0) as [L|L]; [reflexivity|].
  cbn [filter] in *. rewrite IH. unfold keyed.
  destruct (Z.eqb_spec (key x) n), (Z.eqb_spec (key y) n);
    try reflexivity; lia.
Qed.

Lemma sort_keyed (n : Z) (l : list A) :
  filter (keyed key n) (sort (descending key) l) = filter (keyed key n) l.
Proof.
  induction l as [|x l IH]; [reflexivity|].
  cbn [sort]. rewrite insert_keyed. cbn [filter]. rewrite IH. reflexivity.
Qed.

Lemma insert_ext (cmp : A -> A -> Z) (x : A) (l : list A) :
  (forall y, In y l -> cmp x y = descending key x y) ->
  insert cmp x l = insert (descending key) x l.
Proof.
  induction l as [|y l IH]; intros H; simpl; [reflexivity|].
  rewrite H by (left; reflexivity).
  rewrite IH by (intros z Hz; apply H; right; exact Hz). reflexivity.
Qed.

Lemma sort_ext (cmp : A -> A -> Z) (l : list A) :
  (forall x y, In x l -> In y l -> cmp x y = descending key x y) ->
  sort cmp l = sort (descending key) l.
Proof.
  induction l as [|x l IH]; intros H; simpl; [reflexivity|].
  rewrite IH by (intros a b Ha Hb; apply H; right; assumption).
  apply insert_ext. intros y Hy. apply H; [left; reflexivity|].
  right. eapply Permutation_in; [apply sort_permutation|exact Hy].
Qed.
End SortByKey.

Lemma by_count_descending_tally (l : list string) (x y : string * value) :
  In x (tally l) -> In y (tally l) ->
  by_count_descending x y = descending count_of x y.
Proof.
  unfold tally. intros Hx Hy.
  apply in_map_iff in Hx. destruct Hx as (kx & <- & _).
  apply in_map_iff in Hy. destruct Hy as (ky & <- & _).
  reflexivity.
Qed.

(** Sorting a table of numbers by [b[1] - a[1]] puts it in descending order
    of count and keeps the pairs of equal count in their order. *)
Lemma sort_tally (l : list string) :
  descending_stable (sort by_count_descending (tally l)) (tally l).
Proof.
  rewrite (sort_ext count_of)
    by (intros x y Hx Hy; apply (by_count_descending_tally l); assumption).
  split; [apply sort_permutation|]. split.
  - apply sort_descending.
  - intros n. apply sort_keyed.
Qed.

(** * [topPaths] *)

(** C7, amended. For every non-empty nginx- or apache-format entry list in
    which no path key is an array index or names a property of
    [Object.prototype], [topPaths] is the first 10 pairs of the table of path
    counts, listed in the order the paths were first encountered, once it is
    sorted in descending order of count with the pairs of equal count kept in
    that order. *)
Theorem topPaths_first_seen
    (Date_local : value -> option (Z * Z))
    (entries : list object) (format : string) (totalLines parsedEntries : nat) :
  entries <> [] ->
  format = "nginx" \/ format = "apache" ->
  Forall (fun entry => plain_key (bucket "path" entry) = true) entries ->
  let table := tally (map (bucket "path") entries) in
  aggregateByField entries "path" = table
  /\ exists sorted,
       Summary.topPaths
         (generateSummary Date_local
            (ParsedLog.make format entries totalLines parsedEntries))
       = Some (firstn 10 sorted)
       /\ descending_stable sorted table.
Proof.
  intros Hne Hfmt Hplain table.
  assert (Ht : aggregateByField entries "path" = table)
    by (apply aggregateByField_tally; exact Hplain).
  split; [exact Ht|].
  exists (sort by_count_descending table). split; [|apply sort_tally].
  unfold generateSummary. cbn [ParsedLog.entries ParsedLog.format].
  destruct entries as [|e entries]; [contradiction|].
  cbn [Summary.topPaths]. rewrite Ht.
  assert (Ha : is_access_log format = true)
    by (destruct Hfmt as [-> | ->]; reflexivity).
  rewrite Ha. reflexivity.
Qed.

(** C7, amended, on the log whose paths are /b, /a, /b, /a and /c: the two
    tied paths come first, /b before /a as encountered, then the single
    /c. *)
Lemma topPaths_first_seen_witness :
  let entries := ParsedLog.entries (parse_content no_json tiedPathsLog "nginx") in
  (entries <> [] /\ Forall (fun entry => plain_key (bucket "path" entry) = true) entries)
  /\ aggregateByField entries "path"
     = [("/b", VNum 2); ("/a", VNum 2); ("/c", VNum 1)]
  /\ Summary.topPaths
       (generateSummary no_date (ParsedLog.make "nginx" entries 5 5))
     = Some [("/b", VNum 2); ("/a", VNum 2); ("/c", VNum 1)]
  /\ exists sorted,
       Summary.topPaths
         (generateSummary no_date (ParsedLog.make "nginx" entries 5 5))
       = Some (firstn 10 sorted)
       /\ descending_stable sorted (tally (map (bucket "path") entries)).
Proof.
  cbv zeta.
  assert (Hne : ParsedLog.entries (parse_content no_json tiedPathsLog "nginx") <> [])
    by (vm_compute; discriminate).
  assert (Hplain : Forall (fun entry => plain_key (bucket "path" entry) = true)
                     (ParsedLog.entries (parse_content no_json tiedPathsLog "nginx")))
    by (apply Forall_of_forallb; vm_compute; reflexivity).
  split; [split; assumption|].
  destruct (topPaths_first_seen no_date _ "nginx" 5%nat 5%nat Hne
              (or_introl eq_refl) Hplain) as [Ht Hs].
  split; [rewrite Ht; vm_compute; reflexivity|].
  split; [vm_compute; reflexivity|exact Hs].
Defined.

(** C7 as stated fails: in the log whose request targets are 20, 10, 20, 10
    and 7, the tied paths were first encountered as 20 then 10, the table
    enumerates its array-index keys in ascending order, and [topPaths] lists
    10 before 20 whatever [Date] answers. *)
Lemma topPaths_numeric_paths_reordered :
  let entries := ParsedLog.entries (parse_content no_json numericPathsLog "nginx") in
  let paths := map (bucket "path") entries in
  paths = ["20"; "10"; "20"; "10"; "7"]
  /\ slice0 10 (sort by_count_descending (tally paths))
     = [("20", VNum 2); ("10", VNum 2); ("7", VNum 1)]
  /\ (forall Date_local,
        Summary.topPaths
          (generateSummary Date_local (ParsedLog.make "nginx" entries 5 5))
        = Some [("10", VNum 2); ("20", VNum 2); ("7", VNum 1)])
  /\ ~ exists Date_local,
         Summary.topPaths
           (generateSummary Date_local (ParsedLog.make "nginx" entries 5 5))
         = Some (slice0 10 (sort by_count_descending (tally paths))).
Proof.
  cbv zeta. split; [vm_compute; reflexivity|].
  split; [vm_compute; reflexivity|]. split.
  - intros Date_local. vm_compute. reflexivity.
  - intros [Date_local H]. vm_compute in H. discriminate H.
Qed.

(** * [filterEntries] *)

Lemma filterEntries_test (RegExp : Type) (RegExp_test : RegExp -> string -> bool)
    (regex : RegExp) (field : option string) (entry : object) :
  match field with
  | Some f =>
      if truthy (VStr f) then
        match get entry f with
        | VUndef | VNull => false
        | value => RegExp_test regex (ToString value)
        end
      else RegExp_test regex (JSON_stringify entry)
  | None => RegExp_test regex (JSON_stringify entry)
  end
  = matches (RegExp_test regex) field entry.
Proof.
  destruct field as [[|c f]|]; reflexivity.
Qed.

(** C5, amended. [filterEntries] throws exactly when the pattern does not
    compile, whatever the entries; when it compiles, the result is the
    subsequence of the entries that match, in their order, an entry being
    tested on the string form of the named field when a field name other than
    the empty string is given (and failing when the field reads undefined or
    null), and on its JSON text when the field is omitted or is the empty
    string. *)
Theorem filterEntries_matches
    (RegExp : Type) (RegExp_i : string -> option RegExp)
    (RegExp_test : RegExp -> string -> bool)
    (entries : list object) (pattern : string) (field : option string) :
  (filterEntries RegExp RegExp_i RegExp_test entries pattern field
   = ThrowSyntaxError
   <-> RegExp_i pattern = None)
  /\ (forall regex,
        RegExp_i pattern = Some regex ->
        filterEntries RegExp RegExp_i RegExp_test entries pattern field
        = Return (filter (matches (RegExp_test regex) field) entries)
        /\ subsequence (filter (matches (RegExp_test regex) field) entries)
             entries).
Proof.
  unfold filterEntries. split.
  - destruct (RegExp_i pattern); split; congruence.
  - intros regex ->. split; [|apply subsequence_filter].
    f_equal. apply filter_ext. intros entry. apply filterEntries_test.
Qed.

(** C5, amended, on the JSON log of the tests: the pattern [error] on the
    field [level] keeps the one error entry, and a pattern that does not
    compile throws. *)
Lemma filterEntries_matches_witness :
  word_compile "error" = Some "error"
  /\ filterEntries string word_compile word_test jsonEntries "error" (Some "level")
     = Return [[("level", VStr "error");
                ("message", VStr "Database connection failed")]]
  /\ filterEntries string word_compile word_test jsonEntries "(" (Some "level")
     = ThrowSyntaxError.
Proof.
  destruct (filterEntries_matches string word_compile word_test
              jsonEntries "error" (Some "level")) as [_ H].
  destruct (H "error" eq_refl) as [E _].
  split; [reflexivity|]. split.
  - rewrite E. vm_compute. reflexivity.
  - apply (filterEntries_matches string word_compile word_test
             jsonEntries "(" (Some "level")). reflexivity.
Defined.

(** C5 as stated fails: with the empty string given as the field, the
    entries are tested on their JSON text, so an entry without a field of
    that name can pass. *)
Lemma filterEntries_empty_field_reads_json :
  let entries := [[("level", VStr "error")]] in
  word_compile "error" = Some "error"
  /\ filter (matches_as_stated (word_test "error") (Some EmptyString)) entries = []
  /\ filterEntries string word_compile word_test entries "error" (Some EmptyString)
     = Return entries
  /\ ~ (forall (RegExp : Type) (RegExp_i : string -> option RegExp)
               (RegExp_test : RegExp -> string -> bool)
               (entries : list object) (pattern : string)
               (field : option string) (regex : RegExp),
          RegExp_i pattern = Some regex ->
          filterEntries RegExp RegExp_i RegExp_test entries pattern field
          = Return (filter (matches_as_stated (RegExp_test regex) field) entries)).
Proof.
  cbv zeta. split; [reflexivity|]. split; [vm_compute; reflexivity|].
  split; [vm_compute; reflexivity|].
  intros H.
  specialize (H string word_compile word_test [[("level", VStr "error")]]
                "error" (Some EmptyString) "error" eq_refl).
  vm_compute in H. discriminate H.
Qed.

(** * The sum of the counts *)

Lemma sum_counts_app (o1 o2 : object) :
  sum_counts (o1 ++ o2) = sum_counts o1 + sum_counts o2.
Proof.
  induction o1 as [|[k v] o1 IH]; simpl; [reflexivity|].
  destruct v; rewrite IH; lia.
Qed.

Lemma sum_counts_insert_index (i : Z) (k : string) (n : Z) (o : object) :
  sum_counts (insert_index i k (VNum n) o) = sum_counts o + n.
Proof.
  induction o as [|[k' v'] o IH]; simpl; [lia|].
  destruct (array_index k') as [j|]; [destruct (j <? i)|]; simpl;
    destruct v'; rewrite ?IH; lia.
Qed.

Lemma sum_counts_replace (k : string) (n m : Z) (o : object) :
  own k o = Some (VNum n) ->
  sum_counts (replace k (VNum m) o) = sum_counts o - n + m.
Proof.
  induction o as [|[k' v'] o IH]; simpl; [discriminate|].
  destruct (String.eqb_spec k k') as [->|N].
  - intros [= ->]. simpl. lia.
  - intros H. simpl. destruct v'; rewrite (IH H); lia.
Qed.

Lemma positive_counts_replace (k : string) (n : Z) (o : object) :
  0 < n -> positive_counts o -> positive_counts (replace k (VNum n) o).
Proof.
  intros Hn. induction 1 as [|[k' v'] o Hp Ho IH]; simpl; [constructor|].
  destruct (String.eqb k k'); constructor; try assumption.
  exists n. split; [reflexivity|exact Hn].
Qed.

Lemma positive_counts_insert_index (i : Z) (k : string) (n : Z) (o : object) :
  0 < n -> positive_counts o -> positive_counts (insert_index i k (VNum n) o).
Proof.
  intros Hn. assert (Hk : exists n', snd (k, VNum n) = VNum n' /\ 0 < n')
    by (exists n; split; [reflexivity|exact Hn]).
  induction 1 as [|[k' v'] o Hp Ho IH]; simpl.
  - constructor; [exact Hk|constructor].
  - destruct (array_index k') as [j|]; [destruct (j <? i)|];
      repeat (constructor; try assumption).
Qed.

Lemma own_positive (k : string) (v : value) (o : object) :
  positive_counts o -> own k o = Some v -> exists n, v = VNum n /\ 0 < n.
Proof.
  induction 1 as [|[k' v'] o Hp Ho IH]; simpl; [discriminate|].
  destruct (String.eqb k k'); [|exact IH].
  intros [= <-]. exact Hp.
Qed.

(** Counting a key that is not inherited adds one to the sum. *)
Lemma increment_sum_counts (k : string) (o : object) :
  inherited k = false -> positive_counts o ->
  positive_counts (increment k o)
  /\ sum_counts (increment k o) = sum_counts o + 1.
Proof.
  intros Hk Hp. destruct (not_inherited k Hk) as [Hget Hproto].
  unfold increment, get, put. destruct (own k o) as [v|] eqn:E.
  - destruct (own_positive k v o Hp E) as (n & -> & Hn).
    unfold or_else. simpl. destruct (Z.eqb_spec n 0); [lia|]. simpl. split.
    + apply positive_counts_replace; [lia|exact Hp].
    + rewrite (sum_counts_replace k n (n + 1) o E). lia.
  - rewrite Hget. unfold or_else. simpl.
    destruct (String.eqb_spec k "__proto__"); [congruence|].
    unfold define. rewrite E. destruct (array_index k) as [i|]; split.
    + apply positive_counts_insert_index; [lia|exact Hp].
    + apply sum_counts_insert_index.
    + apply Forall_app. split; [exact Hp|].
      constructor; [|constructor]. exists 1. split; [reflexivity|lia].
    + rewrite sum_counts_app. simpl. lia.
Qed.

Lemma fold_increment_sum_counts (l : list string) :
  Forall (fun k => inherited k = false) l ->
  forall o, positive_counts o ->
    sum_counts (fold_left (fun counts key => increment key counts) l o)
    = sum_counts o + Z.of_nat (List.length l).
Proof.
  induction 1 as [|k l Hk Hl IH]; intros o Hp; simpl List.length; cbn [fold_left].
  - simpl. lia.
  - destruct (increment_sum_counts k o Hk Hp) as [Hp' Hs].
    rewrite (IH _ Hp'), Hs. lia.
Qed.



(** * Further facts about the summary and the parser *)

Lemma filter_length_disjoint {A : Type} (p q : A -> bool) (l : list A) :
  (forall x, p x && q x = false) ->
  List.length (filter (fun x => p x || q x) l)
  = (List.length (filter p l) + List.length (filter q l))%nat.
Proof.
  intros H. induction l as [|x l IH]; simpl; [reflexivity|].
  specialize (H x). destruct (p x), (q x); simpl in *; try discriminate; lia.
Qed.

Lemma includes_app (l1 l2 : list Z) (v : value) :
  includes (l1 ++ l2) v = includes l1 v || includes l2 v.
Proof. destruct v; simpl; try reflexivity. apply existsb_app. Qed.

Lemma client_server_disjoint (v : value) :
  includes [400; 401; 403; 404] v && includes [500; 502; 503; 504] v = false.
Proof.
  destruct v; try reflexivity. simpl.
  destruct (Z.eqb_spec n 400), (Z.eqb_spec n 401), (Z.eqb_spec n 403),
    (Z.eqb_spec n 404); subst; try reflexivity; simpl;
    repeat match goal with
           | |- context [Z.eqb ?a ?b] => destruct (Z.eqb_spec a b); [lia|]
           end; reflexivity.
Qed.

(** In the summary of an access log the error count is the sum of the
    client errors and the server errors. *)
Theorem errorCount_splits
    (Date_local : value -> option (Z * Z)) (parsed : ParsedLog.t) :
  let summary := generateSummary Date_local parsed in
  match Summary.errorCount summary,
        Summary.clientErrors summary, Summary.serverErrors summary with
  | Some errors, Some client, Some server => errors = (client + server)%nat
  | None, None, None => True
  | _, _, _ => False
  end.
Proof.
  unfold generateSummary. destruct (ParsedLog.entries parsed) as [|e entries];
    [exact I|].
  cbn [Summary.errorCount Summary.clientErrors Summary.serverErrors].
  destruct (is_access_log (ParsedLog.format parsed)); [|exact I].
  cbn [only_if]. unfold filterByStatus.
  rewrite <- filter_length_disjoint.
  - f_equal. apply filter_ext. intros entry.
    change [400; 401; 403; 404; 500; 502; 503; 504]
      with ([400; 401; 403; 404] ++ [500; 502; 503; 504]).
    rewrite includes_app. destruct (truthy (get entry "status")); reflexivity.
  - intros entry. destruct (truthy (get entry "status")); [|reflexivity].
    apply client_server_disjoint.
Qed.

(** * The groups the patterns capture *)

Lemma all_in_snoc (class : ascii -> bool) (s : string) (c : ascii) :
  all_in class s = true -> class c = true -> all_in class (snoc s c) = true.
Proof.
  intros Hs Hc. induction s as [|c' s IH]; simpl in *.
  - rewrite Hc. reflexivity.
  - apply andb_true_iff in Hs. destruct Hs as [H1 H2].
    rewrite H1. apply IH, H2.
Qed.

Lemma length_snoc (s : string) (c : ascii) :
  String.length (snoc s c) = S (String.length s).
Proof. induction s as [|c' s IH]; simpl; [reflexivity|]. f_equal. exact IH. Qed.

Lemma capture_Some (captured : bool) (text : string)
    (r : option (list string)) (groups : list string) :
  capture captured text r = Some groups ->
  exists rest, r = Some rest
               /\ groups = if captured then text :: rest else rest.
Proof.
  destruct r as [rest|]; simpl; [|discriminate].
  intros [= <-]. exists rest. split; reflexivity.
Qed.

Lemma greedy_plus_taken (class : ascii -> bool) (captured : bool)
    (rest : string -> option (list string)) (groups : list string) (s : string) :
  forall seen,
    all_in class seen = true ->
    greedy_plus class captured rest s seen = Some groups ->
    taken class captured rest groups
      (fun text => (String.length seen < String.length text)%nat).
Proof.
  induction s as [|c s IH]; intros seen Hseen; simpl; [discriminate|].
  destruct (class c) eqn:Hc; [|discriminate].
  pose proof (all_in_snoc class seen c Hseen Hc) as Hseen'.
  destruct (greedy_plus class captured rest s (snoc seen c)) as [g|] eqn:E.
  - intros [= <-]. destruct (IH _ Hseen' E) as (text & s' & gs & H1 & H2 & H3 & H4).
    exists text, s', gs. rewrite length_snoc in H4. repeat split; try assumption. lia.
  - intros H. apply capture_Some in H. destruct H as (gs & H1 & H2).
    exists (snoc seen c), s, gs. rewrite length_snoc.
    repeat split; try assumption. lia.
Qed.

Lemma exactly_taken (class : ascii -> bool) (captured : bool)
    (rest : string -> option (list string)) (groups : list string) (n : nat) :
  forall s seen,
    all_in class seen = true ->
    exactly class captured rest n s seen = Some groups ->
    taken class captured rest groups
      (fun text => String.length text = (String.length seen + n)%nat).
Proof.
  induction n as [|n IH]; intros s seen Hseen; simpl.
  - intros H. apply capture_Some in H. destruct H as (gs & H1 & H2).
    exists seen, s, gs. repeat split; try assumption. lia.
  - destruct s as [|c s]; [discriminate|].
    destruct (class c) eqn:Hc; [|discriminate].
    intros H. apply IH in H; [|apply all_in_snoc; assumption].
    destruct H as (text & s' & gs & H1 & H2 & H3 & H4).
    exists text, s', gs. rewrite length_snoc in H4.
    repeat split; try assumption. lia.
Qed.

Lemma lazy_star_taken (class : ascii -> bool) (captured : bool)
    (rest : string -> option (list string)) (groups : list string) (s : string) :
  forall seen,
    all_in class seen = true ->
    lazy_star class captured rest s seen = Some groups ->
    taken class captured rest groups (fun _ => True).
Proof.
  induction s as [|c s IH]; intros seen Hseen; simpl.
  - destruct (capture captured seen (rest EmptyString)) as [g|] eqn:E;
      [|discriminate].
    intros [= <-]. apply capture_Some in E. destruct E as (gs & H1 & H2).
    exists seen, EmptyString, gs. repeat split; assumption.
  - destruct (capture captured seen (rest (String c s))) as [g|] eqn:E.
    + intros [= <-]. apply capture_Some in E. destruct E as (gs & H1 & H2).
      exists seen, (String c s), gs. repeat split; assumption.
    + destruct (class c) eqn:Hc; [|discriminate].
      apply IH. apply all_in_snoc; assumption.
Qed.

(** Every captured group of a match is text of its class, of a length its
    quantifier allows. *)
Lemma exec_groups (r : regex) :
  forall s groups, exec r s = Some groups -> groups_of r groups.
Proof.
  induction r as [|node r IH]; intros s groups H.
  - destruct s; [|discriminate]. injection H as <-. reflexivity.
  - destruct node as [c|captured q class].
    + simpl in H. destruct s as [|c' s]; [discriminate|].
      destruct (Ascii.eqb c c'); [|discriminate]. exact (IH _ _ H).
    + assert (T : taken class captured (exec r) groups (quantity q)).
      { destruct q as [|n|]; cbn [exec] in H.
        - apply greedy_plus_taken in H; [exact H|reflexivity].
        - apply exactly_taken in H; [exact H|reflexivity].
        - apply lazy_star_taken in H; [exact H|reflexivity]. }
      destruct T as (text & s' & gs & H1 & -> & H3 & H4).
      apply IH in H1. destruct captured; simpl; [|exact H1].
      repeat split; assumption.
Qed.

Lemma digit_value_bounds (c : ascii) :
  is_digit c = true -> 0 <= digit_value c <= 9.
Proof.
  unfold is_digit, digit_value. intros H. apply andb_true_iff in H.
  destruct H as [H1 H2]. apply Nat.leb_le in H1, H2. lia.
Qed.

Lemma digits_value_bounds (s : string) :
  all_digits s = true ->
  forall acc, 0 <= acc ->
    let p := 10 ^ Z.of_nat (String.length s) in
    acc * p <= digits_value acc s <= acc * p + p - 1.
Proof.
  induction s as [|c s IH]; intros H acc Hacc; cbn zeta.
  - simpl. lia.
  - unfold all_digits in H. simpl in H. apply andb_true_iff in H.
    destruct H as [Hc Hs]. pose proof (digit_value_bounds c Hc) as Hd.
    cbn [digits_value String.length]. rewrite Nat2Z.inj_succ, Z.pow_succ_r by lia.
    specialize (IH Hs (10 * acc + digit_value c) ltac:(lia)). cbn zeta in IH.
    nia.
Qed.

(** [parseInt] of a run of digits is a number, below 10 to the length of the
    run. *)
Lemma number_digits (s : string) :
  all_digits s = true -> (0 < String.length s)%nat ->
  exists n, number s = VNum n /\ 0 <= n < 10 ^ Z.of_nat (String.length s).
Proof.
  intros H L. unfold number, parseInt. destruct s as [|c s]; [simpl in L; lia|].
  rewrite H. eexists. split; [reflexivity|].
  pose proof (digits_value_bounds _ H 0 ltac:(lia)) as B. cbn zeta in B. lia.
Qed.

Lemma number_value (s : string) :
  all_digits s = true -> (0 < String.length s)%nat ->
  number s = VNum (digits_value 0 s) /\ 0 <= digits_value 0 s.
Proof.
  intros H L. unfold number, parseInt. destruct s as [|c s]; [simpl in L; lia|].
  rewrite H. split; [reflexivity|].
  pose proof (digits_value_bounds _ H 0 ltac:(lia)) as B. cbn zeta in B. lia.
Qed.

(** A line the nginx pattern matches becomes a record of the eleven fields.
    Its status is an integer from 0 to 999.  Its size is [parseInt] of a
    non-empty run of digits: the integer the run spells, not negative,
    whenever that integer is a safe one. *)
Theorem parseNginxLine_integers (line : string) (entry : object) :
  parseNginxLine line = Some entry ->
  keys entry
  = ["ip"; "identity"; "user"; "timestamp"; "method"; "path"; "protocol";
     "status"; "size"; "referer"; "userAgent"]
  /\ exists (status : Z) (size : string),
       own "status" entry = Some (VNum status) /\ 0 <= status <= 999
       /\ all_digits size = true /\ size <> EmptyString
       /\ own "size" entry = Some (number size)
       /\ (safe_integer (digits_value 0 size) = true ->
           own "size" entry = Some (VNum (digits_value 0 size))
           /\ 0 <= digits_value 0 size).
Proof.
  unfold parseNginxLine.
  destruct (exec (nginx_regex true) line) as [groups|] eqn:E; [|discriminate].
  apply exec_groups in E.
  destruct groups as [|g1 [|g2 [|g3 [|g4 [|g5 [|g6 [|g7 [|g8 [|g9 [|g10
                     [|g11 [|g12 rest]]]]]]]]]]]];
    try discriminate.
  intros [= <-]. split; [reflexivity|].
  cbn in E.
  destruct E as (_ & _ & _ & _ & _ & _ & _ & _ & _ & _ & _ & _ & _ & _
                 & H8 & L8 & H9 & L9 & _).
  destruct (number_digits g8 H8 ltac:(lia)) as (status & E8 & B8).
  destruct (number_value g9 H9 L9) as (E9 & B9).
  exists status, g9. cbn [own String.eqb Ascii.eqb Bool.eqb].
  rewrite E8. rewrite L8 in B8.
  split; [reflexivity|]. split; [lia|]. split; [exact H9|].
  split; [destruct g9; [simpl in L9; lia|discriminate]|].
  split; [reflexivity|]. intros _. rewrite E9. split; [reflexivity|exact B9].
Qed.

Lemma parseNginxLine_integers_witness :
  match parseNginxLine
          (dq "192.168.1.3 - - [19/Feb/2026:10:00:02 +0000] 'GET /api/v1/nonexistent HTTP/1.1' 404 89 '-' 'curl/7.68.0'")
  with
  | Some entry =>
      exists (status : Z) (size : string),
        own "status" entry = Some (VNum status) /\ 0 <= status <= 999
        /\ all_digits size = true /\ size <> EmptyString
        /\ own "size" entry = Some (number size)
        /\ (safe_integer (digits_value 0 size) = true ->
            own "size" entry = Some (VNum (digits_value 0 size))
            /\ 0 <= digits_value 0 size)
  | None => False
  end.
Proof.
  destruct (parseNginxLine _) as [entry|] eqn:E.
  - exact (proj2 (parseNginxLine_integers _ entry E)).
  - vm_compute in E. discriminate E.
Defined.

(** * The order in which a table enumerates its keys *)

Lemma array_index_canonical (k : string) (i : Z) :
  array_index k = Some i -> string_of_Z i = k.
Proof.
  unfold array_index. destruct (parseInt k) as [n|]; [|discriminate].
  destruct (n <=? 4294967294); simpl; [|discriminate].
  destruct (String.eqb_spec (string_of_Z n) k); [|discriminate].
  intros [= <-]. assumption.
Qed.

Lemma index_value_injective (a b : string) :
  is_index a = true -> is_index b = true ->
  index_value a = index_value b -> a = b.
Proof.
  unfold is_index, index_value.
  destruct (array_index a) as [i|] eqn:Ea; [|discriminate].
  destruct (array_index b) as [j|] eqn:Eb; [|discriminate].
  intros _ _ ->. apply array_index_canonical in Ea, Eb. congruence.
Qed.

Lemma insert_index_map (f : string -> string * value) (i : Z) (k : string)
    (v : value) (ks : list string) :
  (forall x, fst (f x) = x) ->
  insert_index i k v (map f ks)
  = map (fun x => if String.eqb x k then (k, v) else f x) (insert_key i k ks)
  \/ In k ks.
Proof.
  intros Hf. induction ks as [|k' ks IH]; simpl.
  - left. rewrite String.eqb_refl. reflexivity.
  - destruct (String.eqb_spec k' k) as [->|N]; [right; left; reflexivity|].
    destruct IH as [IH|IH]; [|right; right; exact IH].
    assert (Hrest : In k ks \/ map f ks
              = map (fun x => if String.eqb x k then (k, v) else f x) ks).
    { destruct (in_dec string_dec k ks) as [Hin|Hin]; [left; exact Hin|].
      right. apply map_ext_in. intros x Hx.
      destruct (String.eqb_spec x k); [subst; contradiction|reflexivity]. }
    destruct Hrest as [Hin|Hrest]; [right; right; exact Hin|].
    left. destruct (f k') as [k2 v2] eqn:E.
    assert (k2 = k') by (specialize (Hf k'); rewrite E in Hf; exact Hf). subst k2.
    destruct (array_index k') as [j|]; [destruct (j <? i)|]; simpl;
      rewrite ?String.eqb_refl;
      destruct (String.eqb_spec k' k); try contradiction;
      rewrite ?E, ?IH, <- ?Hrest; reflexivity.
Qed.

Lemma insert_key_app (i : Z) (k : string) (indices others : list string) :
  Forall (fun x => is_index x = true) indices ->
  Forall (fun x => is_index x = false) others ->
  insert_key i k (indices ++ others) = insert_key i k indices ++ others.
Proof.
  intros Hi Ho. induction Hi as [|x indices Hx Hi IH]; simpl.
  - destruct Ho as [|y others Hy Ho]; [reflexivity|]. simpl.
    unfold is_index in Hy. destruct (array_index y); [discriminate|reflexivity].
  - unfold is_index in Hx. destruct (array_index x) as [j|]; [|discriminate].
    destruct (j <? i); [|reflexivity]. simpl. rewrite IH. reflexivity.
Qed.

Lemma insert_key_permutation (i : Z) (k : string) (ks : list string) :
  Permutation (insert_key i k ks) (k :: ks).
Proof.
  induction ks as [|x ks IH]; simpl; [reflexivity|].
  destruct (array_index x) as [j|]; [destruct (j <? i)|]; try reflexivity.
  rewrite IH. apply perm_swap.
Qed.

Lemma insert_key_sorted (i : Z) (k : string) (indices : list string) :
  array_index k = Some i ->
  Forall (fun x => is_index x = true) indices ->
  ~ In k indices ->
  StronglySorted (fun a b => index_value a < index_value b) indices ->
  StronglySorted (fun a b => index_value a < index_value b)
    (insert_key i k indices).
Proof.
  intros Hk Hi Hnew Hs.
  assert (Vk : index_value k = i) by (unfold index_value; rewrite Hk; reflexivity).
  assert (Ik : is_index k = true) by (unfold is_index; rewrite Hk; reflexivity).
  revert Hi Hnew.
  induction Hs as [|x indices Hs IH Hx]; intros Hi Hnew; simpl.
  - repeat constructor.
  - apply Forall_cons_iff in Hi. destruct Hi as [Hxi Hi'].
    assert (Vx : index_value x <> i).
    { intros E. apply Hnew. left. apply index_value_injective; congruence. }
    assert (Vx' : exists j, array_index x = Some j /\ index_value x = j).
    { unfold is_index in Hxi. unfold index_value.
      destruct (array_index x) as [j|]; [|discriminate]. exists j. tauto. }
    destruct Vx' as (j & Ex & Vx'). rewrite Ex.
    destruct (Z.ltb_spec j i).
    + constructor.
      * apply IH; [exact Hi'|]. intros H'. apply Hnew. right. exact H'.
      * rewrite (insert_key_permutation i k indices).
        constructor; [lia|exact Hx].
    + constructor; [constructor; assumption|].
      constructor; [lia|].
      eapply Forall_impl; [|exact Hx]. simpl. intros z Hz. lia.
Qed.

Lemma own_counted (l ks : list string) (k : string) :
  own k (map (counted l) ks)
  = if mem k ks then Some (VNum (occurrences k l)) else None.
Proof. unfold counted. apply own_map_keys. Qed.

Lemma replace_counted (l ks : list string) (k : string) (v : value) :
  NoDup ks ->
  replace k v (map (counted l) ks)
  = map (fun x => if String.eqb x k then (x, v) else counted l x) ks.
Proof.
  intros H. unfold counted. rewrite replace_map_keys by exact H.
  apply map_ext. intros x. destruct (String.eqb x k); reflexivity.
Qed.

Lemma filter_snoc {A : Type} (p : A -> bool) (l : list A) (x : A) :
  filter p (l ++ [x]) = if p x then filter p l ++ [x] else filter p l.
Proof.
  rewrite filter_app. simpl. destruct (p x); [reflexivity|apply app_nil_r].
Qed.

Lemma enumerates_elements (ks l : list string) :
  enumerates ks l -> Permutation ks (first_seen l).
Proof.
  intros (indices & -> & Hp & _). rewrite Hp. clear Hp.
  induction (first_seen l) as [|x fs IH]; simpl; [reflexivity|].
  destruct (is_index x); simpl.
  - constructor. exact IH.
  - rewrite <- Permutation_middle. constructor. exact IH.
Qed.

(** Counting one more key that is not inherited keeps the table that of the
    keys counted so far, enumerated as an object enumerates them. *)
Lemma increment_enumerates (l ks : list string) (k : string) :
  inherited k = false ->
  enumerates ks l ->
  exists ks',
    enumerates ks' (l ++ [k])
    /\ increment k (map (counted l) ks) = map (counted (l ++ [k])) ks'.
Proof.
  intros Hk He. destruct (not_inherited k Hk) as [Hget Hproto].
  pose proof (enumerates_elements ks l He) as Hperm.
  assert (Hnd : NoDup ks).
  { eapply Permutation_NoDup; [symmetry; exact Hperm|apply NoDup_first_seen]. }
  assert (Hin : forall x, In x ks <-> In x l).
  { intros x. split; intros Hx.
    - apply (proj1 (In_first_seen x l)). exact (Permutation_in _ Hperm Hx).
    - apply (Permutation_in _ (Permutation_sym Hperm)).
      apply (proj2 (In_first_seen x l)). exact Hx. }
  unfold increment, get, put. rewrite own_counted. destruct (mem k ks) eqn:E.
  - (* a key already counted *)
    apply mem_In in E. pose proof (proj1 (Hin k) E) as Hl.
    pose proof (occurrences_present k l Hl) as Hpos.
    exists ks. split.
    + destruct He as (indices & H1 & H2 & H3). exists indices.
      rewrite first_seen_snoc. unfold set_add.
      rewrite (proj2 (mem_In k (first_seen l)))
        by (apply In_first_seen; exact Hl).
      repeat split; assumption.
    + unfold or_else. simpl. destruct (Z.eqb_spec (occurrences k l) 0); [lia|].
      simpl. rewrite replace_counted by exact Hnd.
      apply map_ext. intros x. unfold counted. rewrite occurrences_snoc.
      destruct (String.eqb_spec x k) as [->|N]; [reflexivity|].
      do 2 f_equal. lia.
  - (* a new key *)
    apply mem_false in E. assert (Hl : ~ In k l) by (rewrite <- Hin; exact E).
    assert (Hfs : ~ In k (first_seen l)) by (rewrite In_first_seen; exact Hl).
    assert (Hcount : forall x, In x ks -> counted l x = counted (l ++ [k]) x).
    { intros x Hx. unfold counted. rewrite occurrences_snoc.
      destruct (String.eqb_spec x k); [subst; contradiction|].
      do 2 f_equal. lia. }
    assert (Hone : counted (l ++ [k]) k = (k, VNum 1)).
    { unfold counted. rewrite occurrences_snoc, String.eqb_refl,
        occurrences_absent by exact Hl. reflexivity. }
    rewrite Hget. unfold or_else. simpl.
    destruct (String.eqb_spec k "__proto__"); [congruence|].
    unfold define. rewrite own_counted, (proj2 (mem_false k ks) E).
    destruct He as (indices & H1 & H2 & H3).
    assert (Hidx : Forall (fun x => is_index x = true) indices).
    { apply Forall_forall. intros x Hx.
      apply (Permutation_in _ H2) in Hx. apply filter_In in Hx. tauto. }
    assert (Hoth : Forall (fun x => is_index x = false)
                     (filter (fun x => negb (is_index x)) (first_seen l))).
    { apply Forall_forall. intros x Hx. apply filter_In in Hx.
      apply negb_true_iff. tauto. }
    destruct (array_index k) as [i|] eqn:Ek.
    + (* an array index: inserted among the indices *)
      assert (Hik : is_index k = true)
        by (unfold is_index; rewrite Ek; reflexivity).
      exists (insert_key i k ks). split.
      * exists (insert_key i k indices).
        rewrite first_seen_snoc. unfold set_add.
        rewrite (proj2 (mem_false k (first_seen l)) Hfs), !filter_snoc.
        rewrite Hik. simpl.
        split; [rewrite H1; apply insert_key_app; assumption|]. split.
        -- rewrite insert_key_permutation, H2.
           apply Permutation_cons_append.
        -- apply insert_key_sorted; try assumption.
           intros Hx. apply E. rewrite H1. apply in_or_app. left. exact Hx.
      * destruct (insert_index_map (counted l) i k (VNum 1) ks
                    ltac:(reflexivity)) as [Hmap|Hmap]; [|contradiction].
        rewrite Hmap. apply map_ext_in. intros x Hx.
        destruct (String.eqb_spec x k) as [->|N]; [symmetry; exact Hone|].
        apply Hcount.
        apply (Permutation_in _ (insert_key_permutation i k ks)) in Hx.
        destruct Hx as [Hx|Hx]; [congruence|exact Hx].
    + (* another key: appended *)
      assert (Hik : is_index k = false)
        by (unfold is_index; rewrite Ek; reflexivity).
      exists (ks ++ [k]). split.
      * exists indices. rewrite first_seen_snoc. unfold set_add.
        rewrite (proj2 (mem_false k (first_seen l)) Hfs), !filter_snoc.
        rewrite Hik. simpl.
        rewrite H1, app_assoc. repeat split; assumption.
      * rewrite map_app. simpl. rewrite Hone. f_equal.
        apply map_ext_in. exact Hcount.
Qed.

(** The table lists the array-index keys first, in ascending order, then
    the other keys in the order they were first encountered, each with the
    number of entries counted under it, provided none of the keys names a
    property of [Object.prototype]. *)
Theorem aggregateByField_enumerates (entries : list object) (field : string) :
  Forall (fun entry => inherited (bucket field entry) = false) entries ->
  exists ks,
    enumerates ks (map (bucket field) entries)
    /\ entries_of (aggregateByField entries field)
       = map (counted (map (bucket field) entries)) ks.
Proof.
  intros H. rewrite aggregateByField_fold. unfold entries_of.
  apply (Forall_map (bucket field) (fun k => inherited k = false)) in H.
  induction (map (bucket field) entries) as [|k l IH] using rev_ind.
  - exists []. split; [|reflexivity]. exists []. repeat split; constructor.
  - apply Forall_app in H. destruct H as [Hl Hk]. inversion Hk as [|? ? Hk' _]; subst.
    destruct (IH Hl) as (ks & He & Ht).
    rewrite fold_left_app. simpl. rewrite Ht.
    apply increment_enumerates; assumption.
Qed.

Lemma aggregateByField_enumerates_witness :
  let entries := ParsedLog.entries (parse_content no_json numericPathsLog "nginx") in
  Forall (fun entry => inherited (bucket "path" entry) = false) entries
  /\ exists ks,
       enumerates ks (map (bucket "path") entries)
       /\ entries_of (aggregateByField entries "path")
          = map (counted (map (bucket "path") entries)) ks.
Proof.
  cbv zeta.
  assert (H : Forall (fun entry => inherited (bucket "path" entry) = false)
                (ParsedLog.entries (parse_content no_json numericPathsLog "nginx"))).
  { apply (Forall_impl _ (P := fun e => negb (inherited (bucket "path" e)) = true)).
    - intros e He. apply negb_true_iff. exact He.
    - apply Forall_of_forallb. vm_compute. reflexivity. }
  split; [exact H|]. exact (aggregateByField_enumerates _ "path" H).
Defined.

(** * The two parsers and the lines they accept *)

Lemma append_snoc (seen : string) (c : ascii) (s : string) :
  (snoc seen c ++ s)%string = (seen ++ String c s)%string.
Proof.
  unfold snoc. induction seen as [|c' seen IH]; simpl; [reflexivity|].
  f_equal. exact IH.
Qed.

Lemma append_empty_r (s : string) : (s ++ EmptyString)%string = s.
Proof. induction s as [|c s IH]; simpl; [reflexivity|]. f_equal. exact IH. Qed.

Lemma append_assoc (a b c : string) :
  ((a ++ b) ++ c)%string = (a ++ (b ++ c))%string.
Proof. induction a as [|x a IH]; simpl; [reflexivity|]. f_equal. exact IH. Qed.

Lemma greedy_plus_whole (class : ascii -> bool) (captured : bool)
    (rest : string -> option (list string)) (groups : list string) (s : string) :
  forall seen,
    greedy_plus class captured rest s seen = Some groups ->
    exists text s' groups',
      rest s' = Some groups'
      /\ groups = (if captured then text :: groups' else groups')
      /\ (seen ++ s)%string = (text ++ s')%string.
Proof.
  induction s as [|c s IH]; intros seen; simpl; [discriminate|].
  destruct (class c); [|discriminate].
  destruct (greedy_plus class captured rest s (snoc seen c)) as [g|] eqn:E.
  - intros [= <-]. destruct (IH _ E) as (text & s' & gs & H1 & H2 & H3).
    exists text, s', gs. rewrite append_snoc in H3. repeat split; assumption.
  - intros H. apply capture_Some in H. destruct H as (gs & H1 & H2).
    exists (snoc seen c), s, gs. rewrite append_snoc. repeat split; assumption.
Qed.

Lemma exactly_whole (class : ascii -> bool) (captured : bool)
    (rest : string -> option (list string)) (groups : list string) (n : nat) :
  forall s seen,
    exactly class captured rest n s seen = Some groups ->
    exists text s' groups',
      rest s' = Some groups'
      /\ groups = (if captured then text :: groups' else groups')
      /\ (seen ++ s)%string = (text ++ s')%string.
Proof.
  induction n as [|n IH]; intros s seen; simpl.
  - intros H. apply capture_Some in H. destruct H as (gs & H1 & H2).
    exists seen, s, gs. repeat split; assumption.
  - destruct s as [|c s]; [discriminate|]. destruct (class c); [|discriminate].
    intros H. apply IH in H. destruct H as (text & s' & gs & H1 & H2 & H3).
    exists text, s', gs. rewrite append_snoc in H3. repeat split; assumption.
Qed.

Lemma lazy_star_whole (class : ascii -> bool) (captured : bool)
    (rest : string -> option (list string)) (groups : list string) (s : string) :
  forall seen,
    lazy_star class captured rest s seen = Some groups ->
    exists text s' groups',
      rest s' = Some groups'
      /\ groups = (if captured then text :: groups' else groups')
      /\ (seen ++ s)%string = (text ++ s')%string.
Proof.
  induction s as [|c s IH]; intros seen; simpl.
  - destruct (capture captured seen (rest EmptyString)) as [g|] eqn:E;
      [|discriminate].
    intros [= <-]. apply capture_Some in E. destruct E as (gs & H1 & H2).
    exists seen, EmptyString, gs. repeat split; assumption.
  - destruct (capture captured seen (rest (String c s))) as [g|] eqn:E.
    + intros [= <-]. apply capture_Some in E. destruct E as (gs & H1 & H2).
      exists seen, (String c s), gs. repeat split; assumption.
    + destruct (class c); [|discriminate].
      intros H. apply IH in H. destruct H as (text & s' & gs & H1 & H2 & H3).
      exists text, s', gs. rewrite append_snoc in H3. repeat split; assumption.
Qed.

(** A matched string is the literals of the pattern around its groups. *)
Lemma exec_assemble (r : regex) :
  all_captured r = true ->
  forall s groups, exec r s = Some groups -> s = assemble r groups.
Proof.
  induction r as [|node r IH]; intros Hc s groups H.
  - destruct s; [|discriminate]. reflexivity.
  - destruct node as [c|captured q class]; simpl in Hc.
    + simpl in H. destruct s as [|c' s]; [discriminate|].
      destruct (Ascii.eqb_spec c c') as [<-|]; [|discriminate].
      simpl. f_equal. exact (IH Hc _ _ H).
    + apply andb_true_iff in Hc. destruct Hc as [-> Hc].
      assert (T : exists text s' groups',
                 exec r s' = Some groups' /\ groups = text :: groups'
                 /\ s = (text ++ s')%string).
      { destruct q as [|n|]; cbn [exec] in H.
        - apply greedy_plus_whole in H. exact H.
        - apply exactly_whole in H. exact H.
        - apply lazy_star_whole in H. exact H. }
      destruct T as (text & s' & gs & H1 & -> & ->).
      simpl. f_equal. exact (IH Hc _ _ H1).
Qed.

(** ** Every line of the shape is matched *)

Lemma greedy_plus_complete (class : ascii -> bool) (captured : bool)
    (rest : string -> option (list string)) (text s' : string) :
  all_in class text = true -> text <> EmptyString -> rest s' <> None ->
  forall seen, greedy_plus class captured rest (text ++ s') seen <> None.
Proof.
  induction text as [|c text IH]; intros Hc Hne Hrest seen; [congruence|].
  simpl in Hc. apply andb_true_iff in Hc. destruct Hc as [Hc Ht].
  simpl. rewrite Hc.
  destruct (greedy_plus class captured rest (text ++ s') (snoc seen c)) eqn:E;
    [discriminate|].
  destruct text as [|c' text].
  - simpl. destruct (rest s'); [destruct captured; discriminate|congruence].
  - exfalso. apply (IH Ht ltac:(discriminate) Hrest (snoc seen c)). exact E.
Qed.

Lemma exactly_complete (class : ascii -> bool) (captured : bool)
    (rest : string -> option (list string)) (text s' : string) :
  all_in class text = true -> rest s' <> None ->
  forall seen,
    exactly class captured rest (String.length text) (text ++ s') seen <> None.
Proof.
  induction text as [|c text IH]; intros Hc Hrest seen; simpl.
  - destruct (rest s'); [destruct captured; discriminate|congruence].
  - simpl in Hc. apply andb_true_iff in Hc. destruct Hc as [Hc Ht].
    rewrite Hc. apply IH; assumption.
Qed.

Lemma lazy_star_complete (class : ascii -> bool) (captured : bool)
    (rest : string -> option (list string)) (text s' : string) :
  all_in class text = true -> rest s' <> None ->
  forall seen, lazy_star class captured rest (text ++ s') seen <> None.
Proof.
  induction text as [|c text IH]; intros Hc Hrest seen.
  - simpl. destruct s' as [|c s']; simpl;
      (destruct (rest _); [destruct captured; discriminate|congruence]).
  - simpl in Hc. apply andb_true_iff in Hc. destruct Hc as [Hc Ht].
    simpl. destruct (capture captured seen _); [discriminate|].
    rewrite Hc. apply IH; assumption.
Qed.

Lemma exec_lit (c : ascii) (r : regex) (s : string) :
  exec r s <> None -> exec (Lit c :: r) (String c s) <> None.
Proof. simpl. rewrite Ascii.eqb_refl. tauto. Qed.

Lemma exec_plus (captured : bool) (class : ascii -> bool) (r : regex)
    (text s : string) :
  all_in class text = true -> text <> EmptyString -> exec r s <> None ->
  exec (Rep captured Plus class :: r) (text ++ s) <> None.
Proof. intros. cbn [exec]. apply greedy_plus_complete; assumption. Qed.

Lemma exec_exactly (captured : bool) (class : ascii -> bool) (r : regex)
    (n : nat) (text s : string) :
  all_in class text = true -> String.length text = n -> exec r s <> None ->
  exec (Rep captured (Exactly n) class :: r) (text ++ s) <> None.
Proof. intros H <- Hr. cbn [exec]. apply exactly_complete; assumption. Qed.

Lemma exec_lazy (captured : bool) (class : ascii -> bool) (r : regex)
    (text s : string) :
  all_in class text = true -> exec r s <> None ->
  exec (Rep captured LazyStar class :: r) (text ++ s) <> None.
Proof. intros. cbn [exec]. apply lazy_star_complete; assumption. Qed.

(** ** The groups of a line built from its fields *)

Lemma stops_empty (class : ascii -> bool)
    (rest : string -> option (list string)) :
  stops class rest EmptyString.
Proof. intros seen. reflexivity. Qed.

Lemma stops_outside (class : ascii -> bool)
    (rest : string -> option (list string)) (c : ascii) (s : string) :
  class c = false -> stops class rest (String c s).
Proof. intros H seen. simpl. rewrite H. reflexivity. Qed.

(** One more code unit of the class, after which the rest fails. *)
Lemma stops_after (class : ascii -> bool)
    (rest : string -> option (list string)) (c : ascii) (s : string) :
  stops class rest s -> rest s = None -> stops class rest (String c s).
Proof.
  intros Hs Hr seen. simpl. destruct (class c); [|reflexivity].
  rewrite Hs, Hr. reflexivity.
Qed.

Lemma greedy_plus_stop (class : ascii -> bool)
    (rest : string -> option (list string)) (text s : string)
    (groups : list string) :
  all_in class text = true -> text <> EmptyString ->
  stops class rest s -> rest s = Some groups ->
  forall seen,
    greedy_plus class true rest (text ++ s) seen
    = Some ((seen ++ text)%string :: groups).
Proof.
  induction text as [|c text IH]; intros Hc Hne Hs Hr seen; [congruence|].
  simpl in Hc. apply andb_true_iff in Hc. destruct Hc as [Hc Ht].
  simpl. rewrite Hc. destruct text as [|c' text].
  - simpl. rewrite Hs, Hr. reflexivity.
  - rewrite (IH Ht ltac:(discriminate) Hs Hr), append_snoc. reflexivity.
Qed.

Lemma exactly_exact (class : ascii -> bool)
    (rest : string -> option (list string)) (text s : string) :
  all_in class text = true ->
  forall seen,
    exactly class true rest (String.length text) (text ++ s) seen
    = capture true (seen ++ text) (rest s).
Proof.
  induction text as [|c text IH]; intros Hc seen; simpl.
  - rewrite append_empty_r. reflexivity.
  - simpl in Hc. apply andb_true_iff in Hc. destruct Hc as [Hc Ht].
    rewrite Hc, (IH Ht), append_snoc. reflexivity.
Qed.

Lemma lazy_star_here (class : ascii -> bool)
    (rest : string -> option (list string)) (s seen : string)
    (groups : list string) :
  rest s = Some groups ->
  lazy_star class true rest s seen = Some (seen :: groups).
Proof. intros H. destruct s; simpl; rewrite H; reflexivity. Qed.

Lemma lazy_star_exact (r : regex) (text s : string) (groups : list string) :
  unquoted text -> exec (QUOTE :: r) s = Some groups ->
  forall seen,
    lazy_star dot true (exec (QUOTE :: r)) (text ++ s) seen
    = Some ((seen ++ text)%string :: groups).
Proof.
  unfold unquoted.
  induction text as [|c text IH]; intros Hc Hr seen.
  - simpl. rewrite append_empty_r. apply lazy_star_here, Hr.
  - simpl in Hc. apply andb_true_iff in Hc. destruct Hc as [Hc Ht].
    apply andb_true_iff in Hc. destruct Hc as [Hdot Hq].
    apply negb_true_iff in Hq. rewrite Ascii.eqb_sym in Hq.
    cbn [append lazy_star]. unfold QUOTE at 1. cbn [exec]. rewrite Hq.
    cbn [capture]. rewrite Hdot, (IH Ht Hr), append_snoc. reflexivity.
Qed.

Lemma exec_lit_exact (c : ascii) (r : regex) (s : string)
    (groups : list string) :
  exec r s = Some groups -> exec (Lit c :: r) (String c s) = Some groups.
Proof. simpl. rewrite Ascii.eqb_refl. tauto. Qed.

Lemma exec_plus_exact (class : ascii -> bool) (r : regex) (text s : string)
    (groups : list string) :
  all_in class text = true -> text <> EmptyString ->
  stops class (exec r) s -> exec r s = Some groups ->
  exec (Rep true Plus class :: r) (text ++ s) = Some (text :: groups).
Proof.
  intros. cbn [exec]. rewrite (greedy_plus_stop class (exec r) text s groups)
    by assumption. reflexivity.
Qed.

Lemma exec_exactly_exact (class : ascii -> bool) (r : regex) (n : nat)
    (text s : string) (groups : list string) :
  all_in class text = true -> String.length text = n ->
  exec r s = Some groups ->
  exec (Rep true (Exactly n) class :: r) (text ++ s) = Some (text :: groups).
Proof.
  intros Hc <- Hr. cbn [exec]. rewrite exactly_exact by exact Hc.
  rewrite Hr. reflexivity.
Qed.

Lemma exec_lazy_exact (r : regex) (text s : string) (groups : list string) :
  unquoted text -> exec (QUOTE :: r) s = Some groups ->
  exec (Rep true LazyStar dot :: QUOTE :: r) (text ++ s)
  = Some (text :: groups).
Proof.
  intros. cbn [exec]. rewrite (lazy_star_exact r text s groups) by assumption.
  reflexivity.
Qed.

Ltac flatten_line :=
  repeat (rewrite append_assoc || cbn [append]).

Ltac accept_step :=
  first
    [ apply exec_lit
    | apply exec_plus; [assumption|assumption|]
    | apply exec_exactly; [assumption|assumption|]
    | apply exec_lazy; [assumption|] ].

Ltac stop_here :=
  first
    [ apply stops_empty
    | apply stops_outside; reflexivity
    | apply stops_after; [apply stops_outside; reflexivity|reflexivity] ].

Ltac read_step :=
  first
    [ apply exec_lit_exact
    | apply exec_plus_exact; [assumption|assumption|stop_here|]
    | apply exec_exactly_exact; [assumption|assumption|]
    | apply exec_lazy_exact; [assumption|] ].

Lemma nginx_line_accepted
    (ip identity user timestamp method path protocol status size
     referer userAgent : string) :
  apache_fields ip identity user timestamp method path protocol status size ->
  all_in dot referer = true -> all_in dot userAgent = true ->
  exec (nginx_regex true)
    (nginx_line ip identity user timestamp method path protocol status size
       referer userAgent)
  <> None.
Proof.
  intros ([] & [] & [] & [] & [] & [] & [] & [] & []) Hr Hu.
  unfold nginx_line, apache_line, quoted, nginx_regex, SP, QUOTE.
  flatten_line. repeat accept_step. discriminate.
Qed.

Lemma apache_line_groups
    (ip identity user timestamp method path protocol status size : string) :
  apache_fields ip identity user timestamp method path protocol status size ->
  exec (apache_regex true)
    (apache_line ip identity user timestamp method path protocol status size)
  = Some [ip; identity; user; timestamp; method; path; protocol; status; size].
Proof.
  intros ([] & [] & [] & [] & [] & [] & [] & [] & []).
  unfold apache_line, quoted, apache_regex, SP, QUOTE.
  replace size with (size ++ EmptyString)%string at 1 by apply append_empty_r.
  flatten_line. repeat read_step. reflexivity.
Qed.

Lemma nginx_line_groups
    (ip identity user timestamp method path protocol status size
     referer userAgent : string) :
  apache_fields ip identity user timestamp method path protocol status size ->
  unquoted referer -> unquoted userAgent ->
  exec (nginx_regex true)
    (nginx_line ip identity user timestamp method path protocol status size
       referer userAgent)
  = Some [ip; identity; user; timestamp; method; path; protocol; status; size;
          referer; userAgent].
Proof.
  intros ([] & [] & [] & [] & [] & [] & [] & [] & []) Hr Hu.
  unfold nginx_line, apache_line, quoted, nginx_regex.
  flatten_line. unfold SP. repeat read_step. reflexivity.
Qed.

Lemma length_positive (s : string) :
  (0 < String.length s)%nat -> s <> EmptyString.
Proof. destruct s; simpl; [lia|discriminate]. Qed.

(** The groups of a match of the Apache pattern are nine fields that make
    up the line. *)
Lemma apache_groups_fields (line : string) (groups : list string) :
  exec (apache_regex true) line = Some groups ->
  exists ip identity user timestamp method path protocol status size,
    groups = [ip; identity; user; timestamp; method; path; protocol;
              status; size]
    /\ apache_fields ip identity user timestamp method path protocol status size
    /\ line
       = apache_line ip identity user timestamp method path protocol status size.
Proof.
  intros E. pose proof (exec_assemble (apache_regex true) eq_refl _ _ E) as A.
  apply exec_groups in E.
  destruct groups as [|g1 [|g2 [|g3 [|g4 [|g5 [|g6 [|g7 [|g8 [|g9
                     [|g10 rest]]]]]]]]]];
    cbn in E; try tauto; try (decompose [and] E; discriminate).
  destruct E as (H1 & L1 & H2 & L2 & H3 & L3 & H4 & L4 & H5 & L5 & H6 & L6
                 & H7 & L7 & H8 & L8 & H9 & L9 & _).
  exists g1, g2, g3, g4, g5, g6, g7, g8, g9.
  split; [reflexivity|]. split.
  - repeat split; try assumption; apply length_positive; assumption.
  - rewrite A. unfold apache_line, quoted. flatten_line.
    cbn [assemble apache_regex SP QUOTE app]. flatten_line.
    rewrite append_empty_r. reflexivity.
Qed.

Lemma nginx_groups_fields (line : string) (groups : list string) :
  exec (nginx_regex true) line = Some groups ->
  exists ip identity user timestamp method path protocol status size
         referer userAgent,
    groups = [ip; identity; user; timestamp; method; path; protocol;
              status; size; referer; userAgent]
    /\ apache_fields ip identity user timestamp method path protocol status size
    /\ all_in dot referer = true /\ all_in dot userAgent = true
    /\ line
       = nginx_line ip identity user timestamp method path protocol status size
           referer userAgent.
Proof.
  intros E. pose proof (exec_assemble (nginx_regex true) eq_refl _ _ E) as A.
  apply exec_groups in E.
  destruct groups as [|g1 [|g2 [|g3 [|g4 [|g5 [|g6 [|g7 [|g8 [|g9 [|g10
                     [|g11 [|g12 rest]]]]]]]]]]]];
    cbn in E; try tauto; try (decompose [and] E; discriminate).
  destruct E as (H1 & L1 & H2 & L2 & H3 & L3 & H4 & L4 & H5 & L5 & H6 & L6
                 & H7 & L7 & H8 & L8 & H9 & L9 & H10 & _ & H11 & _ & _).
  exists g1, g2, g3, g4, g5, g6, g7, g8, g9, g10, g11.
  split; [reflexivity|]. split; [|split; [exact H10|split; [exact H11|]]].
  - repeat split; try assumption; apply length_positive; assumption.
  - rewrite A. unfold nginx_line, apache_line, quoted. flatten_line.
    cbn [assemble nginx_regex SP QUOTE app]. flatten_line. reflexivity.
Qed.

(** [parseApacheLine] accepts exactly the lines made of nine well-formed
    fields, and returns the record of those fields: three tokens, a
    bracketed timestamp without a closing bracket, a quoted request of three
    tokens, a status of three digits and a size of one digit or more,
    separated by single spaces. *)
Theorem parseApacheLine_shape (line : string) (entry : object) :
  parseApacheLine line = Some entry
  <-> exists ip identity user timestamp method path protocol status size,
        apache_fields ip identity user timestamp method path protocol status size
        /\ line
           = apache_line ip identity user timestamp method path protocol
               status size
        /\ entry
           = apache_record ip identity user timestamp method path protocol
               status size.
Proof.
  unfold parseApacheLine. split.
  - destruct (exec (apache_regex true) line) as [groups|] eqn:E; [|discriminate].
    destruct (apache_groups_fields _ _ E)
      as (g1 & g2 & g3 & g4 & g5 & g6 & g7 & g8 & g9 & -> & Hf & Hl).
    intros [= <-]. exists g1, g2, g3, g4, g5, g6, g7, g8, g9.
    split; [exact Hf|]. split; [exact Hl|reflexivity].
  - intros (g1 & g2 & g3 & g4 & g5 & g6 & g7 & g8 & g9 & Hf & -> & ->).
    rewrite (apache_line_groups _ _ _ _ _ _ _ _ _ Hf). reflexivity.
Qed.

(** A line [parseNginxLine] accepts is made of the nine fields of the
    Apache shape and of two quoted texts without a line terminator, and the
    record returned holds those fields ([-] for an empty quoted text);
    conversely every line of that shape is accepted. *)
Theorem parseNginxLine_shape (line : string) :
  (forall entry,
     parseNginxLine line = Some entry ->
     exists ip identity user timestamp method path protocol status size
            referer userAgent,
       apache_fields ip identity user timestamp method path protocol status size
       /\ all_in dot referer = true /\ all_in dot userAgent = true
       /\ line
          = nginx_line ip identity user timestamp method path protocol
              status size referer userAgent
       /\ entry
          = nginx_record ip identity user timestamp method path protocol
              status size referer userAgent)
  /\ ((exists ip identity user timestamp method path protocol status size
              referer userAgent,
         apache_fields ip identity user timestamp method path protocol
           status size
         /\ all_in dot referer = true /\ all_in dot userAgent = true
         /\ line
            = nginx_line ip identity user timestamp method path protocol
                status size referer userAgent)
      -> parseNginxLine line <> None).
Proof.
  unfold parseNginxLine. split.
  - intros entry.
    destruct (exec (nginx_regex true) line) as [groups|] eqn:E; [|discriminate].
    destruct (nginx_groups_fields _ _ E)
      as (g1 & g2 & g3 & g4 & g5 & g6 & g7 & g8 & g9 & g10 & g11
          & -> & Hf & Hr & Hu & Hl).
    intros [= <-]. exists g1, g2, g3, g4, g5, g6, g7, g8, g9, g10, g11.
    split; [exact Hf|]. split; [exact Hr|]. split; [exact Hu|].
    split; [exact Hl|reflexivity].
  - intros (g1 & g2 & g3 & g4 & g5 & g6 & g7 & g8 & g9 & g10 & g11
            & Hf & Hr & Hu & ->).
    pose proof (nginx_line_accepted _ _ _ _ _ _ _ _ _ _ _ Hf Hr Hu) as A.
    destruct (exec (nginx_regex true) _) as [groups|] eqn:E; [|congruence].
    destruct (nginx_groups_fields _ _ E)
      as (h1 & h2 & h3 & h4 & h5 & h6 & h7 & h8 & h9 & h10 & h11 & -> & _).
    discriminate.
Qed.

(** The line built from eleven well-formed fields, the two quoted ones free
    of double quotes and line terminators, is read back by [parseNginxLine]
    field for field. *)
Theorem parseNginxLine_reads_fields
    (ip identity user timestamp method path protocol status size
     referer userAgent : string) :
  apache_fields ip identity user timestamp method path protocol status size ->
  unquoted referer -> unquoted userAgent ->
  parseNginxLine
    (nginx_line ip identity user timestamp method path protocol status size
       referer userAgent)
  = Some (nginx_record ip identity user timestamp method path protocol
            status size referer userAgent).
Proof.
  intros Hf Hr Hu. unfold parseNginxLine.
  rewrite (nginx_line_groups _ _ _ _ _ _ _ _ _ _ _ Hf Hr Hu). reflexivity.
Qed.

Lemma parseNginxLine_reads_fields_witness :
  apache_fields "192.168.1.2" "-" "-" "19/Feb/2026:10:00:01 +0000"
    "GET" "/api/v1/posts" "HTTP/1.1" "200" "567"
  /\ unquoted "https://example.com" /\ unquoted "Mozilla/5.0"
  /\ own "referer"
       (match parseNginxLine
                (nginx_line "192.168.1.2" "-" "-" "19/Feb/2026:10:00:01 +0000"
                   "GET" "/api/v1/posts" "HTTP/1.1" "200" "567"
                   "https://example.com" "Mozilla/5.0")
        with Some entry => entry | None => [] end)
     = Some (VStr "https://example.com").
Proof.
  assert (Hf : apache_fields "192.168.1.2" "-" "-" "19/Feb/2026:10:00:01 +0000"
                 "GET" "/api/v1/posts" "HTTP/1.1" "200" "567")
    by (repeat split; (reflexivity || discriminate)).
  assert (Hr : unquoted "https://example.com") by reflexivity.
  assert (Hu : unquoted "Mozilla/5.0") by reflexivity.
  split; [exact Hf|]. split; [exact Hr|]. split; [exact Hu|].
  rewrite (parseNginxLine_reads_fields _ _ _ _ _ _ _ _ _ _ _ Hf Hr Hu).
  reflexivity.
Defined.

(** ** The two formats exclude one another *)

Lemma last_unit_append (a b : string) :
  b <> EmptyString -> last_unit (a ++ b) = last_unit b.
Proof.
  intros Hb. induction a as [|c a IH]; [reflexivity|].
  cbn [append]. cbn [last_unit]. rewrite IH.
  destruct (a ++ b)%string eqn:E; [|reflexivity].
  destruct a; simpl in E; [congruence|discriminate].
Qed.

Lemma last_unit_class (class : ascii -> bool) (s : string) :
  all_in class s = true -> s <> EmptyString ->
  exists c, last_unit s = Some c /\ class c = true.
Proof.
  induction s as [|c s IH]; intros Hc Hne; [congruence|].
  simpl in Hc. apply andb_true_iff in Hc. destruct Hc as [Hc Hs].
  destruct s as [|c' s].
  - exists c. split; [reflexivity|exact Hc].
  - destruct (IH Hs ltac:(discriminate)) as (x & H1 & H2).
    exists x. split; [exact H1|exact H2].
Qed.

Lemma append_nonempty (a b : string) :
  b <> EmptyString -> (a ++ b)%string <> EmptyString.
Proof. destruct a; simpl; [tauto|discriminate]. Qed.

Lemma last_unit_cons (c : ascii) (s : string) :
  s <> EmptyString -> last_unit (String c s) = last_unit s.
Proof. destruct s; [congruence|reflexivity]. Qed.

Ltac to_the_end :=
  repeat first
    [ rewrite last_unit_append
        by (repeat first [discriminate | assumption | apply append_nonempty])
    | rewrite last_unit_cons
        by (repeat first [discriminate | assumption | apply append_nonempty]) ].

Lemma apache_line_last
    (ip identity user timestamp method path protocol status size : string) :
  digits size ->
  exists c,
    last_unit
      (apache_line ip identity user timestamp method path protocol status size)
    = Some c /\ is_digit c = true.
Proof.
  intros [Hd Hne]. destruct (last_unit_class is_digit size Hd Hne) as (c & H1 & H2).
  exists c. split; [|exact H2]. unfold apache_line, quoted. flatten_line.
  to_the_end. exact H1.
Qed.

Lemma nginx_line_last
    (ip identity user timestamp method path protocol status size
     referer userAgent : string) :
  last_unit
    (nginx_line ip identity user timestamp method path protocol status size
       referer userAgent)
  = Some DQUOTE.
Proof.
  unfold nginx_line, apache_line, quoted. flatten_line. to_the_end. reflexivity.
Qed.

Lemma nginx_apache_exclusive (line : string) :
  parseNginxLine line = None \/ parseApacheLine line = None.
Proof.
  unfold parseNginxLine, parseApacheLine.
  destruct (exec (nginx_regex true) line) as [groups1|] eqn:E1;
    [|left; reflexivity].
  destruct (exec (apache_regex true) line) as [groups2|] eqn:E2;
    [|right; reflexivity].
  exfalso.
  destruct (nginx_groups_fields _ _ E1)
    as (g1 & g2 & g3 & g4 & g5 & g6 & g7 & g8 & g9 & g10 & g11
        & _ & _ & _ & _ & Hl).
  destruct (apache_groups_fields _ _ E2)
    as (h1 & h2 & h3 & h4 & h5 & h6 & h7 & h8 & h9 & _ & Hf & Hl').
  destruct Hf as (_ & _ & _ & _ & _ & _ & _ & _ & Hsize).
  destruct (apache_line_last h1 h2 h3 h4 h5 h6 h7 h8 h9 Hsize) as (c & Hc & Hd).
  rewrite <- Hl', Hl, nginx_line_last in Hc. injection Hc as <-.
  discriminate Hd.
Qed.

Lemma not_null_exclusive (f g : string -> option object) (lines : list string) :
  (forall line, f line = None \/ g line = None) ->
  (List.length (not_null (map f lines)) + List.length (not_null (map g lines))
   <= List.length lines)%nat.
Proof.
  intros H. induction lines as [|l lines IH]; simpl; [lia|].
  destruct (H l) as [E|E]; rewrite E.
  - destruct (g l); simpl; lia.
  - destruct (f l); simpl; lia.
Qed.

(** No line is accepted by both parsers (one the nginx pattern matches ends
    in a double quote, one the Apache pattern matches ends in a digit), so
    the entries a content gives under the selector nginx and those it gives
    under the selector apache come from different lines: together they are
    no more than the non-blank lines. *)
Theorem nginx_apache_entries_disjoint
    (JSON_parse : string -> json_result) (content : string) :
  (forall line, parseNginxLine line = None \/ parseApacheLine line = None)
  /\ (ParsedLog.parsedEntries (parse_content JSON_parse content "nginx")
      + ParsedLog.parsedEntries (parse_content JSON_parse content "apache")
      <= ParsedLog.totalLines (parse_content JSON_parse content "text"))%nat.
Proof.
  split; [exact nginx_apache_exclusive|].
  unfold parse_content. cbn [String.eqb Ascii.eqb Bool.eqb ParsedLog.parsedEntries
                             ParsedLog.totalLines].
  apply not_null_exclusive. intros line. unfold parse_line. simpl.
  apply nginx_apache_exclusive.
Qed.

(** ** Detection and parsing agree *)

Lemma greedy_plus_succeeded (class : ascii -> bool) (captured : bool)
    (rest1 rest2 : string -> option (list string)) :
  (forall s, rest2 s = succeeded (rest1 s)) ->
  forall s seen1 seen2,
    greedy_plus class false rest2 s seen2
    = succeeded (greedy_plus class captured rest1 s seen1).
Proof.
  intros H. induction s as [|c s IH]; intros seen1 seen2; simpl; [reflexivity|].
  destruct (class c); [|reflexivity].
  rewrite (IH (snoc seen1 c) (snoc seen2 c)).
  destruct (greedy_plus class captured rest1 s (snoc seen1 c)); [reflexivity|].
  rewrite H. destruct (rest1 s); reflexivity.
Qed.

Lemma exactly_succeeded (class : ascii -> bool) (captured : bool)
    (rest1 rest2 : string -> option (list string)) :
  (forall s, rest2 s = succeeded (rest1 s)) ->
  forall n s seen1 seen2,
    exactly class false rest2 n s seen2
    = succeeded (exactly class captured rest1 n s seen1).
Proof.
  intros H. induction n as [|n IH]; intros s seen1 seen2; simpl.
  - rewrite H. destruct (rest1 s); reflexivity.
  - destruct s as [|c s]; [reflexivity|]. destruct (class c); [|reflexivity].
    apply IH.
Qed.

Lemma lazy_star_succeeded (class : ascii -> bool) (captured : bool)
    (rest1 rest2 : string -> option (list string)) :
  (forall s, rest2 s = succeeded (rest1 s)) ->
  forall s seen1 seen2,
    lazy_star class false rest2 s seen2
    = succeeded (lazy_star class captured rest1 s seen1).
Proof.
  intros H. induction s as [|c s IH]; intros seen1 seen2; simpl.
  - rewrite H. destruct (rest1 EmptyString); reflexivity.
  - rewrite H. destruct (rest1 (String c s)); simpl; [reflexivity|].
    destruct (class c); [|reflexivity]. apply IH.
Qed.

(** A pattern matches the same strings with and without its groups. *)
Lemma exec_uncapture (r : regex) :
  forall s, exec (uncapture r) s = succeeded (exec r s).
Proof.
  induction r as [|node r IH]; intros s.
  - destruct s; reflexivity.
  - destruct node as [c|captured q class]; simpl.
    + destruct s as [|c' s]; [reflexivity|].
      destruct (Ascii.eqb c c'); [apply IH|reflexivity].
    + destruct q as [|n|].
      * apply greedy_plus_succeeded, IH.
      * apply exactly_succeeded, IH.
      * apply lazy_star_succeeded, IH.
Qed.

Lemma test_nginxPattern (line : string) :
  test nginxPattern line = true <-> parseNginxLine line <> None.
Proof.
  unfold test, nginxPattern, parseNginxLine.
  change (nginx_regex false) with (uncapture (nginx_regex true)).
  rewrite exec_uncapture.
  destruct (exec (nginx_regex true) line) as [groups|] eqn:E; simpl.
  - destruct (nginx_groups_fields _ _ E)
      as (g1 & g2 & g3 & g4 & g5 & g6 & g7 & g8 & g9 & g10 & g11 & -> & _).
    split; [discriminate|reflexivity].
  - split; [discriminate|congruence].
Qed.

Lemma test_apachePattern (line : string) :
  test apachePattern line = true <-> parseApacheLine line <> None.
Proof.
  unfold test, apachePattern, parseApacheLine.
  change (apache_regex false) with (uncapture (apache_regex true)).
  rewrite exec_uncapture.
  destruct (exec (apache_regex true) line) as [groups|] eqn:E; simpl.
  - destruct (apache_groups_fields _ _ E)
      as (g1 & g2 & g3 & g4 & g5 & g6 & g7 & g8 & g9 & -> & _).
    split; [discriminate|reflexivity].
  - split; [discriminate|congruence].
Qed.

Lemma find_hd_filter {A : Type} (p : A -> bool) (l : list A) (x : A) :
  find p l = Some x -> exists rest, filter p l = x :: rest.
Proof.
  rewrite <- hd_filter_find. destruct (filter p l) as [|y rest]; simpl;
    [discriminate|].
  intros [= ->]. exists rest. reflexivity.
Qed.

(** Under the selector auto the format of the result is one of the four
    formats, and a content detected as nginx or apache has at least one
    entry: its first non-blank line is parsed, and the record of that line is
    the first entry. *)
Theorem auto_detected_first_line
    (JSON_parse : string -> json_result) (content : string) :
  let parsed := parse_content JSON_parse content "auto" in
  In (ParsedLog.format parsed) formats
  /\ (ParsedLog.format parsed = "nginx" \/ ParsedLog.format parsed = "apache" ->
      exists line entry,
        first_non_blank_line content = Some line
        /\ parse_line JSON_parse (ParsedLog.format parsed) line = Some entry
        /\ hd_error (ParsedLog.entries parsed) = Some entry).
Proof.
  cbv zeta. unfold parse_content. simpl String.eqb. cbn iota.
  cbn [ParsedLog.format ParsedLog.entries].
  rewrite detectFormat_classify, non_blank_lines_spec.
  destruct (first_non_blank_line content) as [line|] eqn:F.
  - unfold first_non_blank_line in F.
    destruct (find_hd_filter _ _ _ F) as (rest & ->).
    unfold classify_line. destruct (JSON_parse line) eqn:J.
    + destruct (test nginxPattern line) eqn:N;
        [|destruct (test apachePattern line) eqn:A].
      * split; [simpl; tauto|]. intros _.
        apply test_nginxPattern in N.
        destruct (parseNginxLine line) as [entry|] eqn:P; [|congruence].
        exists line, entry. change (parse_line JSON_parse "nginx") with parseNginxLine.
        cbn [map not_null]. rewrite P. repeat split; reflexivity.
      * split; [simpl; tauto|]. intros _.
        apply test_apachePattern in A.
        destruct (parseApacheLine line) as [entry|] eqn:P; [|congruence].
        exists line, entry. change (parse_line JSON_parse "apache") with parseApacheLine.
        cbn [map not_null]. rewrite P. repeat split; reflexivity.
      * split; [simpl; tauto|]. intros [H|H]; discriminate H.
    + split; [simpl; tauto|]. intros [H|H]; discriminate H.
    + split; [simpl; tauto|]. intros [H|H]; discriminate H.
  - split; [simpl; tauto|]. intros [H|H]; discriminate H.
Qed.

Lemma auto_detected_first_line_witness :
  let parsed := parse_content no_json nginxLog "auto" in
  ParsedLog.format parsed = "nginx"
  /\ exists line entry,
       first_non_blank_line nginxLog = Some line
       /\ parse_line no_json (ParsedLog.format parsed) line = Some entry
       /\ hd_error (ParsedLog.entries parsed) = Some entry.
Proof.
  cbv zeta.
  assert (H : ParsedLog.format (parse_content no_json nginxLog "auto") = "nginx")
    by (vm_compute; reflexivity).
  split; [exact H|].
  exact (proj2 (auto_detected_first_line no_json nginxLog) (or_introl H)).
Defined.

(** * Decimal numerals *)

Lemma digits_value_of_uint_acc (d : Decimal.uint) (acc : positive) :
  digits_value (Z.pos acc) (NilEmpty.string_of_uint d)
  = Z.pos (Pos.of_uint_acc d acc).
Proof.
  revert acc. induction d; intros acc; cbn [NilEmpty.string_of_uint digits_value Pos.of_uint_acc];
    [reflexivity|..]; rewrite <- IHd; f_equal;
    match goal with |- context [digit_value ?c] =>
      let v := eval vm_compute in (digit_value c) in
      change (digit_value c) with v
    end; lia.
Qed.

Lemma digits_value_of_uint (d : Decimal.uint) :
  digits_value 0 (NilEmpty.string_of_uint d) = Z.of_N (Pos.of_uint d).
Proof.
  induction d; simpl; try reflexivity; try exact IHd;
    apply (digits_value_of_uint_acc d).
Qed.

Lemma all_digits_of_uint (d : Decimal.uint) :
  all_digits (NilEmpty.string_of_uint d) = true.
Proof. induction d; simpl; auto. Qed.

Lemma prefix_in_all (class : ascii -> bool) (s : string) :
  all_in class s = true -> prefix_in class s = s.
Proof.
  induction s as [|c s IH]; simpl; [reflexivity|].
  destruct (class c); simpl; [|discriminate]. intros H. now rewrite IH.
Qed.

Lemma is_digit_not_x (c : ascii) :
  is_digit c = true -> Ascii.eqb c "x" || Ascii.eqb c "X" = false.
Proof.
  destruct c as [[] [] [] [] [] [] [] []]; vm_compute; congruence.
Qed.

Lemma parseInt_magnitude_digits (s : string) :
  all_digits s = true -> s <> EmptyString ->
  parseInt_magnitude s = Some (digits_value 0 s).
Proof.
  intros D N.
  assert (L : leading_number is_digit digits_value s = Some (digits_value 0 s)).
  { unfold leading_number. rewrite (prefix_in_all _ _ D).
    destruct s; [congruence|reflexivity]. }
  unfold parseInt_magnitude. destruct s as [|c s]; [congruence|].
  destruct s as [|x s]; [destruct c as [[] [] [] [] [] [] [] []]; exact L|].
  assert (X : Ascii.eqb x "x" || Ascii.eqb x "X" = false).
  { apply is_digit_not_x. unfold all_digits in D. simpl in D.
    apply andb_prop in D. destruct D as [_ D].
    apply andb_prop in D. tauto. }
  rewrite X. destruct c as [[] [] [] [] [] [] [] []]; exact L.
Qed.

Lemma to_uint_nonempty (p : positive) :
  NilEmpty.string_of_uint (Pos.to_uint p) <> EmptyString.
Proof.
  intros E. pose proof (DecimalPos.Unsigned.of_to p) as H.
  destruct (Pos.to_uint p); try discriminate E. discriminate H.
Qed.

Lemma string_of_Z_pos (p : positive) :
  string_of_Z (Z.pos p) = NilEmpty.string_of_uint (Pos.to_uint p).
Proof.
  unfold string_of_Z. simpl. pose proof (DecimalPos.Unsigned.of_to p) as H.
  destruct (Pos.to_uint p); try reflexivity. discriminate H.
Qed.

Lemma string_of_Z_neg (p : positive) :
  string_of_Z (Z.neg p) = String "-" (string_of_Z (Z.pos p)).
Proof.
  rewrite string_of_Z_pos. unfold string_of_Z. simpl.
  pose proof (DecimalPos.Unsigned.of_to p) as H.
  destruct (Pos.to_uint p); try reflexivity. discriminate H.
Qed.

Lemma parseInt_magnitude_pos (p : positive) :
  parseInt_magnitude (string_of_Z (Z.pos p)) = Some (Z.pos p).
Proof.
  rewrite string_of_Z_pos, parseInt_magnitude_digits.
  - rewrite digits_value_of_uint, DecimalPos.Unsigned.of_to. reflexivity.
  - apply all_digits_of_uint.
  - apply to_uint_nonempty.
Qed.

(** A decimal numeral starts with a digit or the sign and ends with a
    digit. *)
Definition numeral_start (c : ascii) : bool := is_digit c || Ascii.eqb c "-".

Lemma string_of_Z_pos_head (p : positive) :
  exists c s, string_of_Z (Z.pos p) = String c s
              /\ is_digit c = true /\ all_digits s = true.
Proof.
  rewrite string_of_Z_pos.
  pose proof (all_digits_of_uint (Pos.to_uint p)) as D.
  pose proof (to_uint_nonempty p) as N.
  destruct (NilEmpty.string_of_uint (Pos.to_uint p)) as [|c s]; [congruence|].
  unfold all_digits in D. simpl in D. apply andb_prop in D.
  exists c, s. tauto.
Qed.

Lemma digit_plain (c : ascii) :
  is_digit c = true ->
  is_white_space c = false /\ Ascii.eqb c "-" = false
  /\ Ascii.eqb c "+" = false /\ Ascii.eqb c "," = false
  /\ Ascii.eqb c LF = false /\ Ascii.eqb c ":" = false.
Proof.
  destruct c as [[] [] [] [] [] [] [] []]; vm_compute; intuition congruence.
Qed.

Lemma parseInt_text_string_of_Z (z : Z) :
  parseInt_text (string_of_Z z) = Some z.
Proof.
  destruct z as [|p|p].
  - reflexivity.
  - pose proof (parseInt_magnitude_pos p) as M.
    destruct (string_of_Z_pos_head p) as (c & s & E & Dc & _).
    unfold parseInt_text. rewrite E in *. simpl.
    destruct (digit_plain c Dc) as (W & Mi & Pl & _). rewrite W.
    destruct c as [[] [] [] [] [] [] [] []]; try exact M; discriminate.
  - rewrite string_of_Z_neg. unfold parseInt_text. simpl.
    rewrite parseInt_magnitude_pos. reflexivity.
Qed.

Lemma string_of_Z_injective (a b : Z) :
  string_of_Z a = string_of_Z b -> a = b.
Proof.
  intros E. pose proof (parseInt_text_string_of_Z a) as A.
  rewrite E, parseInt_text_string_of_Z in A. congruence.
Qed.

(** On a run of digits the two readings of [parseInt] agree. *)
Lemma parseInt_text_digits (s : string) (n : Z) :
  parseInt s = Some n -> parseInt_text s = Some n.
Proof.
  unfold parseInt. destruct s as [|c s]; [discriminate|].
  destruct (all_digits (String c s)) eqn:D; [|discriminate].
  intros H.
  assert (E : Some n = parseInt_magnitude (String c s))
    by (rewrite (parseInt_magnitude_digits _ D) by discriminate; congruence).
  rewrite E. clear H E.
  unfold all_digits in D. simpl in D. apply andb_prop in D. destruct D as [Dc _].
  unfold parseInt_text. cbn [trimStart]. rewrite (proj1 (digit_plain c Dc)).
  destruct c as [[] [] [] [] [] [] [] []]; try reflexivity; discriminate.
Qed.

(** * The time tables *)

Lemma numeral_not_inherited (c : ascii) (s : string) :
  numeral_start c = true -> inherited (String c s) = false.
Proof.
  destruct c as [[] [] [] [] [] [] [] []]; vm_compute; congruence.
Qed.

Lemma string_of_Z_head (z : Z) :
  exists c s, string_of_Z z = String c s /\ numeral_start c = true
              /\ all_digits s = true.
Proof.
  destruct z as [|p|p].
  - exists "0"%char, EmptyString. repeat split.
  - destruct (string_of_Z_pos_head p) as (c & s & E & Dc & Ds).
    exists c, s. unfold numeral_start. rewrite Dc. auto.
  - rewrite string_of_Z_neg.
    destruct (string_of_Z_pos_head p) as (c & s & E & Dc & Ds).
    exists "-"%char, (String c s). rewrite E. repeat split.
    unfold all_digits. simpl. rewrite Dc. exact Ds.
Qed.

Lemma string_of_Z_not_inherited (z : Z) : inherited (string_of_Z z) = false.
Proof.
  destruct (string_of_Z_head z) as (c & s & -> & H & _).
  now apply numeral_not_inherited.
Qed.

Lemma minute_key_not_inherited (h m : Z) : inherited (minute_key h m) = false.
Proof.
  unfold minute_key. destruct (string_of_Z_head h) as (c & s & -> & H & _).
  simpl. now apply numeral_not_inherited.
Qed.

Lemma calculateTimeStats_folds (Date_local : value -> option (Z * Z))
    (entries : list object) :
  calculateTimeStats Date_local entries
  = TimeStats.make
      (fold_left (fun counts key => increment key counts)
         (map (fun t => string_of_Z (fst t)) (clocks Date_local entries)) [])
      (fold_left (fun counts key => increment key counts)
         (map (fun t => minute_key (fst t) (snd t)) (clocks Date_local entries))
         []).
Proof.
  unfold calculateTimeStats. generalize (@nil (string * value)) at 1 3.
  generalize (@nil (string * value)).
  induction entries as [|e entries IH]; intros b a; simpl; [reflexivity|].
  unfold clock. destruct (truthy (get e "timestamp")); [|apply IH].
  destruct (Date_local (get e "timestamp")) as [[h m]|]; [|apply IH].
  simpl. apply IH.
Qed.

Lemma count_cons {A : Type} (p : A -> bool) (x : A) (l : list A) :
  count p (x :: l) = (if p x then 1 else 0) + count p l.
Proof.
  unfold count. simpl. destruct (p x); simpl List.length; lia.
Qed.

Lemma string_of_Z_eqb (a b : Z) :
  String.eqb (string_of_Z a) (string_of_Z b) = (b =? a).
Proof.
  destruct (String.eqb_spec (string_of_Z a) (string_of_Z b)) as [E|N].
  - apply string_of_Z_injective in E. subst. symmetry. apply Z.eqb_refl.
  - symmetry. apply Z.eqb_neq. intros ->. now apply N.
Qed.

Lemma occurrences_hour (Date_local : value -> option (Z * Z)) (h : Z)
    (entries : list object) :
  occurrences (string_of_Z h)
    (map (fun t => string_of_Z (fst t)) (clocks Date_local entries))
  = count (at_hour Date_local h) entries.
Proof.
  induction entries as [|e entries IH]; [reflexivity|].
  rewrite count_cons. unfold at_hour at 1. simpl.
  destruct (clock Date_local e) as [[h' m']|]; [|rewrite IH; lia].
  simpl map. rewrite occurrences_cons, IH. simpl fst.
  now rewrite string_of_Z_eqb.
Qed.

Lemma all_in_impl (p q : ascii -> bool) (s : string) :
  (forall c, p c = true -> q c = true) ->
  all_in p s = true -> all_in q s = true.
Proof.
  intros I. induction s as [|c s IH]; simpl; [reflexivity|].
  intros H. apply andb_prop in H. destruct H as [Hc Hs].
  rewrite (I c Hc). now apply IH.
Qed.

Lemma numeral_start_plain (c : ascii) :
  numeral_start c = true ->
  is_white_space c = false /\ Ascii.eqb c "," = false
  /\ Ascii.eqb c LF = false /\ Ascii.eqb c ":" = false.
Proof.
  destruct c as [[] [] [] [] [] [] [] []]; vm_compute; intuition congruence.
Qed.

Lemma string_of_Z_no (x : ascii) (z : Z) :
  numeral_start x = false ->
  all_in (fun c => negb (Ascii.eqb c x)) (string_of_Z z) = true.
Proof.
  intros X.
  assert (N : forall c, numeral_start c = true -> negb (Ascii.eqb c x) = true).
  { intros c H. destruct (Ascii.eqb_spec c x); [congruence|reflexivity]. }
  destruct (string_of_Z_head z) as (c & s & -> & H & D). simpl.
  rewrite (N c H). simpl. revert D. apply all_in_impl.
  intros d Hd. apply N. unfold numeral_start. now rewrite Hd.
Qed.

Lemma append_separator_injective (x : ascii) (a a' b b' : string) :
  all_in (fun c => negb (Ascii.eqb c x)) a = true ->
  all_in (fun c => negb (Ascii.eqb c x)) a' = true ->
  (a ++ String x b)%string = (a' ++ String x b')%string ->
  a = a' /\ b = b'.
Proof.
  revert a'. induction a as [|c a IH]; intros [|c' a']; simpl; intros H H' E.
  - injection E as ->. auto.
  - injection E as <- _. rewrite Ascii.eqb_refl in H'. discriminate.
  - injection E as -> _. rewrite Ascii.eqb_refl in H. discriminate.
  - injection E as -> E. apply andb_prop in H, H'.
    destruct (IH a' (proj2 H) (proj2 H') E) as [-> ->]. auto.
Qed.

Lemma parseInt_text_zero_digit (c : ascii) :
  is_digit c = true ->
  parseInt_text (String "0" (String c EmptyString))
  = parseInt_text (String c EmptyString).
Proof.
  destruct c as [[] [] [] [] [] [] [] []]; vm_compute; congruence.
Qed.

Lemma padStart2_numeral_injective (m m' : Z) :
  padStart2 (string_of_Z m) = padStart2 (string_of_Z m') -> m = m'.
Proof.
  assert (P : forall a b c,
             string_of_Z a = String c EmptyString ->
             string_of_Z b = String "0" (String c EmptyString) -> a = b).
  { intros a b c Ea Eb.
    pose proof (parseInt_text_string_of_Z a) as A.
    pose proof (parseInt_text_string_of_Z b) as B.
    rewrite Ea in A. rewrite Eb in B.
    destruct (string_of_Z_head a) as (c0 & s0 & E0 & H0 & _).
    rewrite Ea in E0. injection E0 as <- <-.
    unfold numeral_start in H0. apply orb_prop in H0. destruct H0 as [D|D].
    - rewrite (parseInt_text_zero_digit c D) in B. congruence.
    - apply Ascii.eqb_eq in D. subst c. discriminate A. }
  destruct (string_of_Z_head m) as (c & s & E & _ & _).
  destruct (string_of_Z_head m') as (c' & s' & E' & _ & _).
  rewrite E, E'. unfold padStart2.
  destruct s as [|d s], s' as [|d' s']; simpl; intros H.
  - injection H as ->. apply string_of_Z_injective. congruence.
  - rewrite <- H in E'. symmetry in E'. injection H as _ _ H. subst s'.
    exact (P m m' c E ltac:(congruence)).
  - rewrite H in E. injection H as _ _ H. subst s.
    symmetry. exact (P m' m c' E' ltac:(congruence)).
  - apply string_of_Z_injective. congruence.
Qed.

Lemma minute_key_injective (h m h' m' : Z) :
  minute_key h m = minute_key h' m' -> h = h' /\ m = m'.
Proof.
  unfold minute_key. simpl. intros E.
  apply append_separator_injective in E;
    try (apply string_of_Z_no; reflexivity).
  destruct E as [Eh Em]. split.
  - now apply string_of_Z_injective.
  - now apply padStart2_numeral_injective.
Qed.

Lemma minute_key_eqb (h m h' m' : Z) :
  String.eqb (minute_key h m) (minute_key h' m') = (h' =? h) && (m' =? m).
Proof.
  destruct (String.eqb_spec (minute_key h m) (minute_key h' m')) as [E|N].
  - apply minute_key_injective in E. destruct E as [-> ->].
    now rewrite !Z.eqb_refl.
  - symmetry. apply andb_false_iff.
    destruct (Z.eqb_spec h' h) as [->|]; [|now left].
    destruct (Z.eqb_spec m' m) as [->|]; [|now right].
    now contradiction N.
Qed.

Lemma occurrences_minute (Date_local : value -> option (Z * Z)) (h m : Z)
    (entries : list object) :
  occurrences (minute_key h m)
    (map (fun t => minute_key (fst t) (snd t)) (clocks Date_local entries))
  = count (at_minute Date_local h m) entries.
Proof.
  induction entries as [|e entries IH]; [reflexivity|].
  rewrite count_cons. unfold at_minute at 1. simpl.
  destruct (clock Date_local e) as [[h' m']|]; [|rewrite IH; lia].
  simpl map. rewrite occurrences_cons, IH. simpl fst. simpl snd.
  now rewrite minute_key_eqb.
Qed.

Lemma length_clocks (Date_local : value -> option (Z * Z))
    (entries : list object) :
  Z.of_nat (List.length (clocks Date_local entries))
  = count (timed Date_local) entries.
Proof.
  induction entries as [|e entries IH]; [reflexivity|].
  rewrite count_cons. unfold timed at 1. simpl.
  destruct (clock Date_local e); [|rewrite IH; lia].
  cbn [List.length]. lia.
Qed.

Lemma positive_counts_nil : positive_counts [].
Proof. apply Forall_nil. Qed.

Lemma fold_increment_positive (l : list string) :
  Forall (fun k => inherited k = false) l ->
  forall o, positive_counts o ->
    positive_counts (fold_left (fun counts key => increment key counts) l o).
Proof.
  induction 1 as [|k l Hk _ IH]; intros o P; simpl; [exact P|].
  apply IH. now apply increment_sum_counts.
Qed.

(** What the two tables of [calculateTimeStats] hold: under the decimal
    numeral of an hour, the number of entries whose timestamp is truthy and
    read by [Date] as a local time of that hour; under [h:mm], the minute
    in two digits, the number of those read as the local time [h]:[mm]; no
    property for a count of 0. *)
Theorem calculateTimeStats_counts (Date_local : value -> option (Z * Z))
    (entries : list object) (h m : Z) :
  own (string_of_Z h) (TimeStats.hour (calculateTimeStats Date_local entries))
  = tallied (count (at_hour Date_local h) entries)
  /\ own (minute_key h m)
       (TimeStats.minute (calculateTimeStats Date_local entries))
     = tallied (count (at_minute Date_local h m) entries).
Proof.
  rewrite calculateTimeStats_folds. cbn [TimeStats.hour TimeStats.minute].
  split.
  - rewrite (own_fold_increment _ _ (string_of_Z_not_inherited h) [] 0);
      [|lia|reflexivity].
    now rewrite occurrences_hour.
  - rewrite (own_fold_increment _ _ (minute_key_not_inherited h m) [] 0);
      [|lia|reflexivity].
    now rewrite occurrences_minute.
Qed.

(** Each of the two tables of [calculateTimeStats] holds positive counts
    that add up to the number of entries with a timestamp [Date] can read:
    an entry without one is in neither table, every other entry is counted
    once in each. *)
Theorem calculateTimeStats_totals (Date_local : value -> option (Z * Z))
    (entries : list object) :
  let timeStats := calculateTimeStats Date_local entries in
  positive_counts (TimeStats.hour timeStats)
  /\ positive_counts (TimeStats.minute timeStats)
  /\ sum_counts (TimeStats.hour timeStats) = count (timed Date_local) entries
  /\ sum_counts (TimeStats.minute timeStats) = count (timed Date_local) entries.
Proof.
  cbv zeta. rewrite calculateTimeStats_folds.
  cbn [TimeStats.hour TimeStats.minute].
  assert (Hh : Forall (fun k => inherited k = false)
                 (map (fun t : Z * Z => string_of_Z (fst t))
                    (clocks Date_local entries))).
  { apply Forall_forall. intros k Hk. apply in_map_iff in Hk.
    destruct Hk as (t & <- & _). apply string_of_Z_not_inherited. }
  assert (Hm : Forall (fun k => inherited k = false)
                 (map (fun t : Z * Z => minute_key (fst t) (snd t))
                    (clocks Date_local entries))).
  { apply Forall_forall. intros k Hk. apply in_map_iff in Hk.
    destruct Hk as (t & <- & _). apply minute_key_not_inherited. }
  split; [exact (fold_increment_positive _ Hh [] positive_counts_nil)|].
  split; [exact (fold_increment_positive _ Hm [] positive_counts_nil)|].
  rewrite (fold_increment_sum_counts _ Hh [] positive_counts_nil).
  rewrite (fold_increment_sum_counts _ Hm [] positive_counts_nil).
  rewrite !length_map, length_clocks. simpl. auto.
Qed.

(** * The status table and the status filter *)

Lemma occurrences_map {A : Type} (k : string) (f : A -> string) (l : list A) :
  occurrences k (map f l) = count (fun x => String.eqb k (f x)) l.
Proof.
  induction l as [|x l IH]; [reflexivity|].
  simpl map. rewrite occurrences_cons, count_cons, IH. reflexivity.
Qed.

Lemma count_ext {A : Type} (p q : A -> bool) (l : list A) :
  Forall (fun x => p x = q x) l -> count p l = count q l.
Proof.
  intros H. unfold count. f_equal. f_equal. apply filter_ext_in.
  now apply Forall_forall.
Qed.

Lemma count_none {A : Type} (p : A -> bool) (l : list A) :
  (forall x, p x = false) -> count p l = 0.
Proof.
  intros H. induction l as [|x l IH]; [reflexivity|].
  rewrite count_cons, H, IH. reflexivity.
Qed.

Lemma count_nonneg {A : Type} (p : A -> bool) (l : list A) : 0 <= count p l.
Proof. unfold count. lia. Qed.

Lemma table_count_aggregate (entries : list object) (field key : string) :
  inherited key = false ->
  table_count key (aggregateByField entries field)
  = count (fun entry => String.eqb key (bucket field entry)) entries.
Proof.
  intros I. unfold table_count.
  rewrite aggregateByField_fold, (own_fold_increment _ _ I [] 0);
    [|lia|reflexivity].
  rewrite occurrences_map. simpl. unfold tallied.
  destruct (Z.eqb_spec (count (fun x => String.eqb key (bucket field x)) entries) 0)
    as [->|]; reflexivity.
Qed.

Lemma numeral_head (z : Z) (c : ascii) (s : string) :
  string_of_Z z = String c s -> numeral_start c = true.
Proof.
  destruct (string_of_Z_head z) as (c' & s' & -> & H & _).
  intros [= <- _]. exact H.
Qed.

Lemma bucket_status_numeral (c : Z) (entry : object) :
  status_is_safe entry = true ->
  String.eqb (string_of_Z c) (bucket "status" entry)
  = status_nonzero_in [c] entry.
Proof.
  unfold status_is_safe, bucket, status_nonzero_in. rewrite get_status.
  assert (N : forall x s, numeral_start x = false ->
                String.eqb (string_of_Z c) (String x s) = false).
  { intros x s H. apply String.eqb_neq. intros E.
    apply numeral_head in E. congruence. }
  destruct (own "status" entry) as [[| |[]|n| |s|name|]|]; intros T;
    try discriminate T; try (apply N; reflexivity).
  unfold or_else. simpl truthy. simpl existsb.
  destruct (Z.eqb_spec n 0) as [->|Hn]; simpl.
  - apply N. reflexivity.
  - rewrite string_of_Z_eqb. now rewrite orb_false_r.
Qed.

Lemma status_nonzero_in_cons (c : Z) (statusCodes : list Z) (entry : object) :
  status_nonzero_in (c :: statusCodes) entry
  = status_nonzero_in [c] entry || status_nonzero_in statusCodes entry.
Proof.
  unfold status_nonzero_in.
  destruct (own "status" entry) as [[| | |n| | | |]|]; try reflexivity.
  simpl. destruct (n =? 0), (n =? c), (existsb (Z.eqb n) statusCodes);
    reflexivity.
Qed.

Lemma status_nonzero_in_disjoint (c : Z) (statusCodes : list Z)
    (entry : object) :
  ~ In c statusCodes ->
  status_nonzero_in [c] entry && status_nonzero_in statusCodes entry = false.
Proof.
  intros N. unfold status_nonzero_in.
  destruct (own "status" entry) as [[| | |n| | | |]|]; try reflexivity.
  simpl. destruct (Z.eqb_spec n c) as [->|]; simpl.
  - destruct (existsb (Z.eqb c) statusCodes) eqn:E.
    + apply existsb_exists in E. destruct E as (x & Hx & E).
      apply Z.eqb_eq in E. subst x. contradiction.
    + now rewrite !andb_false_r.
  - now rewrite !andb_false_r.
Qed.

Lemma filterByStatus_count (entries : list object) (statusCodes : list Z) :
  Z.of_nat (List.length (filterByStatus entries statusCodes))
  = count (status_nonzero_in statusCodes) entries.
Proof.
  unfold filterByStatus, count. f_equal. f_equal. apply filter_ext.
  intros e. apply filterByStatus_test.
Qed.

(** [filterByStatus] and the status table of [aggregateByField] agree: for
    safe integer codes listed once each, and entries each of which has no
    status or a safe integer for status (those of the two access-log
    parsers), the number of entries the filter selects is the total of the
    counts the table holds under the decimal numerals of the codes. *)
Theorem filterByStatus_table_total (entries : list object)
    (statusCodes : list Z) :
  NoDup statusCodes ->
  Forall (fun code => safe_integer code = true) statusCodes ->
  Forall (fun entry => status_is_safe entry = true) entries ->
  Z.of_nat (List.length (filterByStatus entries statusCodes))
  = total_under statusCodes (aggregateByField entries "status").
Proof.
  intros D _ T. rewrite filterByStatus_count.
  induction D as [|c codes Hc D IH]; simpl.
  - apply count_none. intros e. unfold status_nonzero_in.
    destruct (own "status" e) as [[| | |n| | | |]|]; try reflexivity.
    simpl. apply andb_false_r.
  - rewrite <- IH, (table_count_aggregate _ _ _ (string_of_Z_not_inherited c)).
    rewrite (count_ext
               (fun entry => String.eqb (string_of_Z c) (bucket "status" entry))
               (status_nonzero_in [c]) entries).
    + unfold count. rewrite <- Nat2Z.inj_add. f_equal.
      rewrite <- filter_length_disjoint.
      * f_equal. apply filter_ext. intros e. apply status_nonzero_in_cons.
      * intros e. now apply status_nonzero_in_disjoint.
    + revert T. apply Forall_impl. intros e. apply bucket_status_numeral.
Qed.

Lemma filterByStatus_table_total_witness :
  NoDup [404; 500]
  /\ Forall (fun code => safe_integer code = true) [404; 500]
  /\ Forall (fun entry => status_is_safe entry = true)
       (ParsedLog.entries parsed_nginxLog)
  /\ Z.of_nat
       (List.length (filterByStatus (ParsedLog.entries parsed_nginxLog) [404; 500]))
     = total_under [404; 500]
         (aggregateByField (ParsedLog.entries parsed_nginxLog) "status").
Proof.
  assert (D : NoDup [404; 500]).
  { repeat constructor; simpl; intuition discriminate. }
  assert (S : Forall (fun code => safe_integer code = true) [404; 500])
    by (apply Forall_of_forallb; reflexivity).
  assert (T : Forall (fun entry => status_is_safe entry = true)
                (ParsedLog.entries parsed_nginxLog))
    by (apply Forall_of_forallb; vm_compute; reflexivity).
  split; [exact D|]. split; [exact S|]. split; [exact T|].
  exact (filterByStatus_table_total _ _ D S T).
Defined.

Lemma own_fold_increment_source (k : string) (l : list string) (o : object) :
  own k (fold_left (fun counts key => increment key counts) l o) <> None ->
  own k o <> None \/ In k l.
Proof.
  revert o. induction l as [|a l IH]; intros o H; simpl in *; [now left|].
  destruct (IH _ H) as [H'|H']; [|now right; right].
  destruct (String.eqb_spec k a) as [->|N]; [now right; left|].
  left. now rewrite (own_increment_other _ _ o N) in H'.
Qed.

(** The status table of a selection.  For safe integer codes, every key
    of the table that [aggregateByField] builds by status from the entries
    [filterByStatus] selected is the decimal numeral of one of the codes
    asked for, and of none that is 0: the table of a selection has no key
    [unknown]. *)
Theorem selected_status_table (entries : list object) (statusCodes : list Z)
    (key : string) :
  Forall (fun code => safe_integer code = true) statusCodes ->
  own key (aggregateByField (filterByStatus entries statusCodes) "status")
  <> None ->
  exists code,
    In code statusCodes /\ safe_integer code = true /\ code <> 0
    /\ key = string_of_Z code.
Proof.
  intros S. rewrite aggregateByField_fold. intros H.
  apply own_fold_increment_source in H. destruct H as [H|H]; [now elim H|].
  apply in_map_iff in H. destruct H as (e & <- & He).
  unfold filterByStatus in He. apply filter_In in He. destruct He as [_ He].
  rewrite filterByStatus_test in He. unfold status_nonzero_in in He.
  unfold bucket. rewrite get_status.
  destruct (own "status" e) as [[| | |n| | | |]|]; try discriminate He.
  apply andb_prop in He. destruct He as [Hn Hc].
  apply existsb_exists in Hc. destruct Hc as (c & Hc & E).
  apply Z.eqb_eq in E. subst c. exists n. split; [exact Hc|].
  rewrite Forall_forall in S. split; [exact (S n Hc)|].
  unfold or_else. cbn [truthy]. rewrite Hn.
  apply negb_true_iff, Z.eqb_neq in Hn. split; [exact Hn|reflexivity].
Qed.

Lemma selected_status_table_witness :
  Forall (fun code => safe_integer code = true) [404; 500]
  /\ own "404"
       (aggregateByField
          (filterByStatus (ParsedLog.entries parsed_nginxLog) [404; 500])
          "status")
     <> None
  /\ exists code,
       In code [404; 500] /\ safe_integer code = true /\ code <> 0
       /\ "404" = string_of_Z code.
Proof.
  assert (S : Forall (fun code => safe_integer code = true) [404; 500])
    by (apply Forall_of_forallb; reflexivity).
  assert (H : own "404"
                (aggregateByField
                   (filterByStatus (ParsedLog.entries parsed_nginxLog) [404; 500])
                   "status")
              <> None) by (vm_compute; discriminate).
  split; [exact S|]. split; [exact H|].
  exact (selected_status_table _ _ _ S H).
Defined.

(** * The fields and the sections of the summary *)

Lemma fold_left_flat_map {A B C : Type} (f : A -> C -> A) (g : B -> list C)
    (l : list B) (a : A) :
  fold_left (fun acc x => fold_left f (g x) acc) l a
  = fold_left f (flat_map g l) a.
Proof.
  revert a. induction l as [|x l IH]; intros a; simpl; [reflexivity|].
  now rewrite fold_left_app, IH.
Qed.

(** [fieldsDetected] lists, without repetition and in the order of their
    first occurrence, the keys of the entries: a name is in the list exactly
    when some entry has a property of that name. *)
Theorem fieldsDetected_keys
    (Date_local : value -> option (Z * Z)) (parsed : ParsedLog.t) :
  let fields := Summary.fieldsDetected (generateSummary Date_local parsed) in
  fields = first_seen (flat_map keys (ParsedLog.entries parsed))
  /\ NoDup fields
  /\ forall key,
       In key fields
       <-> exists entry,
             In entry (ParsedLog.entries parsed) /\ own key entry <> None.
Proof.
  cbv zeta.
  assert (E : Summary.fieldsDetected (generateSummary Date_local parsed)
              = first_seen (flat_map keys (ParsedLog.entries parsed))).
  { unfold generateSummary.
    destruct (ParsedLog.entries parsed) as [|e entries]; [reflexivity|].
    cbn [Summary.fieldsDetected]. unfold first_seen.
    now rewrite <- fold_left_flat_map. }
  rewrite E. split; [reflexivity|]. split; [apply NoDup_first_seen|].
  intros key. rewrite In_first_seen, in_flat_map. split.
  - intros (entry & He & Hk). exists entry. split; [exact He|].
    unfold keys in Hk. apply in_map_iff in Hk. destruct Hk as ([k v] & <- & Hk).
    clear He. induction entry as [|[k' v'] entry IH]; [contradiction|].
    simpl. destruct (String.eqb_spec k k'); [discriminate|].
    destruct Hk as [[= -> ->]|Hk]; [congruence|]. now apply IH.
  - intros (entry & He & Hk). exists entry. split; [exact He|].
    clear He. unfold keys. induction entry as [|[k' v'] entry IH]; [now elim Hk|].
    simpl in *. destruct (String.eqb_spec key k'); [now left|].
    right. now apply IH.
Qed.

Lemma length_replace (k : string) (v : value) (o : object) :
  List.length (replace k v o) = List.length o.
Proof.
  induction o as [|[k' v'] o IH]; simpl; [reflexivity|].
  destruct (String.eqb k k'); simpl; congruence.
Qed.

Lemma length_insert_index (i : Z) (k : string) (v : value) (o : object) :
  List.length (insert_index i k v o) = S (List.length o).
Proof.
  induction o as [|[k' v'] o IH]; simpl; [reflexivity|].
  destruct (array_index k') as [j|]; [|reflexivity].
  destruct (j <? i); simpl; congruence.
Qed.

Lemma length_increment (k : string) (o : object) :
  (List.length (increment k o) <= S (List.length o))%nat.
Proof.
  unfold increment, put, define.
  destruct (own k o); [rewrite length_replace; lia|].
  destruct (String.eqb k "__proto__"); [lia|].
  destruct (array_index k).
  - rewrite length_insert_index. lia.
  - rewrite length_app. simpl. lia.
Qed.

Lemma length_aggregateByField (entries : list object) (field : string) :
  (List.length (aggregateByField entries field) <= List.length entries)%nat.
Proof.
  rewrite aggregateByField_fold, <- (length_map (bucket field) entries).
  assert (G : forall l o,
             (List.length
                (fold_left (fun counts key => increment key counts) l o)
              <= List.length l + List.length o)%nat).
  { induction l as [|k l IH]; intros o; simpl; [lia|].
    specialize (IH (increment k o)). pose proof (length_increment k o). lia. }
  specialize (G (map (bucket field) entries) []). simpl in G. lia.
Qed.

(** The sections of a summary.  The status section (the status table, the
    three error counts and the error rate) and the top paths are set
    together, exactly for the formats nginx and apache of a log with an
    entry; the time tables are set exactly when there is an entry.  The
    total is the number of entries, no error count exceeds it, and the top
    paths are at most ten and at most one per entry. *)
Theorem generateSummary_sections
    (Date_local : value -> option (Z * Z)) (parsed : ParsedLog.t) :
  let summary := generateSummary Date_local parsed in
  let some := negb (is_empty (ParsedLog.entries parsed)) in
  let access := is_access_log (ParsedLog.format parsed) && some in
  Summary.format summary = ParsedLog.format parsed
  /\ Summary.totalEntries summary = List.length (ParsedLog.entries parsed)
  /\ present (Summary.statusCounts summary) = access
  /\ present (Summary.errorCount summary) = access
  /\ present (Summary.errorRate summary) = access
  /\ present (Summary.clientErrors summary) = access
  /\ present (Summary.serverErrors summary) = access
  /\ present (Summary.topPaths summary) = access
  /\ present (Summary.timeStats summary) = some
  /\ (forall errors, Summary.errorCount summary = Some errors ->
        (errors <= Summary.totalEntries summary)%nat)
  /\ (forall paths, Summary.topPaths summary = Some paths ->
        (List.length paths <= 10)%nat
        /\ (List.length paths <= Summary.totalEntries summary)%nat).
Proof.
  cbv zeta. unfold generateSummary.
  destruct (ParsedLog.entries parsed) as [|e entries].
  - rewrite andb_false_r. cbn. repeat split; discriminate.
  - rewrite andb_true_r.
    cbn [Summary.format Summary.totalEntries Summary.statusCounts
         Summary.errorCount Summary.errorRate Summary.clientErrors
         Summary.serverErrors Summary.topPaths Summary.timeStats
         is_empty negb present].
    destruct (is_access_log (ParsedLog.format parsed)); cbn [only_if present].
    + do 9 (split; [reflexivity|]). split.
      * intros errors H.
        assert (E : errors
                    = List.length
                        (filterByStatus (e :: entries)
                           [400; 401; 403; 404; 500; 502; 503; 504]))
          by congruence.
        rewrite E. exact (filter_length_le _ (e :: entries)).
      * intros paths H.
        assert (E : paths
                    = firstn 10
                        (sort by_count_descending
                           (aggregateByField (e :: entries) "path")))
          by (unfold slice0, entries_of in H; congruence).
        rewrite E. split.
        -- apply firstn_le_length.
        -- rewrite length_firstn.
           pose proof (Permutation_length
                         (sort_permutation by_count_descending
                            (aggregateByField (e :: entries) "path"))) as P.
           pose proof (length_aggregateByField (e :: entries) "path") as L.
           lia.
    + repeat split; try reflexivity; discriminate.
Qed.

(** * Text logs *)

Lemma text_entries (JSON_parse : string -> json_result) (content : string) :
  ParsedLog.entries (parse_content JSON_parse content "text")
  = map raw_record (non_blank_lines content).
Proof.
  unfold parse_content. cbn [String.eqb Ascii.eqb Bool.eqb ParsedLog.entries].
  apply (not_null_map_Some raw_record).
Qed.

Lemma get_raw_record (line field : string) :
  field <> "raw" -> get (raw_record line) field = object_prototype_get field.
Proof.
  intros N. unfold get, raw_record. simpl.
  destruct (String.eqb_spec field "raw"); [contradiction|reflexivity].
Qed.

Lemma clocks_raw_records (Date_local : value -> option (Z * Z))
    (lines : list string) :
  clocks Date_local (map raw_record lines) = [].
Proof. induction lines as [|l lines IH]; [reflexivity|exact IH]. Qed.

Lemma fields_raw_records (lines : list string) (fields : list string) :
  In "raw" fields ->
  fold_left
    (fun fields entry => fold_left (fun s key => set_add key s) (keys entry) fields)
    (map raw_record lines) fields
  = fields.
Proof.
  intros H. induction lines as [|l lines IH]; [reflexivity|].
  simpl. unfold set_add at 2. rewrite (proj2 (mem_In "raw" fields) H).
  exact IH.
Qed.

(** The summary of a text log: the format, the number of non-blank lines and
    the one field [raw]; no status section and no top paths; both time
    tables empty, as no entry has a timestamp.  A content without a
    non-blank line gives the summary of no entry. *)
Theorem text_log_summary
    (JSON_parse : string -> json_result) (Date_local : value -> option (Z * Z))
    (content : string) :
  generateSummary Date_local (parse_content JSON_parse content "text")
  = match non_blank_lines content with
    | [] => Summary.make "text" 0 [] None None None None None None None
    | lines => plain_summary "text" (List.length lines) ["raw"]
    end.
Proof.
  unfold generateSummary. rewrite text_entries.
  change (ParsedLog.format (parse_content JSON_parse content "text"))
    with "text".
  destruct (non_blank_lines content) as [|l lines]; [reflexivity|].
  cbn [map]. change (is_access_log "text") with false. cbn [only_if].
  unfold plain_summary. f_equal.
  - cbn [List.length]. now rewrite length_map.
  - cbn [fold_left]. apply fields_raw_records. now left.
  - f_equal. rewrite calculateTimeStats_folds.
    change (raw_record l :: map raw_record lines)
      with (map raw_record (l :: lines)).
    now rewrite clocks_raw_records.
Qed.

Lemma increment_unknown (m : Z) :
  0 < m ->
  increment "unknown" [("unknown", VNum m)] = [("unknown", VNum (m + 1))].
Proof.
  intros H. unfold increment, put, get, or_else. simpl.
  destruct (Z.eqb_spec m 0); [lia|reflexivity].
Qed.

Lemma fold_increment_unknown (n : nat) (m : Z) :
  0 < m ->
  fold_left (fun counts key => increment key counts) (repeat "unknown" n)
    [("unknown", VNum m)]
  = [("unknown", VNum (m + Z.of_nat n))].
Proof.
  revert m. induction n as [|n IH]; intros m H.
  - simpl. now rewrite Z.add_0_r.
  - cbn [repeat fold_left]. rewrite (increment_unknown m H), IH; [|lia].
    do 3 f_equal. lia.
Qed.

Lemma bucket_raw_record (line field : string) :
  field <> "raw" -> inherited field = false ->
  bucket field (raw_record line) = "unknown".
Proof.
  intros N I. unfold bucket. rewrite (get_raw_record _ _ N).
  now rewrite (proj1 (not_inherited _ I)).
Qed.

(** A text log has no field but [raw].  Aggregated by any other field (one
    that names no property of [Object.prototype]) its entries all count
    under [unknown]; no status code selects any of them; and a pattern
    tested against such a field matches none of them. *)
Theorem text_log_has_no_field
    (JSON_parse : string -> json_result)
    (RegExp : Type) (RegExp_i : string -> option RegExp)
    (RegExp_test : RegExp -> string -> bool)
    (content field pattern : string) (statusCodes : list Z) :
  field <> "raw" -> field <> EmptyString -> inherited field = false ->
  let entries :=
    ParsedLog.entries (parse_content JSON_parse content "text") in
  aggregateByField entries field
  = (if is_empty entries then []
     else [("unknown", VNum (Z.of_nat (List.length entries)))])
  /\ filterByStatus entries statusCodes = []
  /\ filterEntries RegExp RegExp_i RegExp_test entries pattern (Some field)
     = match RegExp_i pattern with
       | Some _ => Return []
       | None => ThrowSyntaxError
       end.
Proof.
  intros N E I. cbv zeta. rewrite text_entries.
  set (lines := non_blank_lines content). split; [|split].
  - rewrite aggregateByField_fold, map_map.
    rewrite (map_ext _ (fun _ => "unknown"))
      by (intros l; now apply bucket_raw_record).
    rewrite map_const, !length_map.
    destruct lines as [|l lines]; [reflexivity|].
    cbn [List.length repeat fold_left is_empty map].
    change (increment "unknown" []) with [("unknown", VNum 1)].
    rewrite fold_increment_unknown by lia. do 3 f_equal. lia.
  - unfold filterByStatus.
    induction lines as [|l lines IH]; [reflexivity|exact IH].
  - unfold filterEntries. destruct (RegExp_i pattern) as [regex|]; [|reflexivity].
    f_equal. destruct field as [|c field]; [congruence|].
    cbn [truthy String.eqb negb].
    induction lines as [|l lines IH]; [reflexivity|].
    cbn [map filter]. rewrite (get_raw_record _ _ N).
    rewrite (proj1 (not_inherited _ I)). exact IH.
Qed.

Lemma text_log_has_no_field_witness :
  let entries := ParsedLog.entries (parse_content no_json textLog "text") in
  aggregateByField entries "status" = [("unknown", VNum 5)]
  /\ filterByStatus entries [404; 500] = []
  /\ filterEntries unit (fun _ => Some tt) (fun _ _ => true)
       entries "error" (Some "status")
     = Return [].
Proof.
  cbv zeta.
  assert (N : "status" <> "raw") by discriminate.
  assert (E : "status" <> EmptyString) by discriminate.
  assert (I : inherited "status" = false) by reflexivity.
  destruct (text_log_has_no_field no_json unit (fun _ => Some tt)
              (fun _ _ => true) textLog "status" "error" [404; 500] N E I)
    as (A & B & C).
  split; [|split; [exact B|exact C]].
  rewrite A. vm_compute. reflexivity.
Defined.

(** * Order of the entries, and filters in sequence *)

Lemma count_permutation {A : Type} (p : A -> bool) (l l' : list A) :
  Permutation l l' -> count p l = count p l'.
Proof.
  induction 1 as [|x l l' _ IH|x y l|l l' l'' _ IH1 _ IH2].
  - reflexivity.
  - now rewrite !count_cons, IH.
  - rewrite !count_cons. lia.
  - congruence.
Qed.

(** The counts do not depend on the order of the entries: two lists with
    the same entries give tables that hold the same count under every key
    that names no property of [Object.prototype], and [filterByStatus]
    selects as many entries from one as from the other. *)
Theorem counts_order_free (entries entries' : list object)
    (field key : string) (statusCodes : list Z) :
  Permutation entries entries' ->
  inherited key = false ->
  own key (aggregateByField entries field)
  = own key (aggregateByField entries' field)
  /\ List.length (filterByStatus entries statusCodes)
     = List.length (filterByStatus entries' statusCodes).
Proof.
  intros P I. split.
  - rewrite !aggregateByField_fold.
    rewrite !(own_fold_increment _ _ I [] 0) by (lia || reflexivity).
    rewrite !occurrences_map. now rewrite (count_permutation _ _ _ P).
  - apply Nat2Z.inj. rewrite !filterByStatus_count.
    now apply count_permutation.
Qed.

Lemma counts_order_free_witness :
  let entries := ParsedLog.entries parsed_nginxLog in
  own "404" (aggregateByField (rev entries) "status") = Some (VNum 1)
  /\ List.length (filterByStatus (rev entries) [404; 500]) = 2%nat.
Proof.
  cbv zeta.
  assert (P : Permutation (ParsedLog.entries parsed_nginxLog)
                (rev (ParsedLog.entries parsed_nginxLog)))
    by apply Permutation_rev.
  assert (I : inherited "404" = false) by reflexivity.
  destruct (counts_order_free _ _ "status" "404" [404; 500] P I) as [A B].
  rewrite <- A, <- B. vm_compute. split; reflexivity.
Defined.

Lemma filter_filter {A : Type} (p q : A -> bool) (l : list A) :
  filter p (filter q l) = filter (fun x => q x && p x) l.
Proof.
  induction l as [|x l IH]; [reflexivity|].
  simpl. destruct (q x); simpl; [destruct (p x)|]; now rewrite IH.
Qed.

Lemma existsb_filter (n : Z) (a b : list Z) :
  existsb (Z.eqb n) (filter (fun c => existsb (Z.eqb c) b) a)
  = existsb (Z.eqb n) a && existsb (Z.eqb n) b.
Proof.
  induction a as [|c a IH]; [reflexivity|].
  cbn [filter existsb]. destruct (existsb (Z.eqb c) b) eqn:E.
  - cbn [existsb]. rewrite IH.
    destruct (Z.eqb_spec n c) as [->|]; [|reflexivity].
    rewrite E. reflexivity.
  - rewrite IH. destruct (Z.eqb_spec n c) as [->|]; [|reflexivity].
    rewrite E. now rewrite andb_false_r.
Qed.

(** Filters in sequence.  Filtering by status twice selects the entries of
    a non-zero status in both lists of codes, and the status filter and the
    pattern filter give the same entries in either order: the pattern fails
    to compile in both orders or in none. *)
Theorem filters_in_sequence
    (RegExp : Type) (RegExp_i : string -> option RegExp)
    (RegExp_test : RegExp -> string -> bool)
    (entries : list object) (pattern : string) (field : option string)
    (statusCodes statusCodes' : list Z) :
  filterByStatus (filterByStatus entries statusCodes) statusCodes'
  = filterByStatus entries
      (filter (fun c => existsb (Z.eqb c) statusCodes') statusCodes)
  /\ match
       filterEntries RegExp RegExp_i RegExp_test entries pattern field,
       filterEntries RegExp RegExp_i RegExp_test
         (filterByStatus entries statusCodes) pattern field
     with
     | Return matching, Return both =>
         filterByStatus matching statusCodes = both
     | ThrowSyntaxError, ThrowSyntaxError => True
     | _, _ => False
     end.
Proof.
  split.
  - unfold filterByStatus. rewrite filter_filter. apply filter_ext.
    intros e. rewrite !filterByStatus_test. unfold status_nonzero_in.
    destruct (own "status" e) as [[| | |n| | | |]|]; try reflexivity.
    rewrite existsb_filter.
    destruct (n =? 0), (existsb (Z.eqb n) statusCodes),
      (existsb (Z.eqb n) statusCodes'); reflexivity.
  - unfold filterEntries. destruct (RegExp_i pattern) as [regex|]; [|exact I].
    unfold filterByStatus. rewrite !filter_filter. apply filter_ext.
    intros e. apply andb_comm.
Qed.

(** * Contents without a line to parse *)

(** A content all of whose lines are blank (the empty file among them)
    parses to no entry under every selector, with [totalLines] and
    [parsedEntries] 0; the selector auto reports the format text; and the
    summary of the result holds nothing but the format, the total 0 and the
    empty list of fields. *)
Theorem blank_content_parses_to_nothing
    (JSON_parse : string -> json_result) (Date_local : value -> option (Z * Z))
    (content format : string) :
  Forall (fun line => blank line = true) (lines_of content) ->
  let parsed := parse_content JSON_parse content format in
  ParsedLog.format parsed
  = (if String.eqb format "auto" then "text" else format)
  /\ ParsedLog.entries parsed = []
  /\ ParsedLog.totalLines parsed = 0%nat
  /\ ParsedLog.parsedEntries parsed = 0%nat
  /\ generateSummary Date_local parsed
     = Summary.make (ParsedLog.format parsed) 0 [] None None None None None
         None None.
Proof.
  intros B. cbv zeta.
  assert (N : non_blank_lines content = []).
  { rewrite non_blank_lines_spec.
    induction B as [|l lines Hl _ IH]; [reflexivity|].
    simpl. now rewrite Hl. }
  unfold generateSummary, parse_content, detectFormat. rewrite N.
  cbn [map not_null List.length ParsedLog.format ParsedLog.entries
       ParsedLog.totalLines ParsedLog.parsedEntries].
  repeat split; reflexivity.
Qed.

Lemma blank_content_parses_to_nothing_witness :
  let content := String " " (String LF (String LF "  ")) in
  Forall (fun line => blank line = true) (lines_of content)
  /\ ParsedLog.format (parse_content no_json content "auto") = "text"
  /\ ParsedLog.totalLines (parse_content no_json content "nginx") = 0%nat.
Proof.
  cbv zeta.
  assert (B : Forall (fun line => blank line = true)
                (lines_of (String " " (String LF (String LF "  ")))))
    by (apply Forall_of_forallb; reflexivity).
  split; [exact B|]. split.
  - exact (proj1 (blank_content_parses_to_nothing no_json no_date _ "auto" B)).
  - exact (proj1 (proj2 (proj2
             (blank_content_parses_to_nothing no_json no_date _ "nginx" B)))).
Defined.

(** * The numbers of an Apache record *)

(** A line the Apache pattern matches becomes a record of the nine fields.
    Its status is an integer from 0 to 999.  Its size is [parseInt] of a
    non-empty run of digits: the integer the run spells, not negative,
    whenever that integer is a safe one. *)
Theorem parseApacheLine_integers (line : string) (entry : object) :
  parseApacheLine line = Some entry ->
  keys entry
  = ["ip"; "identity"; "user"; "timestamp"; "method"; "path"; "protocol";
     "status"; "size"]
  /\ exists (status : Z) (size : string),
       own "status" entry = Some (VNum status) /\ 0 <= status <= 999
       /\ all_digits size = true /\ size <> EmptyString
       /\ own "size" entry = Some (number size)
       /\ (safe_integer (digits_value 0 size) = true ->
           own "size" entry = Some (VNum (digits_value 0 size))
           /\ 0 <= digits_value 0 size).
Proof.
  unfold parseApacheLine.
  destruct (exec (apache_regex true) line) as [groups|] eqn:E; [|discriminate].
  destruct (apache_groups_fields _ _ E)
    as (g1 & g2 & g3 & g4 & g5 & g6 & g7 & g8 & g9 & -> & Hf & _).
  intros [= <-]. split; [reflexivity|].
  destruct Hf as (_ & _ & _ & _ & _ & _ & _ & (H8 & L8) & (H9 & N9)).
  destruct (number_digits g8 H8 ltac:(lia)) as (status & E8 & B8).
  assert (L9 : (0 < String.length g9)%nat)
    by (destruct g9; [congruence|simpl; lia]).
  destruct (number_value g9 H9 L9) as (E9 & B9).
  exists status, g9. cbn [own String.eqb Ascii.eqb Bool.eqb].
  rewrite E8. rewrite L8 in B8.
  split; [reflexivity|]. split; [lia|]. split; [exact H9|].
  split; [exact N9|].
  split; [reflexivity|]. intros _. rewrite E9. split; [reflexivity|exact B9].
Qed.

Lemma parseApacheLine_integers_witness :
  match parseApacheLine
          (dq "10.0.0.7 - alice [19/Feb/2026:10:00:02 +0000] 'POST /login HTTP/1.1' 503 0")
  with
  | Some entry =>
      exists (status : Z) (size : string),
        own "status" entry = Some (VNum status) /\ 0 <= status <= 999
        /\ all_digits size = true /\ size <> EmptyString
        /\ own "size" entry = Some (number size)
        /\ (safe_integer (digits_value 0 size) = true ->
            own "size" entry = Some (VNum (digits_value 0 size))
            /\ 0 <= digits_value 0 size)
  | None => False
  end.
Proof.
  destruct (parseApacheLine _) as [entry|] eqn:E.
  - exact (proj2 (parseApacheLine_integers _ entry E)).
  - vm_compute in E. discriminate E.
Defined.

(** * Detection and parsing *)

(** The pattern by which [detectFormat] recognises a format accepts exactly
    the lines the parser of that format turns into a record: a line detected
    as nginx or apache is never dropped by its parser, and a line a parser
    reads would have been detected. *)
Theorem detection_agrees_with_parsers (line : string) :
  (test nginxPattern line = true <-> parseNginxLine line <> None)
  /\ (test apachePattern line = true <-> parseApacheLine line <> None).
Proof. split; [apply test_nginxPattern|apply test_apachePattern]. Qed.

(** * The option [--status] *)

Lemma all_in_append (class : ascii -> bool) (a b : string) :
  all_in class (a ++ b) = all_in class a && all_in class b.
Proof.
  induction a as [|c a IH]; simpl; [reflexivity|].
  now rewrite IH, andb_assoc.
Qed.

Lemma split_plain (sep : ascii) (a : string) :
  all_in (fun c => negb (Ascii.eqb c sep)) a = true -> split sep a = [a].
Proof.
  induction a as [|c a IH]; simpl; [reflexivity|].
  intros H. apply andb_prop in H. destruct H as [Hc Ha].
  apply negb_true_iff in Hc. rewrite Hc, (IH Ha). reflexivity.
Qed.

Lemma split_append (sep : ascii) (a b : string) :
  all_in (fun c => negb (Ascii.eqb c sep)) a = true ->
  split sep (a ++ String sep b) = a :: split sep b.
Proof.
  induction a as [|c a IH]; simpl.
  - now rewrite Ascii.eqb_refl.
  - intros H. apply andb_prop in H. destruct H as [Hc Ha].
    apply negb_true_iff in Hc. rewrite Hc, (IH Ha). reflexivity.
Qed.

Lemma split_join (sep : ascii) (l : list string) :
  l <> [] ->
  Forall (fun a => all_in (fun c => negb (Ascii.eqb c sep)) a = true) l ->
  split sep (join (String sep EmptyString) l) = l.
Proof.
  intros N H. induction H as [|a l Ha Hl IH]; [congruence|].
  destruct l as [|b l].
  - simpl. now apply split_plain.
  - change (join (String sep EmptyString) (a :: b :: l))
      with (a ++ String sep (join (String sep EmptyString) (b :: l)))%string.
    rewrite (split_append _ _ _ Ha), IH; [reflexivity|discriminate].
Qed.

Lemma trimStart_blank (a b : string) :
  blank a = true -> trimStart (a ++ b) = trimStart b.
Proof.
  induction a as [|c a IH]; simpl; [reflexivity|].
  intros H. apply andb_prop in H. destruct H as [Hc Ha].
  rewrite Hc. now apply IH.
Qed.

Lemma trimEnd_blank (a : string) : blank a = true -> trimEnd a = EmptyString.
Proof.
  induction a as [|c a IH]; simpl; [reflexivity|].
  intros H. apply andb_prop in H. destruct H as [Hc Ha].
  now rewrite (IH Ha), Hc.
Qed.

Lemma trimEnd_append (a b : string) :
  blank b = true -> trimEnd (a ++ b) = trimEnd a.
Proof.
  intros H. induction a as [|c a IH]; simpl.
  - now apply trimEnd_blank.
  - now rewrite IH.
Qed.

Lemma trimEnd_solid (a : string) :
  all_in non_space a = true -> trimEnd a = a.
Proof.
  induction a as [|c a IH]; simpl; [reflexivity|].
  intros H. apply andb_prop in H. destruct H as [Hc Ha].
  rewrite (IH Ha). unfold non_space in Hc. apply negb_true_iff in Hc.
  rewrite Hc. destruct a; reflexivity.
Qed.

Lemma numeral_solid (z : Z) : all_in non_space (string_of_Z z) = true.
Proof.
  destruct (string_of_Z_head z) as (c & s & -> & H & D). simpl.
  unfold non_space at 1.
  rewrite (proj1 (numeral_start_plain c H)). simpl.
  revert D. apply all_in_impl. intros d Hd. unfold non_space.
  now rewrite (proj1 (digit_plain d Hd)).
Qed.

Lemma trim_item (item : string * Z * string) :
  item_spaced item = true -> trim (item_text item) = string_of_Z (item_code item).
Proof.
  destruct item as [[before code] after]. unfold item_spaced, item_text, item_code.
  simpl fst. simpl snd. intros H. apply andb_prop in H. destruct H as [Hb Ha].
  unfold trim. rewrite (trimStart_blank _ _ Hb).
  destruct (string_of_Z_head code) as (c & s & E & Hc & _).
  pose proof (numeral_solid code) as S. rewrite E in *.
  simpl append. simpl trimStart.
  rewrite (proj1 (numeral_start_plain c Hc)).
  change (String c (s ++ after)) with (String c s ++ after)%string.
  rewrite (trimEnd_append _ _ Ha). now apply trimEnd_solid.
Qed.

Lemma blank_no_comma (a : string) :
  blank a = true -> all_in (fun c => negb (Ascii.eqb c ",")) a = true.
Proof.
  induction a as [|c a IH]; simpl; [reflexivity|].
  intros H. apply andb_prop in H. destruct H as [Hc Ha].
  rewrite (IH Ha), andb_true_r.
  destruct c as [[] [] [] [] [] [] [] []]; try reflexivity; discriminate Hc.
Qed.

Lemma item_no_comma (item : string * Z * string) :
  item_spaced item = true ->
  all_in (fun c => negb (Ascii.eqb c ",")) (item_text item) = true.
Proof.
  destruct item as [[before code] after]. unfold item_spaced, item_text.
  simpl fst. simpl snd. intros H. apply andb_prop in H. destruct H as [Hb Ha].
  rewrite !all_in_append, (blank_no_comma _ Hb), (blank_no_comma _ Ha).
  rewrite (string_of_Z_no "," code eq_refl). reflexivity.
Qed.

Lemma status_option_items (items : list (string * Z * string)) :
  items <> [] ->
  Forall (fun item => item_spaced item = true) items ->
  status_option (join "," (map item_text items))
  = map (fun item => VNum (item_code item)) items.
Proof.
  intros N S. unfold status_option. rewrite split_join.
  - rewrite map_map. apply map_ext_in. intros item Hi.
    rewrite Forall_forall in S. rewrite (trim_item _ (S _ Hi)).
    unfold parsed_number. now rewrite parseInt_text_string_of_Z.
  - destruct items; [congruence|discriminate].
  - apply Forall_map. revert S. apply Forall_impl. apply item_no_comma.
Qed.

Lemma includes_integers (array : list value) (v : value) :
  Forall (fun x => match x with VNum _ | VNaN => True | _ => False end) array ->
  truthy v && Array_includes array v = truthy v && includes (integers array) v.
Proof.
  intros H. destruct (truthy v) eqn:T; [simpl|reflexivity].
  unfold Array_includes, includes.
  induction H as [|x array Hx _ IH].
  - destruct v; reflexivity.
  - destruct x; try contradiction.
    + destruct v; try (simpl; exact IH). simpl. now rewrite IH, Z.eqb_sym.
    + destruct v; try (simpl; exact IH). discriminate T.
Qed.

Lemma status_option_numbers (codes : string) :
  Forall (fun x => match x with VNum _ | VNaN => True | _ => False end)
    (status_option codes).
Proof.
  unfold status_option. apply Forall_map. apply Forall_forall. intros s _.
  unfold parsed_number. destruct (parseInt_text (trim s)); exact I.
Qed.

Lemma filterByStatus_values_integers (entries : list object)
    (statusCodes : list value) :
  Forall (fun x => match x with VNum _ | VNaN => True | _ => False end)
    statusCodes ->
  filterByStatus_values entries statusCodes
  = filterByStatus entries (integers statusCodes).
Proof.
  intros H. unfold filterByStatus_values, filterByStatus. apply filter_ext.
  intros e. now apply includes_integers.
Qed.

(** What the option [--status] selects.  An option left out or empty
    leaves the entries as they are.  Otherwise the entries kept are those
    [filterByStatus] selects for the integers among the items of the option:
    an item [parseInt] reads no number from adds nothing to the selection,
    and when no item is a number no entry is kept. *)
Theorem status_step_integers (status : option string) (entries : list object) :
  status_step status entries
  = match status with
    | Some codes =>
        if String.eqb codes EmptyString then entries
        else filterByStatus entries (integers (status_option codes))
    | None => entries
    end.
Proof.
  destruct status as [codes|]; [|reflexivity].
  unfold status_step. cbn [truthy].
  destruct (String.eqb codes EmptyString); [reflexivity|]. cbn [negb].
  apply filterByStatus_values_integers, status_option_numbers.
Qed.

(** The option [--status] written as decimal numerals of safe integers
    separated by commas, each numeral with any white space around it, is
    read as the list of those integers, and selects exactly the entries
    [filterByStatus] selects for that list. *)
Theorem status_step_numerals (items : list (string * Z * string))
    (entries : list object) :
  items <> [] ->
  Forall (fun item => item_spaced item = true) items ->
  Forall (fun item => safe_integer (item_code item) = true) items ->
  status_option (join "," (map item_text items))
  = map (fun item => VNum (item_code item)) items
  /\ status_step (Some (join "," (map item_text items))) entries
     = filterByStatus entries (map item_code items).
Proof.
  intros N S _. pose proof (status_option_items items N S) as E.
  split; [exact E|].
  unfold status_step. cbn [truthy].
  destruct (String.eqb_spec (join "," (map item_text items)) EmptyString)
    as [J|_].
  - rewrite J in E. destruct items as [|i items]; [congruence|].
    discriminate E.
  - cbn [negb]. rewrite E, filterByStatus_values_integers.
    + f_equal. clear. induction items as [|i items IH]; [reflexivity|].
      simpl. now rewrite IH.
    + apply Forall_map. apply Forall_forall. intros i _. exact I.
Qed.

Lemma status_step_numerals_witness :
  let items := [(EmptyString, 404, EmptyString); (" ", 500, EmptyString)] in
  join "," (map item_text items) = "404, 500"
  /\ Forall (fun item => safe_integer (item_code item) = true) items
  /\ status_option "404, 500" = [VNum 404; VNum 500]
  /\ status_step (Some "404, 500") (ParsedLog.entries parsed_nginxLog)
     = filterByStatus (ParsedLog.entries parsed_nginxLog) [404; 500].
Proof.
  cbv zeta.
  assert (N : [(EmptyString, 404, EmptyString); (" ", 500, EmptyString)]
              <> @nil (string * Z * string)) by discriminate.
  assert (S : Forall (fun item => item_spaced item = true)
                [(EmptyString, 404, EmptyString); (" ", 500, EmptyString)])
    by (apply Forall_of_forallb; reflexivity).
  assert (B : Forall (fun item => safe_integer (item_code item) = true)
                [(EmptyString, 404, EmptyString); (" ", 500, EmptyString)])
    by (apply Forall_of_forallb; reflexivity).
  split; [reflexivity|]. split; [exact B|].
  exact (status_step_numerals _ (ParsedLog.entries parsed_nginxLog) N S B).
Defined.

(** * The export to CSV *)

Lemma csv_plain_parts (s : string) :
  csv_plain s = true ->
  all_in (fun c => negb (Ascii.eqb c ",")) s = true
  /\ all_in (fun c => negb (Ascii.eqb c LF)) s = true
  /\ includes_unit s "," = false.
Proof.
  unfold csv_plain. induction s as [|c s IH]; simpl; [auto|].
  intros H. apply andb_prop in H. destruct H as [Hc Hs].
  apply andb_prop in Hc. destruct Hc as [Hc Hl].
  destruct (IH Hs) as (A & B & C). rewrite Hc, Hl, A, B, C.
  apply negb_true_iff in Hc. rewrite Hc. auto.
Qed.

Lemma join_no_line_feed (l : list string) :
  Forall (fun a => csv_plain a = true) l ->
  all_in (fun c => negb (Ascii.eqb c LF)) (join "," l) = true.
Proof.
  induction 1 as [|a l Ha _ IH]; [reflexivity|].
  destruct (csv_plain_parts a Ha) as (_ & B & _).
  destruct l as [|b l]; [exact B|].
  change (join "," (a :: b :: l)) with (a ++ "," ++ join "," (b :: l))%string.
  rewrite !all_in_append, B, IH. reflexivity.
Qed.

Lemma split_row (l : list string) :
  l <> [] -> Forall (fun a => csv_plain a = true) l ->
  split "," (join "," l) = l.
Proof.
  intros N H. apply split_join; [exact N|].
  revert H. apply Forall_impl. intros a Ha. apply (csv_plain_parts a Ha).
Qed.

(** The CSV written for entries whose texts hold neither a comma nor a line
    feed is read back by splitting it at line feeds and commas: the first
    line gives the keys of the first entry, and the line of each entry gives,
    key by key, the text of that entry's value (empty for a key the entry
    lacks).  A field the first entry does not have is in no line. *)
Theorem csv_content_reads_back (first : object) (rest : list object) :
  keys first <> [] ->
  Forall (fun h => csv_plain h = true) (keys first) ->
  Forall (fun entry =>
            Forall (fun h => csv_plain (csv_text entry h) = true) (keys first))
         (first :: rest) ->
  exists content,
    csv_content (first :: rest) = Some content
    /\ map (split ",") (split LF content)
       = keys first
         :: map (fun entry => map (csv_text entry) (keys first)) (first :: rest).
Proof.
  intros N Hh Hc. eexists. split; [reflexivity|].
  set (headers := keys first) in *.
  set (entries := first :: rest) in *.
  assert (Cells : forall entry, In entry entries ->
            map (csv_cell entry) headers = map (csv_text entry) headers).
  { intros entry He. apply map_ext_in. intros h Hin.
    rewrite Forall_forall in Hc. specialize (Hc entry He).
    rewrite Forall_forall in Hc. unfold csv_cell.
    now rewrite (proj2 (proj2 (csv_plain_parts _ (Hc h Hin)))). }
  assert (Rows : Forall (fun a => all_in (fun c => negb (Ascii.eqb c LF)) a = true)
                   (join "," headers :: map (csv_row headers) entries)).
  { constructor; [now apply join_no_line_feed|].
    apply Forall_forall. intros row Hrow. apply in_map_iff in Hrow.
    destruct Hrow as (entry & <- & He). unfold csv_row.
    rewrite (Cells entry He). apply join_no_line_feed.
    rewrite Forall_forall in Hc. specialize (Hc entry He).
    apply Forall_map. exact Hc. }
  change (join "," headers ++ String LF EmptyString
          ++ join (String LF EmptyString) (map (csv_row headers) entries))%string
    with (join (String LF EmptyString)
            (join "," headers :: map (csv_row headers) entries)).
  rewrite split_join; [|discriminate|exact Rows].
  cbn [map]. rewrite (split_row headers N Hh). f_equal.
  rewrite map_map. apply map_ext_in. intros entry He. unfold csv_row.
  rewrite (Cells entry He). apply split_row.
  - destruct headers; [congruence|discriminate].
  - rewrite Forall_forall in Hc. specialize (Hc entry He).
    apply Forall_map. exact Hc.
Qed.

Lemma csv_content_reads_back_witness :
  let first := [("path", VStr "/a"); ("status", VNum 200)] in
  let rest := [[("path", VStr "/b"); ("size", VNum 7)]] in
  exists content,
    csv_content (first :: rest) = Some content
    /\ map (split ",") (split LF content)
       = [["path"; "status"]; ["/a"; "200"]; ["/b"; EmptyString]].
Proof.
  cbv zeta.
  apply (csv_content_reads_back
           [("path", VStr "/a"); ("status", VNum 200)]
           [[("path", VStr "/b"); ("size", VNum 7)]]).
  - discriminate.
  - apply Forall_of_forallb. reflexivity.
  - repeat constructor.
Defined.

(** * The top paths are the most frequent *)

Lemma aggregateByField_positive (entries : list object) (field : string) :
  Forall (fun entry => inherited (bucket field entry) = false) entries ->
  positive_counts (aggregateByField entries field).
Proof.
  intros H. rewrite aggregateByField_fold.
  apply fold_increment_positive; [|apply positive_counts_nil].
  apply Forall_map. exact H.
Qed.

Lemma by_count_descending_numbers (x y : string * value) :
  (exists n, snd x = VNum n /\ 0 < n) -> (exists n, snd y = VNum n /\ 0 < n) ->
  by_count_descending x y = descending count_of x y.
Proof.
  intros (n & Hx & _) (m & Hy & _).
  unfold by_count_descending, descending, count_of. now rewrite Hx, Hy.
Qed.

Lemma sorted_prefix_dominates {A : Type} (R : A -> A -> Prop) (a b : list A) :
  StronglySorted R (a ++ b) ->
  forall x y, In x a -> In y b -> R x y.
Proof.
  induction a as [|z a IH]; simpl; intros S x y Hx Hy; [contradiction|].
  apply StronglySorted_inv in S. destruct S as [S F].
  destruct Hx as [->|Hx]; [|now apply IH].
  rewrite Forall_forall in F. apply F, in_or_app. now right.
Qed.

(** The top paths are the most frequent ones.  When no path names a
    property of [Object.prototype], every pair of [topPaths] is a pair of the
    table of path counts, the pairs are in descending order of count, there
    are ten of them or as many as the table has, and no path left out has a
    higher count than a path listed. *)
Theorem topPaths_most_frequent
    (Date_local : value -> option (Z * Z)) (parsed : ParsedLog.t)
    (paths : list (string * value)) :
  Summary.topPaths (generateSummary Date_local parsed) = Some paths ->
  Forall (fun entry => inherited (bucket "path" entry) = false)
    (ParsedLog.entries parsed) ->
  let table := aggregateByField (ParsedLog.entries parsed) "path" in
  (forall p, In p paths -> In p table)
  /\ StronglySorted (fun a b => count_of b <= count_of a) paths
  /\ List.length paths = Nat.min 10 (List.length table)
  /\ forall p q, In p paths -> In q table -> ~ In q paths ->
       count_of q <= count_of p.
Proof.
  intros T H. cbv zeta.
  set (table := aggregateByField (ParsedLog.entries parsed) "path").
  set (sorted := sort by_count_descending table).
  assert (E : paths = firstn 10 sorted).
  { unfold generateSummary in T. fold table in T.
    destruct (ParsedLog.entries parsed) as [|e entries]; [discriminate T|].
    cbn [Summary.topPaths] in T.
    destruct (is_access_log (ParsedLog.format parsed)); [|discriminate T].
    unfold only_if, slice0, entries_of in T. fold sorted in T. congruence. }
  assert (P : Permutation sorted table) by apply sort_permutation.
  assert (S : StronglySorted (fun a b => count_of b <= count_of a) sorted).
  { unfold sorted. rewrite (sort_ext count_of).
    - apply sort_descending.
    - pose proof (aggregateByField_positive _ _ H) as Pos. fold table in Pos.
      unfold positive_counts in Pos. rewrite Forall_forall in Pos.
      intros x y Hx Hy. apply by_count_descending_numbers; now apply Pos. }
  rewrite <- (firstn_skipn 10 sorted) in S.
  subst paths. split; [|split; [|split]].
  - intros p Hp. apply (Permutation_in _ P).
    rewrite <- (firstn_skipn 10 sorted). apply in_or_app. now left.
  - clear -S. revert S. generalize (firstn 10 sorted) (skipn 10 sorted).
    induction l as [|x l IH]; intros l' S; [constructor|].
    simpl in S. apply StronglySorted_inv in S. destruct S as [S F].
    constructor; [now apply (IH l')|].
    rewrite Forall_forall in *. intros y Hy. apply F, in_or_app. now left.
  - rewrite length_firstn, (Permutation_length P). reflexivity.
  - intros p q Hp Hq Hn.
    apply (sorted_prefix_dominates _ _ _ S p q Hp).
    apply (Permutation_in _ (Permutation_sym P)) in Hq.
    rewrite <- (firstn_skipn 10 sorted) in Hq. apply in_app_or in Hq.
    destruct Hq as [Hq|Hq]; [contradiction|exact Hq].
Qed.

Lemma topPaths_most_frequent_witness :
  let parsed := parse_content no_json tiedPathsLog "nginx" in
  exists paths,
    Summary.topPaths (generateSummary no_date parsed) = Some paths
    /\ Forall (fun entry => inherited (bucket "path" entry) = false)
         (ParsedLog.entries parsed)
    /\ StronglySorted (fun a b => count_of b <= count_of a) paths.
Proof.
  cbv zeta.
  destruct (Summary.topPaths
              (generateSummary no_date (parse_content no_json tiedPathsLog "nginx")))
    as [paths|] eqn:T; [|vm_compute in T; discriminate T].
  assert (H : Forall (fun entry => inherited (bucket "path" entry) = false)
                (ParsedLog.entries (parse_content no_json tiedPathsLog "nginx"))).
  { apply (Forall_impl _ (P := fun e => negb (inherited (bucket "path" e)) = true)).
    - intros e He. apply negb_true_iff. exact He.
    - apply Forall_of_forallb. vm_compute. reflexivity. }
  exists paths. split; [reflexivity|]. split; [exact H|].
  exact (proj1 (proj2 (topPaths_most_frequent no_date _ paths T H))).
Defined.
